(** * wasi-test: the build step (build.py) and the compatibility matrix
      (compat.py), embedded as Rocq functions.

    Python values are modelled as follows.
    - [str] is [string]; a character is a code point below 256.
    - The values [json.loads] produces are the type [json]; a [dict] is an
      association list in insertion order (Python dicts iterate in insertion
      order, and the adapters iterate over [env], [preopens] and [args]).
      Numbers are the integers; a literal with a fraction or an exponent,
      which Python reads as a float, is outside the model and is rejected
      by the decoder.
    - A call either returns, raises an exception, or never returns
      (a child process waited for without a time limit): type [res].
    - The file tree, the installed runtimes and the clock are not part of
      the program; they are the fields of a [World]. *)

From Stdlib Require Import String Ascii List ZArith QArith Bool Lia Arith.
From Stdlib Require Import Decimal DecimalString DecimalZ DecimalPos.
From Stdlib Require Import Permutation.
Import ListNotations.

Local Close Scope Q_scope.
Local Open Scope list_scope.
Local Open Scope string_scope.

(** ** Python results *)

Module Py.

(** The exception classes the two scripts can meet; every one of them is a
    subclass of [Exception]. *)
Inductive exn : Type :=
| AssertionError
| TimeoutExpired
| CalledProcessError
| OSError
| IndexError
| TypeError
| AttributeError
| KeyError
| ValueError
| JSONDecodeError.

Inductive res (A : Type) : Type :=
| Ret (a : A)
| Raise (e : exn)
| Hang.
Arguments Ret {A} a.
Arguments Raise {A} e.
Arguments Hang {A}.

Definition bind {A B : Type} (m : res A) (k : A -> res B) : res B :=
  match m with
  | Ret a => k a
  | Raise e => Raise e
  | Hang => Hang
  end.

Definition returns {A : Type} (m : res A) : bool :=
  match m with Ret _ => true | _ => false end.

End Py.
Export Py.

Notation "x <- m ;; k" := (bind m (fun x => k))
  (at level 61, m at next level, right associativity).
Notation "m ;;; k" := (bind m (fun _ => k))
  (at level 61, right associativity).

(** ** JSON values *)

#[local] Set Warnings "-register-all".

Inductive json : Type :=
| JNull
| JBool (b : bool)
| JInt (n : Z)
| JStr (s : string)
| JArr (l : list json)
| JObj (d : list (string * json)).

(** A Python [dict] with [str] keys. *)
Definition dict : Type := list (string * json).

Module Dict.

(** The value stored under [key], if there is one. *)
Fixpoint lookup (key : string) (d : dict) : option json :=
  match d with
  | [] => None
  | (k, v) :: d' => if String.eqb k key then Some v else lookup key d'
  end.

(** [d.get(key)] and [d.get(key, default)]; Python's [None] is written
    [JNull], as [json] writes it. *)
Definition get (d : dict) (key : string) : json :=
  match lookup key d with Some v => v | None => JNull end.

Definition get_default (d : dict) (key : string) (default : json) : json :=
  match lookup key d with Some v => v | None => default end.

(** [d[key] = v]: an existing key keeps its place, a new one goes last. *)
Fixpoint set (d : dict) (key : string) (v : json) : dict :=
  match d with
  | [] => [(key, v)]
  | (k, w) :: d' =>
      if String.eqb k key then (k, v) :: d' else (k, w) :: set d' key v
  end.

Definition keys (d : dict) : list string := map fst d.

End Dict.

(** [x == None] for a value read from a dict. *)
Definition is_None (v : json) : bool :=
  match v with JNull => true | _ => false end.

(** ** The [json] module: [dumps] *)

Module Json.

Definition LF : ascii := "010"%char.
Definition CR : ascii := "013"%char.
Definition TAB : ascii := "009"%char.
Definition BS : ascii := "008"%char.
Definition FF : ascii := "012"%char.
Definition DQUOTE : ascii := "034"%char.
Definition BACKSLASH : ascii := "\"%char.

Definition chr (c : ascii) : string := String c EmptyString.

(** One lower-case hexadecimal digit, as ['{0:04x}'] prints them. *)
Definition hex_digit (n : nat) : ascii :=
  match n with
  | 0 => "0" | 1 => "1" | 2 => "2" | 3 => "3" | 4 => "4" | 5 => "5"
  | 6 => "6" | 7 => "7" | 8 => "8" | 9 => "9" | 10 => "a" | 11 => "b"
  | 12 => "c" | 13 => "d" | 14 => "e" | _ => "f"
  end%char.

(** [ESCAPE_ASCII] matches a backslash, a double quote and everything
    outside the range space..tilde; [ESCAPE_DCT] gives the short escapes
    and the rest is written [\u00xx]. *)
Definition printable (c : ascii) : bool :=
  (32 <=? nat_of_ascii c)%nat && (nat_of_ascii c <=? 126)%nat.

Definition escape_char (c : ascii) : string :=
  if Ascii.eqb c DQUOTE then String BACKSLASH (chr DQUOTE)
  else if Ascii.eqb c BACKSLASH then String BACKSLASH (chr BACKSLASH)
  else if Ascii.eqb c LF then String BACKSLASH "n"
  else if Ascii.eqb c CR then String BACKSLASH "r"
  else if Ascii.eqb c TAB then String BACKSLASH "t"
  else if Ascii.eqb c BS then String BACKSLASH "b"
  else if Ascii.eqb c FF then String BACKSLASH "f"
  else if printable c then chr c
  else String BACKSLASH
         (String "u" (String "0" (String "0"
            (String (hex_digit (nat_of_ascii c / 16))
               (chr (hex_digit (nat_of_ascii c mod 16))))))).

Fixpoint escape_body (s : string) : string :=
  match s with
  | EmptyString => EmptyString
  | String c r => escape_char c ++ escape_body r
  end.

(** [py_encode_basestring_ascii]. *)
Definition encode_string (s : string) : string :=
  String DQUOTE (escape_body s ++ chr DQUOTE).

(** [int.__repr__]. *)
Definition encode_int (n : Z) : string :=
  NilZero.string_of_int (Z.to_int n).

Fixpoint spaces (n : nat) : string :=
  match n with O => EmptyString | S k => String " " (spaces k) end.

(** ['\n' + _indent * _current_indent_level], or nothing without indent. *)
Definition newline_indent (indent : option nat) (level : nat) : string :=
  match indent with
  | Some w => String LF (spaces (w * level))
  | None => EmptyString
  end.

(** The separators [json.dumps] picks: [', '] without indent, [','] with. *)
Definition item_separator (indent : option nat) : string :=
  match indent with Some _ => "," | None => ", " end.

Definition key_separator : string := ": ".

Fixpoint join (sep : string) (l : list string) : string :=
  match l with
  | [] => EmptyString
  | [x] => x
  | x :: r => x ++ sep ++ join sep r
  end.

(** [_iterencode], at nesting depth [level]. *)
Fixpoint encode (indent : option nat) (level : nat) (v : json) : string :=
  match v with
  | JNull => "null"
  | JBool true => "true"
  | JBool false => "false"
  | JInt n => encode_int n
  | JStr s => encode_string s
  | JArr [] => "[]"
  | JArr l =>
      "[" ++ newline_indent indent (S level)
        ++ join (item_separator indent ++ newline_indent indent (S level))
             (map (encode indent (S level)) l)
        ++ newline_indent indent level ++ "]"
  | JObj [] => "{}"
  | JObj d =>
      "{" ++ newline_indent indent (S level)
        ++ join (item_separator indent ++ newline_indent indent (S level))
             (map (fun kv => match kv with
                             | (k, w) => encode_string k ++ key_separator
                                           ++ encode indent (S level) w
                             end) d)
        ++ newline_indent indent level ++ "}"
  end.

(** [sorted(dct.items())]: insertion into a list ordered by key. *)
Fixpoint insert_item (kv : string * json) (d : dict) : dict :=
  match d with
  | [] => [kv]
  | kw :: d' =>
      if String.leb (fst kv) (fst kw) then kv :: kw :: d'
      else kw :: insert_item kv d'
  end.

Definition sort_items (d : dict) : dict := fold_right insert_item [] d.

(** [sort_keys=True] sorts the items of every dict on the way down. *)
Fixpoint sort_keys (v : json) : json :=
  match v with
  | JArr l => JArr (map sort_keys l)
  | JObj d =>
      JObj (sort_items
              (map (fun kv => match kv with (k, w) => (k, sort_keys w) end) d))
  | _ => v
  end.

(** [json.dumps(v, sort_keys=..., indent=...)]. *)
Definition dumps (sorted : bool) (indent : option nat) (v : json) : string :=
  encode indent 0 (if sorted then sort_keys v else v).

(** *** [loads] *)

(** [WHITESPACE_STR = ' \t\n\r']. *)
Definition is_ws (c : ascii) : bool :=
  Ascii.eqb c " " || Ascii.eqb c TAB || Ascii.eqb c LF || Ascii.eqb c CR.

Fixpoint skip_ws (s : string) : string :=
  match s with
  | String c r => if is_ws c then skip_ws r else s
  | EmptyString => EmptyString
  end.

(** [int(esc, 16)] on one digit, in either case. *)
Definition hex_value (c : ascii) : option nat :=
  let n := nat_of_ascii c in
  if (48 <=? n)%nat && (n <=? 57)%nat then Some (n - 48)
  else if (97 <=? n)%nat && (n <=? 102)%nat then Some (n - 87)
  else if (65 <=? n)%nat && (n <=? 70)%nat then Some (n - 55)
  else None.

(** The four hexadecimal digits of a [\uXXXX] escape. *)
Definition decode_uXXXX (h1 h2 h3 h4 : ascii) : option nat :=
  match hex_value h1, hex_value h2, hex_value h3, hex_value h4 with
  | Some a, Some b, Some c, Some d => Some (((a * 16 + b) * 16 + c) * 16 + d)
  | _, _, _, _ => None
  end.

(** [BACKSLASH]: the one-letter escapes. *)
Definition unescape (c : ascii) : option ascii :=
  if Ascii.eqb c DQUOTE then Some DQUOTE
  else if Ascii.eqb c BACKSLASH then Some BACKSLASH
  else if Ascii.eqb c "/" then Some "/"%char
  else if Ascii.eqb c "b" then Some BS
  else if Ascii.eqb c "f" then Some FF
  else if Ascii.eqb c "n" then Some LF
  else if Ascii.eqb c "r" then Some CR
  else if Ascii.eqb c "t" then Some TAB
  else None.

Definition cons_char (c : ascii) (r : option (string * string))
  : option (string * string) :=
  match r with
  | Some (body, rest) => Some (String c body, rest)
  | None => None
  end.

(** [scanstring], started after the opening quote; [strict] is on, so a
    raw control character is an error.  An escape naming a code point
    from 256 on is outside the model and rejected. *)
Fixpoint scanstring (s : string) : option (string * string) :=
  match s with
  | EmptyString => None
  | String c r =>
      if Ascii.eqb c DQUOTE then Some (EmptyString, r)
      else if Ascii.eqb c BACKSLASH then
        match r with
        | String "u" (String h1 (String h2 (String h3 (String h4 r')))) =>
            match decode_uXXXX h1 h2 h3 h4 with
            | Some n =>
                if (n <? 256)%nat then cons_char (ascii_of_nat n) (scanstring r')
                else None
            | None => None
            end
        | String e r' =>
            match unescape e with
            | Some c' => cons_char c' (scanstring r')
            | None => None
            end
        | EmptyString => None
        end
      else if (nat_of_ascii c <? 32)%nat then None
      else cons_char c (scanstring r)
  end.

Definition digit_of (c : ascii) : option (uint -> uint) :=
  match c with
  | "0" => Some D0 | "1" => Some D1 | "2" => Some D2 | "3" => Some D3
  | "4" => Some D4 | "5" => Some D5 | "6" => Some D6 | "7" => Some D7
  | "8" => Some D8 | "9" => Some D9 | _ => None
  end%char.

Fixpoint scan_digits (s : string) : uint * string :=
  match s with
  | String c r =>
      match digit_of c with
      | Some d => let (u, r') := scan_digits r in (d u, r')
      | None => (Nil, s)
      end
  | EmptyString => (Nil, EmptyString)
  end.

(** The integer group of [NUMBER_RE]: an optional minus sign, then either
    a single zero or a digit from 1 to 9 followed by any digits. *)
Definition scan_integer (s : string) : option (Z * string) :=
  let (neg, s1) :=
    match s with String "-" r => (true, r) | _ => (false, s) end in
  match s1 with
  | String "0" r => Some (0%Z, r)
  | _ =>
      match scan_digits s1 with
      | (Nil, _) => None
      | (u, r) => Some (Z.of_int (if neg then Neg u else Pos u), r)
      end
  end.

(** What may not follow the integer group.  A fraction or an exponent
    makes the literal a float, which the model leaves out; a dot or an
    [e] that starts neither is refused by every caller of [scan_once]
    (nothing but white space, a comma or a closing bracket may follow a
    value), so both cases are an error here. *)
Definition starts_fraction (s : string) : bool :=
  match s with
  | String c _ => Ascii.eqb c "." || Ascii.eqb c "e" || Ascii.eqb c "E"
  | EmptyString => false
  end.

Definition match_number (s : string) : option (json * string) :=
  match scan_integer s with
  | Some (n, r) => if starts_fraction r then None else Some (JInt n, r)
  | None => None
  end.

(** [s[idx:idx+len(word)] == word]; returns what follows the word. *)
Fixpoint expect (word s : string) : option string :=
  match word, s with
  | EmptyString, _ => Some s
  | String a w, String b r => if Ascii.eqb a b then expect w r else None
  | String _ _, EmptyString => None
  end.

(** [dict(pairs)]: a repeated key keeps its first place and its last
    value. *)
Definition dict_of_pairs (pairs : list (string * json)) : dict :=
  fold_left (fun d kv => Dict.set d (fst kv) (snd kv)) pairs [].

(** [scan_once], [JSONArray] and [JSONObject].  The array loop starts at
    the first element, the object loop after the opening quote of a key.
    [fuel] bounds the recursion; the length of the text is enough. *)
Fixpoint scan_once (fuel : nat) (s : string) : option (json * string) :=
  match fuel with
  | O => None
  | S f =>
      match s with
      | EmptyString => None
      | String c r =>
          if Ascii.eqb c DQUOTE then
            match scanstring r with
            | Some (body, rest) => Some (JStr body, rest)
            | None => None
            end
          else if Ascii.eqb c "{" then
            match skip_ws r with
            | String "}" rest => Some (JObj [], rest)
            | String "034"%char r' =>
                match parse_object f r' with
                | Some (pairs, rest) => Some (JObj (dict_of_pairs pairs), rest)
                | None => None
                end
            | _ => None
            end
          else if Ascii.eqb c "[" then
            match skip_ws r with
            | String "]" rest => Some (JArr [], rest)
            | r' =>
                match parse_array f r' with
                | Some (values, rest) => Some (JArr values, rest)
                | None => None
                end
            end
          else if Ascii.eqb c "n" then
            match expect "null" s with
            | Some rest => Some (JNull, rest) | None => None end
          else if Ascii.eqb c "t" then
            match expect "true" s with
            | Some rest => Some (JBool true, rest) | None => None end
          else if Ascii.eqb c "f" then
            match expect "false" s with
            | Some rest => Some (JBool false, rest) | None => None end
          else match_number s
      end
  end

with parse_array (fuel : nat) (s : string) : option (list json * string) :=
  match fuel with
  | O => None
  | S f =>
      match scan_once f s with
      | Some (value, r) =>
          match skip_ws r with
          | String "]" rest => Some ([value], rest)
          | String "," r' =>
              match parse_array f (skip_ws r') with
              | Some (values, rest) => Some (value :: values, rest)
              | None => None
              end
          | _ => None
          end
      | None => None
      end
  end

with parse_object (fuel : nat) (s : string)
  : option (list (string * json) * string) :=
  match fuel with
  | O => None
  | S f =>
      match scanstring s with
      | Some (key, r) =>
          match skip_ws r with
          | String ":" r1 =>
              match scan_once f (skip_ws r1) with
              | Some (value, r2) =>
                  match skip_ws r2 with
                  | String "}" rest => Some ([(key, value)], rest)
                  | String "," r3 =>
                      match skip_ws r3 with
                      | String "034"%char r4 =>
                          match parse_object f r4 with
                          | Some (pairs, rest) =>
                              Some ((key, value) :: pairs, rest)
                          | None => None
                          end
                      | _ => None
                      end
                  | _ => None
                  end
              | None => None
              end
          | _ => None
          end
      | None => None
      end
  end.

(** [json.loads]: white space may surround the one value; anything else
    after it is "Extra data". *)
Definition loads (s : string) : res json :=
  match scan_once (S (String.length s)) (skip_ws s) with
  | Some (v, rest) =>
      match skip_ws rest with
      | EmptyString => Ret v
      | String _ _ => Raise JSONDecodeError
      end
  | None => Raise JSONDecodeError
  end.

End Json.

(** ** [str] methods and [os.path] *)

Module Str.

Definition cons_head (c : ascii) (parts : list string) : list string :=
  match parts with
  | x :: xs => String c x :: xs
  | [] => [Json.chr c]
  end.

(** [s.split(sep)] for a non-empty [sep]: the occurrences of [sep] are
    taken from the left and do not overlap; [skip] counts the characters
    of an occurrence still to pass over. *)
Fixpoint split_from (sep : string) (skip : nat) (s : string) : list string :=
  match s with
  | EmptyString => [EmptyString]
  | String c r =>
      match skip with
      | S k => split_from sep k r
      | O =>
          if prefix sep s
          then EmptyString :: split_from sep (String.length sep - 1) r
          else cons_head c (split_from sep 0 r)
      end
  end.

Definition split (s sep : string) : list string := split_from sep 0 s.

(** Iterating over a text file: each line keeps its newline; the last
    one has none when the file does not end in one. *)
Fixpoint readlines (s : string) : list string :=
  match s with
  | EmptyString => []
  | String c r =>
      if Ascii.eqb c Json.LF then Json.chr Json.LF :: readlines r
      else cons_head c (readlines r)
  end.

Fixpoint concat (l : list string) : string :=
  match l with
  | [] => EmptyString
  | x :: r => x ++ concat r
  end.

(** [sorted] on a list of [str]. *)
Fixpoint insert_sorted (x : string) (l : list string) : list string :=
  match l with
  | [] => [x]
  | y :: r => if String.leb x y then x :: y :: r else y :: insert_sorted x r
  end.

Definition sorted (l : list string) : list string :=
  fold_right insert_sorted [] l.

End Str.

Module OsPath.

Definition SEP : ascii := "/"%char.

(** The text up to and including the last [/], and the text after it;
    [None] when there is no [/]. *)
Fixpoint split_last_sep (p : string) : option (string * string) :=
  match p with
  | EmptyString => None
  | String c r =>
      match split_last_sep r with
      | Some (h, t) => Some (String c h, t)
      | None => if Ascii.eqb c SEP then Some (Json.chr SEP, r) else None
      end
  end.

(** [s.rstrip('/')]. *)
Fixpoint rstrip_sep (s : string) : string :=
  match s with
  | EmptyString => EmptyString
  | String c r =>
      match rstrip_sep r with
      | EmptyString => if Ascii.eqb c SEP then EmptyString else Json.chr c
      | r' => String c r'
      end
  end.

Definition basename (p : string) : string :=
  match split_last_sep p with Some (_, t) => t | None => p end.

(** A head made of slashes only is kept; otherwise its trailing slashes
    go. *)
Definition dirname (p : string) : string :=
  match split_last_sep p with
  | Some (h, _) =>
      match rstrip_sep h with EmptyString => h | h' => h' end
  | None => EmptyString
  end.

(** The text before the last dot and the text from it on. *)
Fixpoint split_last_dot (s : string) : option (string * string) :=
  match s with
  | EmptyString => None
  | String c r =>
      match split_last_dot r with
      | Some (h, t) => Some (String c h, t)
      | None => if Ascii.eqb c "." then Some (EmptyString, s) else None
      end
  end.

Fixpoint only_dots (s : string) : bool :=
  match s with
  | EmptyString => true
  | String c r => Ascii.eqb c "." && only_dots r
  end.

(** [splitext]: the extension starts at the last dot of the last
    component, unless only dots come before it there. *)
Definition splitext (p : string) : string * string :=
  let (head, tail) :=
    match split_last_sep p with Some ht => ht | None => (EmptyString, p) end in
  match split_last_dot tail with
  | Some (stem, ext) => if only_dots stem then (p, EmptyString)
                        else (head ++ stem, ext)
  | None => (p, EmptyString)
  end.

Definition isabs (p : string) : bool := prefix "/" p.

Definition ends_with_sep (p : string) : bool :=
  match split_last_sep p with
  | Some (_, EmptyString) => true
  | _ => false
  end.

(** [os.path.join(a, b)]. *)
Definition join (a b : string) : string :=
  if isabs b then b
  else match a with
       | EmptyString => b
       | _ => if ends_with_sep a then a ++ b else a ++ "/" ++ b
       end.

(** [normpath] on the components: empty ones and [.] go, [..] removes
    the component before it; at the root [..] goes as well. *)
Fixpoint norm_comps (absolute : bool) (comps acc : list string) : list string :=
  match comps with
  | [] => List.rev acc
  | c :: r =>
      if String.eqb c EmptyString || String.eqb c "." then norm_comps absolute r acc
      else if String.eqb c ".." then
        match acc with
        | [] => if absolute then norm_comps absolute r acc
                else norm_comps absolute r [c]
        | a :: acc' => if String.eqb a ".." then norm_comps absolute r (c :: acc)
                       else norm_comps absolute r acc'
        end
      else norm_comps absolute r (c :: acc)
  end.

(** Two leading slashes are kept, one stands for three or more. *)
Definition initial_slashes (p : string) : string :=
  if prefix "///" p then "/"
  else if prefix "//" p then "//"
  else if prefix "/" p then "/"
  else EmptyString.

Definition normpath (p : string) : string :=
  match p with
  | EmptyString => "."
  | _ =>
      let path := initial_slashes p
                    ++ Json.join "/" (norm_comps (isabs p) (Str.split p "/") []) in
      match path with EmptyString => "." | _ => path end
  end.

(** [os.path.abspath], with the current directory [cwd]. *)
Definition abspath (cwd p : string) : string :=
  normpath (if isabs p then p else join cwd p).

End OsPath.

(** ** The world around the scripts *)

(** What a child process does when it is left alone: it exits after some
    seconds with its output and status, it never exits, or its executable
    cannot be started. *)
Inductive behaviour : Type :=
| Exits (seconds : Q) (stdout stderr : string) (returncode : Z)
| Runs_forever
| Cannot_start.

(** The file tree is read as it is when the run starts.  Writing a file
    and making or removing a directory of the script's own is taken to
    succeed; [tempfile.mkdtemp] gives the [n]-th temporary directory, or
    none when no directory can be made, and copying a tree fails when
    its source is not there. *)
Record World : Type := {
  getcwd : string;
  read_text : string -> option string;
  glob : string -> list string;
  path_exists : string -> bool;
  mkdtemp : nat -> option string;
  behaviour_of : list string -> string -> option string -> behaviour
}.

(** What a script does to the file tree, in the order it does it. *)
Inductive event : Type :=
| WriteFile (path content : string)
| MakeDirs (path : string)
| MkDir (path : string)
| RmTree (path : string)
| CopyTree (src dst : string)
| MkDTemp (path : string).

(** A computation over a state [S]; the state survives an exception. *)
Definition M (S A : Type) : Type := S -> res A * S.

Module St.

Definition ret {S A : Type} (a : A) : M S A := fun s => (Ret a, s).

Definition bind {S A B : Type} (m : M S A) (k : A -> M S B) : M S B :=
  fun s =>
    match m s with
    | (Ret a, s') => k a s'
    | (Raise e, s') => (Raise e, s')
    | (Hang, s') => (Hang, s')
    end.

Definition lift {S A : Type} (r : res A) : M S A := fun s => (r, s).

Definition raise {S A : Type} (e : exn) : M S A := lift (Raise e).

Definition modify {S : Type} (f : S -> S) : M S unit :=
  fun s => (Ret tt, f s).

Definition gets {S A : Type} (f : S -> A) : M S A := fun s => (Ret (f s), s).

(** [for x in l: body(x)]. *)
Fixpoint for_each {S A : Type} (l : list A) (body : A -> M S unit)
  : M S unit :=
  match l with
  | [] => ret tt
  | x :: r => bind (body x) (fun _ => for_each r body)
  end.

End St.

Declare Scope st_scope.
Delimit Scope st_scope with st.
Notation "x <-- m ;; k" := (St.bind m (fun x => k))
  (at level 61, m at next level, right associativity) : st_scope.
Notation "m >> k" := (St.bind m (fun _ => k))
  (at level 61, right associativity) : st_scope.

(** ** [subprocess] *)

Module Subprocess.

Record CompletedProcess : Type := {
  stdout : string;
  stderr : string;
  returncode : Z
}.

(** [check_call(cmd)]: waits without a limit, in the script's directory,
    and raises on a status other than 0. *)
Definition check_call (w : World) (cmd : list string) : res unit :=
  match behaviour_of w cmd (getcwd w) None with
  | Cannot_start => Raise OSError
  | Runs_forever => Hang
  | Exits _ _ _ rc => if Z.eqb rc 0 then Ret tt else Raise CalledProcessError
  end.

(** The [timeout] argument: [None], or a number of seconds ([bool] is a
    subclass of [int]); anything else fails in [_time() + timeout]. *)
Definition timeout_arg (v : json) : res (option Z) :=
  match v with
  | JNull => Ret None
  | JInt n => Ret (Some n)
  | JBool b => Ret (Some (if b then 1 else 0)%Z)
  | _ => Raise TypeError
  end.

(** The [input] argument in text mode: [None] or a [str]; anything else
    fails in [input.encode]. *)
Definition input_arg (v : json) : res (option string) :=
  match v with
  | JNull => Ret None
  | JStr s => Ret (Some s)
  | _ => Raise AttributeError
  end.

(** Waiting for a started child: past the limit it is killed and
    [TimeoutExpired] is raised. *)
Definition communicate (b : behaviour) (timeout : option Z)
  : res CompletedProcess :=
  match b, timeout with
  | Cannot_start, _ => Raise OSError
  | Runs_forever, None => Hang
  | Runs_forever, Some _ => Raise TimeoutExpired
  | Exits d out err rc, None =>
      Ret {| stdout := out; stderr := err; returncode := rc |}
  | Exits d out err rc, Some t =>
      if Qle_bool d (inject_Z t)
      then Ret {| stdout := out; stderr := err; returncode := rc |}
      else Raise TimeoutExpired
  end.

(** [run(cmd, cwd=..., encoding='utf8', input=..., timeout=...,
    capture_output=True)]: the child is started first, then the limit
    and the input are looked at. *)
Definition run (w : World) (cmd : list string) (cwd : string)
    (input timeout : json) : res CompletedProcess :=
  match input with
  | JStr s =>
      match behaviour_of w cmd cwd (Some s) with
      | Cannot_start => Raise OSError
      | b => t <- timeout_arg timeout ;; communicate b t
      end
  | _ =>
      match behaviour_of w cmd cwd None with
      | Cannot_start => Raise OSError
      | b => t <- timeout_arg timeout ;;
             i <- input_arg input ;;
             communicate b t
      end
  end.

End Subprocess.

(** ** build.py *)

Module Build.

(** [extract_prelude], on the lines of the file. *)
Fixpoint prelude_of_lines (lines : list string) (prelude : string)
  : res string :=
  match lines with
  | [] => Ret prelude
  | line :: rest =>
      if String.eqb line (Json.chr Json.LF) then Ret prelude
      else match nth_error (Str.split line "//") 1 with
           | Some part => prelude_of_lines rest (prelude ++ part)
           | None => Raise IndexError
           end
  end.

Definition extract_prelude (w : World) (filepath : string) : res string :=
  match read_text w filepath with
  | Some text => prelude_of_lines (Str.readlines text) EmptyString
  | None => Raise OSError
  end.

Definition ensure_dir (w : World) (dirpath : string) : M (list event) unit :=
  fun tr =>
    let made := existsb (fun e => match e with
                                  | MakeDirs p => String.eqb p dirpath
                                  | _ => false
                                  end) tr in
    if path_exists w dirpath || made then (Ret tt, tr)
    else (Ret tt, (tr ++ [MakeDirs dirpath])%list).

Definition compile_cmd (compiler flag target filepath : string) : list string :=
  [compiler; flag; "wasm32-wasi"; "-o"; target; filepath].

(** The text written to the record file. *)
Definition persist (config : json) : string :=
  Json.dumps true (Some 2) config ++ Json.chr Json.LF.

Definition build_test (w : World) (filepath outdir : string)
  : M (list event) unit :=
  (let dirname := OsPath.dirname filepath in
   ensure_dir w (OsPath.join outdir dirname) >>
   let (basename, ext) := OsPath.splitext filepath in
   (if String.eqb ext ".c" then
      St.lift (Subprocess.check_call w
        (compile_cmd "clang" "-target"
           (OsPath.join outdir (basename ++ ".wasm")) filepath))
    else if String.eqb ext ".rs" then
      St.lift (Subprocess.check_call w
        (compile_cmd "rustc" "--target"
           (OsPath.join outdir (basename ++ ".wasm")) filepath))
    else St.raise ValueError) >>
   config <-- St.lift (prelude <- extract_prelude w filepath ;;
                       Json.loads prelude) ;;
   St.modify (fun tr =>
     (tr ++ [WriteFile (OsPath.join outdir (basename ++ ".json"))
               (persist config)])%list))%st.

Definition main (w : World) : M (list event) unit :=
  St.for_each (glob w "integration/*.*")
    (fun filepath => build_test w filepath "build").

End Build.

(** ** compat.py *)

Module Compat.

Import Subprocess.

(** The state of a run: the dict object [config] refers to (every adapter
    of a case is handed the same object), what was done to the file tree,
    what was written to standard output, and how many temporary
    directories were made. *)
Record State : Type := {
  config : json;
  trace : list event;
  out : string;
  temps : nat
}.

Definition set_config (c : json) (s : State) : State :=
  {| config := c; trace := trace s; out := out s; temps := temps s |}.

Definition log (e : event) (s : State) : State :=
  {| config := config s; trace := (trace s ++ [e])%list; out := out s;
     temps := temps s |}.

Definition write (text : string) : M State unit :=
  St.modify (fun s =>
    {| config := config s; trace := trace s; out := out s ++ text;
       temps := temps s |}).

(** [config.get(key)] and [config.get(key, default)]; only a dict has
    [get]. *)
Definition config_get (key : string) : M State json :=
  fun s =>
    match config s with
    | JObj d => (Ret (Dict.get d key), s)
    | _ => (Raise AttributeError, s)
    end.

(** [config[key] = v]. *)
Definition config_set (key : string) (v : json) : M State unit :=
  fun s =>
    match config s with
    | JObj d => (Ret tt, set_config (JObj (Dict.set d key v)) s)
    | _ => (Raise TypeError, s)
    end.

Definition py_assert (b : bool) : res unit :=
  if b then Ret tt else Raise AssertionError.

(** [s == v] for a [str] and [n == v] for an [int]; [True == 1]. *)
Definition str_eq (s : string) (v : json) : bool :=
  match v with JStr t => String.eqb s t | _ => false end.

Definition int_eq (n : Z) (v : json) : bool :=
  match v with
  | JInt m => Z.eqb n m
  | JBool b => Z.eqb n (if b then 1 else 0)
  | _ => false
  end.

Definition expected_get (expected : json) (key : string) (default : json)
  : res json :=
  match expected with
  | JObj d => Ret (Dict.get_default d key default)
  | _ => Raise AttributeError
  end.

Definition assert_result (actual : CompletedProcess) (expected : json)
  : res unit :=
  e <- expected_get expected "stdout" (JStr EmptyString) ;;
  py_assert (str_eq (stdout actual) e) ;;;
  e <- expected_get expected "stderr" (JStr EmptyString) ;;
  py_assert (str_eq (stderr actual) e) ;;;
  e <- expected_get expected "exitCode" (JInt 0) ;;
  py_assert (int_eq (returncode actual) e).

Definition ensure_empty_dir (w : World) (path : string) : M State unit :=
  fun s =>
    let made := existsb (fun e => match e with
                                  | MkDir p => String.eqb p path
                                  | _ => false
                                  end) (trace s) in
    let s1 := if path_exists w path || made then log (RmTree path) s else s in
    (Ret tt, log (MkDir path) s1).

Definition load_config (w : World) (filepath : string) : res json :=
  match read_text w filepath with
  | Some text => Json.loads text
  | None => Raise OSError
  end.

Definition config_get_default (key : string) (default : json) : M State json :=
  fun s => (expected_get (config s) key default, s).

Definition test (w : World) (cmd : list string) (cwd : string)
  : M State unit :=
  (input <-- config_get "stdin" ;;
   timeout <-- config_get_default "timeout" (JInt 5) ;;
   result <-- St.lift (run w cmd cwd input timeout) ;;
   expected <-- St.gets config ;;
   St.lift (assert_result result expected))%st.

Definition q (s : string) : string :=
  Json.chr Json.DQUOTE ++ s ++ Json.chr Json.DQUOTE.

(** The glue programs, as [textwrap.dedent] leaves them. *)
Definition DENO_GLUE : string :=
  Json.join (Json.chr Json.LF)
    [ EmptyString;
      "import WASI from " ++ q "https://deno.land/std/wasi/snapshot_preview1.ts" ++ ";";
      EmptyString;
      "const config = JSON.parse(Deno.args[0]);";
      "const buffer = Deno.readFileSync(Deno.args[1]);";
      EmptyString;
      "const wasi = new WASI({";
      "  env: config.env,";
      "  args: [Deno.args[1], ...config.args],";
      "  preopens: config.preopens,";
      "});";
      EmptyString;
      "WebAssembly.instantiate(buffer, {";
      "  wasi_snapshot_preview1: wasi.exports,";
      "}).then(function({ instance }) {";
      "  wasi.start(instance);";
      "});";
      EmptyString ].

Definition NODE_GLUE : string :=
  Json.join (Json.chr Json.LF)
    [ EmptyString;
      "const fs = require(" ++ q "fs" ++ ");";
      "const { WASI } = require(" ++ q "wasi" ++ ");";
      EmptyString;
      "const config = JSON.parse(process.argv[2]);";
      "const buffer = fs.readFileSync(process.argv[3]);";
      EmptyString;
      "const wasi = new WASI({";
      "  env: config.env,";
      "  args: [process.argv[3], ...config.args],";
      "  preopens: config.preopens,";
      "});";
      EmptyString;
      "WebAssembly.instantiate(buffer, {";
      "  wasi_snapshot_preview1: wasi.wasiImport,";
      "}).then(function({ instance }) {";
      "    wasi.start(instance);";
      "});";
      EmptyString ].

(** [open(name, 'w')] with a relative name writes in the script's
    directory. *)
Definition write_file (w : World) (name content : string) : M State unit :=
  St.modify (log (WriteFile (OsPath.join (getcwd w) name) content)).

(** [if config.get(key) == None: config[key] = v]. *)
Definition default_in_place (key : string) (v : json) : M State unit :=
  (x <-- config_get key ;;
   if is_None x then config_set key v else St.ret tt)%st.

Definition dumps_config : M State string :=
  St.gets (fun s => Json.dumps false None (config s)).

Definition deno_cmd (cwd_script config_text filepath : string) : list string :=
  ["deno"; "run"; "--quiet"; "--allow-all"; "--unstable";
   cwd_script; config_text; filepath].

Definition test_deno (w : World) (filepath cwd : string) : M State unit :=
  (write_file w ".deno.ts" DENO_GLUE >>
   default_in_place "env" (JObj []) >>
   default_in_place "args" (JArr []) >>
   text <-- dumps_config ;;
   test w (deno_cmd (OsPath.abspath (getcwd w) ".deno.ts") text filepath) cwd)%st.

Definition node_cmd (cwd_script config_text filepath : string) : list string :=
  ["node"; "--no-warnings"; "--experimental-wasi-unstable-preview1";
   "--experimental-wasm-bigint"; cwd_script; config_text; filepath].

Definition test_node (w : World) (filepath cwd : string) : M State unit :=
  (write_file w ".node.js" NODE_GLUE >>
   default_in_place "env" (JObj []) >>
   default_in_place "args" (JArr []) >>
   text <-- dumps_config ;;
   test w (node_cmd (OsPath.abspath (getcwd w) ".node.js") text filepath) cwd)%st.

(** [for key in v: cmd.append(flag); cmd.append(key + sep + v[key])],
    over the keys of a dict. *)
Fixpoint flags_of_keys (flag sep : string) (d : dict) (keys : list string)
  : res (list string) :=
  match keys with
  | [] => Ret []
  | key :: r =>
      match Dict.lookup key d with
      | Some (JStr s) =>
          rest <- flags_of_keys flag sep d r ;;
          Ret (flag :: (key ++ sep ++ s) :: rest)
      | Some _ => Raise TypeError
      | None => Raise KeyError
      end
  end.

(** The same loop under [if v != None:].  An empty list or [str] has
    nothing to iterate over; any other value that is not a dict fails at
    the first [key + sep + v[key]], or is not iterable. *)
Definition optional_flags (flag sep : string) (v : json) : res (list string) :=
  match v with
  | JNull => Ret []
  | JObj d => flags_of_keys flag sep d (Dict.keys d)
  | JArr [] => Ret []
  | JStr EmptyString => Ret []
  | _ => Raise TypeError
  end.

(** What [for arg in args] goes through. *)
Definition iterate (v : json) : res (list json) :=
  match v with
  | JArr l => Ret l
  | JObj d => Ret (map JStr (Dict.keys d))
  | JStr s => Ret (map (fun c => JStr (Json.chr c)) (list_ascii_of_string s))
  | _ => Raise TypeError
  end.

(** A command is a list of [str]: [Popen] refuses any other item.  Nothing
    happens between appending the items and starting the child, so the
    refusal is raised where the item is appended. *)
Fixpoint command_items (l : list json) : res (list string) :=
  match l with
  | [] => Ret []
  | JStr s :: r => rest <- command_items r ;; Ret (s :: rest)
  | _ :: _ => Raise TypeError
  end.

(** [if args != None: (cmd.append('--');) for arg in args:
    cmd.append(arg)]. *)
Definition optional_args (separator : list string) (v : json)
  : res (list string) :=
  match v with
  | JNull => Ret []
  | _ => items <- iterate v ;;
         args <- command_items items ;;
         Ret (separator ++ args)%list
  end.

Definition wasmer_cmd (filepath : string) (config : dict) : res (list string) :=
  envs <- optional_flags "--env" "=" (Dict.get config "env") ;;
  dirs <- optional_flags "--mapdir" ":" (Dict.get config "preopens") ;;
  args <- optional_args ["--"] (Dict.get config "args") ;;
  Ret (["wasmer"; "run"; filepath] ++ envs ++ dirs ++ args)%list.

Definition wasmtime_cmd (filepath : string) (config : dict)
  : res (list string) :=
  envs <- optional_flags "--env" "=" (Dict.get config "env") ;;
  dirs <- optional_flags "--mapdir" "::" (Dict.get config "preopens") ;;
  args <- optional_args ["--"] (Dict.get config "args") ;;
  Ret (["wasmtime"; "run"] ++ envs ++ dirs ++ [filepath] ++ args)%list.

Definition wasmedge_so (filepath : string) : string :=
  fst (OsPath.splitext filepath) ++ ".so".

Definition wasmedgec_cmd (filepath : string) : list string :=
  ["wasmedgec"; filepath; wasmedge_so filepath].

Definition wasmedge_cmd (filepath : string) (config : dict)
  : res (list string) :=
  envs <- optional_flags "--env" "=" (Dict.get config "env") ;;
  dirs <- optional_flags "--dir" ":" (Dict.get config "preopens") ;;
  args <- optional_args [] (Dict.get config "args") ;;
  Ret (["wasmedge"] ++ envs ++ dirs ++ [wasmedge_so filepath] ++ args)%list.

(** Building a command from the dict [config] refers to. *)
Definition build_cmd (f : dict -> res (list string)) : M State (list string) :=
  fun s =>
    match config s with
    | JObj d => (f d, s)
    | _ => (Raise AttributeError, s)
    end.

Definition test_wasmer (w : World) (filepath cwd : string) : M State unit :=
  (cmd <-- build_cmd (wasmer_cmd filepath) ;; test w cmd cwd)%st.

Definition test_wasmtime (w : World) (filepath cwd : string) : M State unit :=
  (cmd <-- build_cmd (wasmtime_cmd filepath) ;; test w cmd cwd)%st.

Definition test_wasmedge (w : World) (filepath cwd : string) : M State unit :=
  (St.lift (check_call w (wasmedgec_cmd filepath)) >>
   cmd <-- build_cmd (wasmedge_cmd filepath) ;;
   test w cmd cwd)%st.

Inductive adapter : Type := Deno | Node | Wasmer | Wasmtime | Wasmedge.

Definition adapter_name (a : adapter) : string :=
  match a with
  | Deno => "deno" | Node => "node" | Wasmer => "wasmer"
  | Wasmtime => "wasmtime" | Wasmedge => "wasmedge"
  end.

(** The dict [tests]: a name and its function, in the order written. *)
Definition run_adapter (a : adapter) (w : World) (filepath cwd : string)
  : M State unit :=
  match a with
  | Deno => test_deno w filepath cwd
  | Node => test_node w filepath cwd
  | Wasmer => test_wasmer w filepath cwd
  | Wasmtime => test_wasmtime w filepath cwd
  | Wasmedge => test_wasmedge w filepath cwd
  end.

Definition tests : list adapter := [Deno; Node; Wasmer; Wasmtime; Wasmedge].

Definition ESC : ascii := "027"%char.
Definition OK : string := String ESC "[92mok" ++ String ESC "[0m".
Definition FAILED : string := String ESC "[91mFAILED" ++ String ESC "[0m".

(** [try: body; write(ok) except Exception: write(FAILED)
    finally: write('\n')]. *)
Definition try_report (body : M State unit) : M State unit :=
  fun s =>
    match body s with
    | (Ret _, s') => (write OK >> write (Json.chr Json.LF))%st s'
    | (Raise _, s') => (write FAILED >> write (Json.chr Json.LF))%st s'
    | (Hang, s') => (Hang, s')
    end.

(** One turn of the inner loop. *)
Definition cell (w : World) (filepath workdir : string) (a : adapter)
  : M State unit :=
  (ensure_empty_dir w "scratch" >>
   write "  " >> write (adapter_name a) >> write " ... " >>
   try_report (run_adapter a w (OsPath.abspath (getcwd w) filepath) workdir))%st.

(** [matches[0]]. *)
Definition first_match (matches : list string) : res string :=
  match matches with
  | m :: _ => Ret m
  | [] => Raise IndexError
  end.

Definition record_pattern (filepath : string) : string :=
  let filename := fst (OsPath.splitext filepath) in
  let dirname := OsPath.dirname filepath in
  let basename := OsPath.basename filename in
  OsPath.join (OsPath.join (OsPath.join dirname "**") "*") (basename ++ ".json").

(** [tempfile.mkdtemp()]: a new directory, or [FileNotFoundError] /
    [FileExistsError] (both are [OSError]) when none can be made. *)
Definition make_workdir (w : World) : M State string :=
  fun s =>
    match mkdtemp w (temps s) with
    | Some d =>
        (Ret d, {| config := config s; trace := (trace s ++ [MkDTemp d])%list;
                   out := out s; temps := S (temps s) |})
    | None => (Raise OSError, s)
    end.

(** [shutil.copytree(src, dst, symlinks=True)]: the source is listed
    before anything is made, and [FileNotFoundError] (an [OSError]) is
    raised when it is not there. *)
Definition copytree (w : World) (src dst : string) : M State unit :=
  fun s =>
    if path_exists w src then (Ret tt, log (CopyTree src dst) s)
    else (Raise OSError, s).

(** [load_config(glob.glob(pattern, recursive=True)[0])]. *)
Definition resolve (w : World) (filepath : string) : res json :=
  m <- first_match (glob w (record_pattern filepath)) ;;
  load_config w m.

(** One turn of the outer loop. *)
Definition case (w : World) (filepath : string) : M State unit :=
  (c <-- St.lift (resolve w filepath) ;;
   St.modify (set_config c) >>
   workdir <-- make_workdir w ;;
   copytree w "fixtures" (OsPath.join workdir "fixtures") >>
   write "test " >> write filepath >> write " ... " >>
   write (Json.chr Json.LF) >>
   St.for_each tests (cell w filepath workdir))%st.

Definition inputs (w : World) : list string :=
  Str.sorted (glob w "target/wasm32-wasi/**/*.wasm").

Definition main (w : World) : M State unit :=
  St.for_each (inputs w) (case w).

Definition initial : State :=
  {| config := JNull; trace := []; out := EmptyString; temps := 0 |}.

End Compat.

(** ** The glue programs *)

Module Glue.

(** The options the glue program constructs the guest with. *)
Record WasiOptions : Type := {
  env : json;
  args : list json;
  preopens : json
}.

(** [...x] in an array literal: an array gives its elements, a string its
    characters; nothing else read from JSON can be spread. *)
Definition spread (v : json) : option (list json) :=
  match v with
  | JArr l => Some l
  | JStr s => Some (map (fun c => JStr (Json.chr c)) (list_ascii_of_string s))
  | _ => None
  end.

(** The body shared by the two programs, on the two arguments that follow
    the script on the command line ([Deno.args[0]] and [Deno.args[1]],
    [process.argv[2]] and [process.argv[3]]):

      const config = JSON.parse(a0);
      new WASI({ env: config.env, args: [a1, ...config.args],
                 preopens: config.preopens })

    [None] stands for a JavaScript error.  The text comes from
    [json.dumps], on which [JSON.parse] and [json.loads] agree; a property
    that is absent reads as [undefined], written [JNull] here. *)
Definition wasi_options (script_args : list string) : option WasiOptions :=
  match script_args with
  | a0 :: a1 :: _ =>
      match Json.loads a0 with
      | Ret (JObj config) =>
          match spread (Dict.get config "args") with
          | Some l => Some {| env := Dict.get config "env";
                              args := JStr a1 :: l;
                              preopens := Dict.get config "preopens" |}
          | None => None
          end
      | _ => None
      end
  | _ => None
  end.

End Glue.

(** ** Vocabulary of the statements *)

Module JsonSpec.

Import Json.

Fixpoint distinct (l : list string) : bool :=
  match l with
  | [] => true
  | x :: r => negb (existsb (String.eqb x) r) && distinct r
  end.

(** A value Python can hold: no dict has a key twice. *)
Fixpoint unique_keys (v : json) : bool :=
  match v with
  | JArr l => forallb unique_keys l
  | JObj d =>
      distinct (map fst d)
      && forallb (fun kv => match kv with (_, w) => unique_keys w end) d
  | _ => true
  end.

(** Recursion depth that decoding the encoding of [v] takes at most. *)
Fixpoint need (v : json) : nat :=
  match v with
  | JArr l => S (fold_right (fun x acc => S (need x + acc)) 0 l)
  | JObj d =>
      S (fold_right (fun kv acc => match kv with
                                   | (_, w) => S (need w + acc)
                                   end) 0 d)
  | _ => 1
  end.

(** A text at which a run of digits, and with it an integer literal,
    ends. *)
Definition number_end (s : string) : bool :=
  match s with
  | EmptyString => true
  | String c _ =>
      match digit_of c with
      | Some _ => false
      | None => negb (starts_fraction s)
      end
  end.

Definition head_nonzero (u : uint) : Prop :=
  match u with Nil | D0 _ => False | _ => True end.

(** A text that starts with a character which is neither white space nor
    a closing bracket. *)
Definition starts_value (s : string) : bool :=
  match s with
  | EmptyString => false
  | String c _ => negb (is_ws c) && negb (Ascii.eqb c "]")
  end.

(** Field for field the same: the same kind of value with the same
    content everywhere, the order of the items of a dict aside. *)
Fixpoint identical (a b : json) : bool :=
  match a, b with
  | JNull, JNull => true
  | JBool x, JBool y => Bool.eqb x y
  | JInt x, JInt y => Z.eqb x y
  | JStr x, JStr y => String.eqb x y
  | JArr l, JArr m =>
      (fix go (l : list json) (m : list json) : bool :=
         match l, m with
         | [], [] => true
         | x :: l', y :: m' => identical x y && go l' m'
         | _, _ => false
         end) l m
  | JObj d, JObj e =>
      Nat.eqb (List.length d) (List.length e)
      && forallb (fun kv => match kv with
                            | (k, w) =>
                                match Dict.lookup k e with
                                | Some w' => identical w w'
                                | None => false
                                end
                            end) d
  | _, _ => false
  end.

(** Decoding the encoding of [v], followed by any text a value may be
    followed by, gives [v] and that text. *)
Definition decodes (v : json) : Prop :=
  unique_keys v = true ->
  forall indent level rest fuel,
    number_end rest = true -> need v <= fuel ->
    scan_once fuel (encode indent level v ++ rest) = Some (v, rest).

Definition items_need (l : list json) : nat :=
  fold_right (fun x acc => S (need x + acc)) 0 l.

Definition pairs_need (d : dict) : nat :=
  fold_right (fun kv acc => match kv with
                            | (_, w) => S (need w + acc)
                            end) 0 d.

Definition encode_item (indent : option nat) (level : nat)
    (kv : string * json) : string :=
  match kv with
  | (k, w) => encode_string k ++ key_separator ++ encode indent level w
  end.

End JsonSpec.

Module Contract.

Import Compat.

(** The fields of the record, under the names the harness reads them
    by. *)
Definition expectedStdout (d : dict) : json :=
  Dict.get_default d "stdout" (JStr EmptyString).

Definition expectedStderr (d : dict) : json :=
  Dict.get_default d "stderr" (JStr EmptyString).

Definition expectedExitCode (d : dict) : json :=
  Dict.get_default d "exitCode" (JInt 0).

Definition timeoutSeconds (d : dict) : json :=
  Dict.get_default d "timeout" (JInt 5).

(** The standard input the guest is started with. *)
Definition stdin_of (d : dict) : option string :=
  match Dict.get d "stdin" with JStr x => Some x | _ => None end.

Definition append_out (s : State) (text : string) : State :=
  {| config := config s; trace := trace s; out := out s ++ text;
     temps := temps s |}.

(** The two lines a cell can end in. *)
Definition ok_line : string := OK ++ Json.chr Json.LF.
Definition failed_line : string := FAILED ++ Json.chr Json.LF.

(** Running [body] under the [try] of the inner loop returns and appends
    [line] to the report. *)
Definition reports (body : M State unit) (s : State) (line : string) : Prop :=
  exists s', try_report body s = (Ret tt, s') /\ out s' = out s ++ line.

(** The child runs for longer than [t] seconds. *)
Definition overruns (b : behaviour) (t : Z) : Prop :=
  match b with
  | Exits d _ _ _ => (inject_Z t < d)%Q
  | Runs_forever => True
  | Cannot_start => False
  end.

(** What the two glue adapters leave in [config]. *)
Definition defaulted (d : dict) (key : string) (v : json) : dict :=
  if is_None (Dict.get d key) then Dict.set d key v else d.

Definition normalized (d : dict) : dict :=
  defaulted (defaulted d "env" (JObj [])) "args" (JArr []).

Definition config_after (a : adapter) (d : dict) : dict :=
  match a with
  | Deno | Node => normalized d
  | _ => d
  end.

(** The files an adapter writes itself. *)
Definition written (a : adapter) (w : World) : list event :=
  match a with
  | Deno => [WriteFile (OsPath.join (getcwd w) ".deno.ts") DENO_GLUE]
  | Node => [WriteFile (OsPath.join (getcwd w) ".node.js") NODE_GLUE]
  | _ => []
  end.

(** The command an adapter hands to [test] when [config] is the dict [d],
    or how it fails before it gets there. *)
Definition guest_cmd (a : adapter) (w : World) (filepath : string) (d : dict)
  : res (list string) :=
  match a with
  | Deno =>
      Ret (deno_cmd (OsPath.abspath (getcwd w) ".deno.ts")
             (Json.dumps false None (JObj (normalized d))) filepath)
  | Node =>
      Ret (node_cmd (OsPath.abspath (getcwd w) ".node.js")
             (Json.dumps false None (JObj (normalized d))) filepath)
  | Wasmer => wasmer_cmd filepath d
  | Wasmtime => wasmtime_cmd filepath d
  | Wasmedge =>
      Subprocess.check_call w (wasmedgec_cmd filepath) ;;;
      wasmedge_cmd filepath d
  end.

(** The state an adapter is in when it calls [test]. *)
Definition before_test (a : adapter) (w : World) (d : dict) (s : State)
  : State :=
  {| config := JObj (config_after a d);
     trace := (trace s ++ written a w)%list;
     out := out s; temps := temps s |}.

(** The state of a cell when its adapter is called. *)
Definition cell_start (w : World) (a : adapter) (s : State) : State :=
  snd ((ensure_empty_dir w "scratch" >>
        write "  " >> write (adapter_name a) >> write " ... ")%st s).

(** [x] and [y] follow each other in [l]. *)
Definition adjacent (x y : string) (l : list string) : Prop :=
  exists l1 l2, l = (l1 ++ x :: y :: l2)%list.

(** [text] has no [//] in it. *)
Definition no_marker (text : string) : Prop :=
  forall a b, text <> a ++ "//" ++ b.

(** The extra arguments of a record: a list of [str], or none. *)
Definition record_args (d : dict) (extra : list string) : Prop :=
  (Dict.get d "args" = JNull /\ extra = [])
  \/ Dict.get d "args" = JArr (map JStr extra).

(** The program an adapter names to its runtime: the artifact, or for
    wasmedge the object compiled from it. *)
Definition named_program (a : adapter) (filepath : string) : string :=
  match a with
  | Wasmedge => wasmedge_so filepath
  | _ => filepath
  end.

(** The flag and the separator of a directory mapping. *)
Definition dir_flag (a : adapter) : string :=
  match a with Wasmedge => "--dir" | _ => "--mapdir" end.

Definition dir_sep (a : adapter) : string :=
  match a with Wasmtime => "::" | _ => ":" end.

(** A command of the three adapters that start their runtime directly, up
    to and including the program and whatever flags follow it. *)
Definition direct_prefix (a : adapter) (filepath : string)
    (envs dirs : list string) : list string :=
  match a with
  | Wasmer => ["wasmer"; "run"; named_program a filepath] ++ envs ++ dirs
  | Wasmtime => ["wasmtime"; "run"] ++ envs ++ dirs ++ [named_program a filepath]
  | Wasmedge => ["wasmedge"] ++ envs ++ dirs ++ [named_program a filepath]
  | _ => []
  end%list.

(** What stands between that and the extra arguments. *)
Definition args_separator (a : adapter) (d : dict) : list string :=
  match a with
  | Wasmedge => []
  | _ => if is_None (Dict.get d "args") then [] else ["--"]
  end.

(** The two adapters that run a glue program. *)
Definition glue (a : adapter) : bool :=
  match a with Deno | Node => true | _ => false end.

(** A field the glue adapters fill in: a value is put where there is
    none. *)
Definition filled (a : adapter) (d : dict) (key : string) (v : json) : json :=
  if glue a && is_None (Dict.get d key) then v else Dict.get d key.

(** [c] occurs in [s]. *)
Fixpoint mentions (c : ascii) (s : string) : bool :=
  match s with
  | EmptyString => false
  | String x r => Ascii.eqb x c || mentions c r
  end.

(** [path] lies under the directory [dir]. *)
Definition inside (dir path : string) : bool :=
  prefix (dir ++ "/") path.

(** Two file trees and sets of programs that an adapter cannot tell
    apart when its guest is started in [workdir]: they have the same
    script directory, the same children in [workdir], and the same
    compile step [compile] in the script directory.  What a child does
    when it is started anywhere else is left open. *)
Definition same_children (w w' : World) (workdir : string)
    (compile : list string) : Prop :=
  getcwd w' = getcwd w
  /\ (forall cmd input,
        behaviour_of w' cmd workdir input = behaviour_of w cmd workdir input)
  /\ behaviour_of w' compile (getcwd w) None
     = behaviour_of w compile (getcwd w) None.

(** Every file of [events] lies under [dir]. *)
Definition confined (dir : string) (events : list event) : bool :=
  forallb (fun e => match e with
                    | WriteFile p _ => inside dir p
                    | _ => true
                    end) events.

End Contract.

(** ** Sample runs *)

Module Sample.

Import Compat.

Definition ARTIFACT : string := "target/wasm32-wasi/debug/hello.wasm".
Definition RECORD : string := "target/wasm32-wasi/debug/build/hello.json".

(** A tree with one artifact, its record and the fixtures, in which
    every command behaves as [behave] says. *)
Definition world (record_text : string) (behave : list string -> behaviour)
  : World :=
  {| getcwd := "/repo";
     read_text := fun p => if String.eqb p RECORD then Some record_text
                           else None;
     glob := fun pattern =>
       if String.eqb pattern "target/wasm32-wasi/**/*.wasm" then [ARTIFACT]
       else if String.eqb pattern (record_pattern ARTIFACT) then [RECORD]
       else [];
     path_exists := fun p => String.eqb p "fixtures";
     mkdtemp := fun n =>
       Some ("/tmp/tmp" ++ NilZero.string_of_uint (Nat.to_uint n));
     behaviour_of := fun cmd _ _ => behave cmd |}.

(** The record of a program that prints [hi] and exits with 0. *)
Definition hi_record : dict := [("stdout", JStr "hi")].

Definition hi_text : string := Build.persist (JObj hi_record).

Definition prints (text : string) (_ : list string) : behaviour :=
  Exits 1 text EmptyString 0.

Definition missing (_ : list string) : behaviour := Cannot_start.

Definition with_config (d : dict) : State :=
  {| config := JObj d; trace := []; out := EmptyString; temps := 0 |}.

(** A record with an argument and nothing to map or to set. *)
Definition bare_record : dict :=
  [("args", JArr [JStr "a"]); ("env", JObj []); ("preopens", JObj []);
   ("exitCode", JInt 0)].

(** A record with a directory mapping. *)
Definition mapped_record : dict :=
  [("preopens", JObj [("/data", JStr "fixtures")]); ("args", JArr [JStr "a"])].

End Sample.

Module TwoArtifacts.

Import Compat.

Definition FIRST : string := "target/wasm32-wasi/debug/a.wasm".
Definition SECOND : string := "target/wasm32-wasi/debug/b.wasm".
Definition SECOND_RECORD : string := "target/wasm32-wasi/debug/build/b.json".
Definition SECOND_OTHER : string := "target/wasm32-wasi/debug/deps/old/b.json".

(** Two artifacts.  The first has the records [first_records]; the
    second has two, with different expectations. *)
Definition world (first_records : list string) : World :=
  {| getcwd := "/repo";
     read_text := fun p =>
       if String.eqb p SECOND_RECORD then Some Sample.hi_text
       else if String.eqb p SECOND_OTHER
       then Some (Build.persist (JObj [("stdout", JStr "old")]))
       else if existsb (String.eqb p) first_records then Some Sample.hi_text
       else None;
     glob := fun pattern =>
       if String.eqb pattern "target/wasm32-wasi/**/*.wasm" then [SECOND; FIRST]
       else if String.eqb pattern (record_pattern FIRST) then first_records
       else if String.eqb pattern (record_pattern SECOND)
       then [SECOND_RECORD; SECOND_OTHER]
       else [];
     path_exists := fun p => String.eqb p "fixtures";
     mkdtemp := fun n =>
       Some ("/tmp/tmp" ++ NilZero.string_of_uint (Nat.to_uint n));
     behaviour_of := fun cmd _ _ => Sample.prints "hi" cmd |}.

End TwoArtifacts.

Module SlowGuest.

(** A guest that needs 90 seconds, under every runtime. *)
Definition slow (_ : list string) : behaviour :=
  Exits 90 EmptyString EmptyString 0.

Definition world : World := Sample.world Sample.hi_text slow.

End SlowGuest.

Module Headers.

(** A source file whose header is not followed by an empty line. *)
Definition no_sentinel : string := "// {}" ++ Json.chr Json.LF.

(** A header line with the marker in its content. *)
Definition two_markers : string :=
  "// [1] // [2]" ++ Json.chr Json.LF ++ Json.chr Json.LF.

Definition world (text : string) : World :=
  {| getcwd := "/repo";
     read_text := fun p => if String.eqb p "integration/t.c" then Some text
                           else None;
     glob := fun _ => ["integration/t.c"];
     path_exists := fun _ => false;
     mkdtemp := fun _ => Some "/tmp/tmp0";
     behaviour_of := fun _ _ _ => Exits 1 EmptyString EmptyString 0 |}.

End Headers.

(** ** Vocabulary of the further statements *)

Module More.

Import Compat.

Definition is_write (e : event) : bool :=
  match e with WriteFile _ _ => true | _ => false end.

(** The files a script has written, in order. *)
Definition writes (tr : list event) : list event := filter is_write tr.

(** The command [build_test] compiles a source with, by its extension. *)
Definition compiler_cmd (filepath outdir : string) : option (list string) :=
  let (basename, ext) := OsPath.splitext filepath in
  if String.eqb ext ".c" then
    Some (Build.compile_cmd "clang" "-target"
            (OsPath.join outdir (basename ++ ".wasm")) filepath)
  else if String.eqb ext ".rs" then
    Some (Build.compile_cmd "rustc" "--target"
            (OsPath.join outdir (basename ++ ".wasm")) filepath)
  else None.

(** Where [build_test] puts the record of a source. *)
Definition record_path (filepath outdir : string) : string :=
  OsPath.join outdir (fst (OsPath.splitext filepath) ++ ".json").

(** The text that ends a cell: ok when the adapter returned, FAILED when
    it raised. *)
Definition verdict (r : res unit) : string :=
  match r with Ret _ => OK | _ => FAILED end.

(** The line of a cell in the report. *)
Definition row (a : adapter) (v : string) : string :=
  "  " ++ adapter_name a ++ " ... " ++ v ++ Json.chr Json.LF.

(** The line that opens the rows of an artifact. *)
Definition case_header (filepath : string) : string :=
  "test " ++ filepath ++ " ... " ++ Json.chr Json.LF.

(** What [ensure_empty_dir] does to a directory that exists. *)
Definition wipe (path : string) : list event := [RmTree path; MkDir path].

(** [path] was made by an earlier [os.mkdir]. *)
Definition made (path : string) (tr : list event) : bool :=
  existsb (fun e => match e with
                    | MkDir p => String.eqb p path
                    | _ => false
                    end) tr.

(** What the first reset of a case does: the directory is removed first
    when it is there. *)
Definition first_reset (w : World) (s : State) : list event :=
  ((if path_exists w "scratch" || made "scratch" (trace s)
    then [RmTree "scratch"] else []) ++ [MkDir "scratch"])%list.

(** The flags of a dict of strings: two items for each entry, in the
    order of the dict. *)
Fixpoint entry_flags (flag sep : string) (d : dict) : list string :=
  match d with
  | [] => []
  | (k, JStr v) :: r => flag :: (k ++ sep ++ v) :: entry_flags flag sep r
  | _ :: r => entry_flags flag sep r
  end.

(** Every value of the dict is a [str]. *)
Definition all_strings (d : dict) : bool :=
  forallb (fun kv => match kv with (_, JStr _) => true | _ => false end) d.

(** A field that maps names to strings: it is absent or null, or a dict
    [m] of strings. *)
Definition string_map (v : json) (m : dict) : Prop :=
  (v = JNull /\ m = [])
  \/ (v = JObj m /\ all_strings m = true
      /\ JsonSpec.distinct (map fst m) = true).

(** The command of a glue adapter, from the script, the text of the
    record and the artifact. *)
Definition glue_cmd (a : adapter) : string -> string -> string -> list string :=
  match a with Deno => deno_cmd | _ => node_cmd end.

(** Each item is at most the next, as [str] compares. *)
Fixpoint ascending (l : list string) : bool :=
  match l with
  | x :: r =>
      match r with
      | y :: _ => String.leb x y
      | [] => true
      end && ascending r
  | [] => true
  end.

(** The keys of the items ascend. *)
Definition ordered (d : dict) : bool := ascending (map fst d).

(** [text] has the marker in it. *)
Definition has_marker (text : string) : Prop :=
  exists a b, text = a ++ "//" ++ b.


(** The record after an adapter was handed it. *)
Definition record_after (a : adapter) (c : json) : json :=
  match c with
  | JObj d => JObj (Contract.config_after a d)
  | _ => c
  end.

(** The state an adapter call ends in, however it ends. *)
Definition after_adapter (a : adapter) (w : World) (s : State) : State :=
  {| config := record_after a (config s);
     trace := (trace s ++ Contract.written a w)%list;
     out := out s; temps := temps s |}.

(** What a reset of the scratch directory does in state [s]. *)
Definition reset_events (w : World) (s : State) : list event :=
  if path_exists w "scratch" || made "scratch" (trace s)
  then wipe "scratch" else [MkDir "scratch"].

(** The state a cell that returned ends in, when its verdict is [v]. *)
Definition cell_end (w : World) (a : adapter) (v : string) (s : State)
  : State :=
  {| config := record_after a (config s);
     trace := (trace s ++ reset_events w s ++ Contract.written a w)%list;
     out := out s ++ row a v; temps := temps s |}.

Fixpoint cells_end (w : World) (l : list adapter) (vs : list string)
    (s : State) : State :=
  match l, vs with
  | a :: l', v :: vs' => cells_end w l' vs' (cell_end w a v s)
  | _, _ => s
  end.

(** The state of a case when its first cell starts, with [workdir] the
    temporary directory it was given. *)
Definition case_start (filepath workdir : string) (c : json) (s : State)
  : State :=
  {| config := c;
     trace := (trace s
               ++ [MkDTemp workdir;
                   CopyTree "fixtures" (OsPath.join workdir "fixtures")])%list;
     out := out s ++ case_header filepath;
     temps := S (temps s) |}.

(** The state a case is left in when the fixtures cannot be copied: the
    record is loaded and the temporary directory is made. *)
Definition setup_stopped (workdir : string) (c : json) (s : State) : State :=
  {| config := c;
     trace := (trace s ++ [MkDTemp workdir])%list;
     out := out s;
     temps := S (temps s) |}.

Definition is_verdict (v : string) : Prop := v = OK \/ v = FAILED.

(** A header line cut at its markers: the text before the first marker,
    the text after it up to the second marker or the end of the line, and
    what is left. *)
Record marked_line : Type := {
  before_marker : string;
  kept : string;
  cut_off : string
}.

Definition line_of (p : marked_line) : string :=
  before_marker p ++ "//" ++ kept p ++ cut_off p.

(** The cut is at markers: no marker starts inside the first two parts,
    and the third is empty or starts with one. *)
Definition cut_at_markers (p : marked_line) : Prop :=
  Contract.no_marker (before_marker p ++ "/")
  /\ Contract.no_marker (kept p ++ "/")
  /\ (cut_off p = EmptyString \/ exists u, cut_off p = "//" ++ u).

End More.

Module Builds.

(** A tree with one source file, whose compiler behaves as [compiler]
    says. *)
Definition world (path text : string) (compiler : behaviour) : World :=
  {| getcwd := "/repo";
     read_text := fun p => if String.eqb p path then Some text else None;
     glob := fun _ => [path];
     path_exists := fun _ => false;
     mkdtemp := fun _ => Some "/tmp/tmp0";
     behaviour_of := fun _ _ _ => compiler |}.

Definition compiled : behaviour := Exits 2 EmptyString EmptyString 0.
Definition rejected : behaviour := Exits 2 EmptyString "error" 1.

(** A header giving an exit code, and the body after the empty line. *)
Definition source : string :=
  "// [7]" ++ Json.chr Json.LF ++ Json.chr Json.LF ++ "int main;".

End Builds.

Module Edges.

(** A record whose [env] holds a number. *)
Definition numeric_env : dict := [("env", JObj [("N", JInt 1)])].

(** A record with a null expectation and a null time limit. *)
Definition nulls : dict := [("stdout", JNull); ("timeout", JNull)].

(** A record that gives its guest one second. *)
Definition one_second : dict := [("timeout", JInt 1)].

(** A compiler that never exits. *)
Definition stuck_compiler (cmd : list string) : behaviour :=
  match cmd with
  | "wasmedgec" :: _ => Runs_forever
  | _ => Exits 1 "hi" EmptyString 0
  end.

(** A compiler that refuses the module. *)
Definition failing_compiler (cmd : list string) : behaviour :=
  match cmd with
  | "wasmedgec" :: _ => Exits 1 EmptyString "bad" 1
  | _ => Exits 1 "hi" EmptyString 0
  end.

(** A guest that never exits. *)
Definition endless (_ : list string) : behaviour := Runs_forever.

(** The sample tree without its fixtures. *)
Definition no_fixtures : World :=
  let w := Sample.world Sample.hi_text (Sample.prints "hi") in
  {| getcwd := getcwd w;
     read_text := read_text w;
     glob := glob w;
     path_exists := fun _ => false;
     mkdtemp := mkdtemp w;
     behaviour_of := behaviour_of w |}.

End Edges.

(** * Proofs *)

(** ** Decoding what the encoder wrote *)

Module JsonFacts.

Import Json JsonSpec.

Lemma append_assoc (a b c : string) : (a ++ b) ++ c = a ++ (b ++ c).
Proof. induction a as [|x a IH]; simpl; [reflexivity | now rewrite IH]. Qed.

Lemma append_nil_r (a : string) : a ++ EmptyString = a.
Proof. induction a as [|x a IH]; simpl; [reflexivity | now rewrite IH]. Qed.

Lemma length_app (a b : string) :
  String.length (a ++ b) = String.length a + String.length b.
Proof. induction a as [|x a IH]; simpl; [reflexivity | now rewrite IH]. Qed.

(** One escaped character is read back as the character. *)
Lemma scanstring_escape_char (c : ascii) (rest : string) :
  scanstring (escape_char c ++ rest) = cons_char c (scanstring rest).
Proof.
  destruct c as [[] [] [] [] [] [] [] []]; reflexivity.
Qed.

Lemma scanstring_escape_body (s rest : string) :
  scanstring (escape_body s ++ String DQUOTE rest) = Some (s, rest).
Proof.
  induction s as [|c s IH]; simpl.
  - reflexivity.
  - rewrite append_assoc, scanstring_escape_char, IH. reflexivity.
Qed.

(** The first character of an encoded string is the quote. *)
Lemma encode_string_eq (s rest : string) :
  encode_string s ++ rest = String DQUOTE (escape_body s ++ String DQUOTE rest).
Proof.
  unfold encode_string, chr. simpl. now rewrite append_assoc.
Qed.

(** *** Integers *)

Lemma scan_digits_uint (u : uint) (rest : string) :
  number_end rest = true ->
  scan_digits (NilEmpty.string_of_uint u ++ rest) = (u, rest).
Proof.
  intros Hend. induction u; simpl; try (rewrite IHu; reflexivity).
  destruct rest as [|c r]; [reflexivity|].
  simpl in Hend. simpl. destruct (digit_of c); [discriminate | reflexivity].
Qed.

Lemma unorm_shape (u : uint) : unorm u = zero \/ head_nonzero (unorm u).
Proof.
  induction u; simpl; auto.
Qed.

Lemma to_uint_head (p : positive) : head_nonzero (Pos.to_uint p).
Proof.
  assert (H : unorm (Pos.to_uint p) = Pos.to_uint p).
  { rewrite <- (DecimalPos.Unsigned.to_of (Pos.to_uint p)).
    rewrite DecimalPos.Unsigned.of_to. reflexivity. }
  destruct (unorm_shape (Pos.to_uint p)) as [Hz | Hn].
  - rewrite H in Hz. now apply DecimalPos.Unsigned.to_uint_nonzero in Hz.
  - now rewrite H in Hn.
Qed.

Lemma scan_integer_uint (neg : bool) (u : uint) (rest : string) :
  head_nonzero u -> number_end rest = true ->
  scan_integer ((if neg then "-" else EmptyString)
                  ++ NilEmpty.string_of_uint u ++ rest)
  = Some (Z.of_int (if neg then Neg u else Pos u), rest).
Proof.
  intros Hu Hend. unfold scan_integer.
  destruct neg, u; simpl in *; try contradiction;
    rewrite scan_digits_uint by assumption; reflexivity.
Qed.

Lemma scan_integer_encode (n : Z) (rest : string) :
  number_end rest = true ->
  scan_integer (encode_int n ++ rest) = Some (n, rest).
Proof.
  intros Hend. unfold encode_int.
  destruct n as [|p|p].
  - reflexivity.
  - rewrite <- (DecimalZ.of_to (Zpos p)) at 2.
    pose proof (scan_integer_uint false (Pos.to_uint p) rest
                  (to_uint_head p) Hend) as H.
    pose proof (to_uint_head p) as Hh. simpl Z.to_int.
    destruct (Pos.to_uint p); simpl in Hh; try contradiction; exact H.
  - rewrite <- (DecimalZ.of_to (Zneg p)) at 2.
    pose proof (scan_integer_uint true (Pos.to_uint p) rest
                  (to_uint_head p) Hend) as H.
    pose proof (to_uint_head p) as Hh. simpl Z.to_int.
    destruct (Pos.to_uint p); simpl in Hh; try contradiction; exact H.
Qed.

Lemma number_end_no_fraction (rest : string) :
  number_end rest = true -> starts_fraction rest = false.
Proof.
  destruct rest as [|c r]; simpl; [reflexivity|].
  destruct (digit_of c); [discriminate|].
  now destruct (Ascii.eqb c "." || Ascii.eqb c "e" || Ascii.eqb c "E").
Qed.

Lemma match_number_encode (n : Z) (rest : string) :
  number_end rest = true ->
  match_number (encode_int n ++ rest) = Some (JInt n, rest).
Proof.
  intros Hend. unfold match_number.
  rewrite scan_integer_encode by assumption.
  now rewrite number_end_no_fraction.
Qed.

(** *** Induction over nested values *)

Lemma json_nested_ind (P : json -> Prop) :
  P JNull -> (forall b, P (JBool b)) -> (forall n, P (JInt n)) ->
  (forall s, P (JStr s)) ->
  (forall l, Forall P l -> P (JArr l)) ->
  (forall d, Forall (fun kv => P (snd kv)) d -> P (JObj d)) ->
  forall v, P v.
Proof.
  intros Hnull Hbool Hint Hstr Harr Hobj.
  fix IH 1. intros [ | b | n | s | l | d ].
  - exact Hnull.
  - apply Hbool.
  - apply Hint.
  - apply Hstr.
  - apply Harr. induction l as [|x l IHl]; constructor; [apply IH | exact IHl].
  - apply Hobj. induction d as [|[k w] d IHd]; constructor;
      [apply IH | exact IHd].
Qed.

(** *** White space *)

Lemma skip_ws_spaces (n : nat) (s : string) :
  skip_ws (spaces n ++ s) = skip_ws s.
Proof. induction n as [|n IH]; simpl; [reflexivity | exact IH]. Qed.

Lemma skip_ws_newline_indent (indent : option nat) (level : nat) (s : string) :
  skip_ws (newline_indent indent level ++ s) = skip_ws s.
Proof.
  destruct indent as [w|]; simpl; [apply skip_ws_spaces | reflexivity].
Qed.

Lemma skip_ws_starts_value (s : string) :
  starts_value s = true -> skip_ws s = s.
Proof.
  destruct s as [|c r]; simpl; [discriminate|].
  destruct (is_ws c); simpl; [discriminate | reflexivity].
Qed.

Lemma starts_value_not_close (s : string) :
  starts_value s = true ->
  match s with String "]" _ => False | EmptyString => False | _ => True end.
Proof.
  destruct s as [|c r]; simpl; [discriminate|].
  destruct c as [[] [] [] [] [] [] [] []]; simpl; auto; discriminate.
Qed.

Lemma starts_value_uint (u : uint) (rest : string) :
  head_nonzero u -> starts_value (NilEmpty.string_of_uint u ++ rest) = true.
Proof. destruct u; simpl; intros H; try contradiction; reflexivity. Qed.

Lemma starts_value_encode_int (n : Z) (rest : string) :
  starts_value (encode_int n ++ rest) = true.
Proof.
  unfold encode_int. destruct n as [|p|p]; simpl; try reflexivity.
  - pose proof (to_uint_head p) as H.
    pose proof (starts_value_uint (Pos.to_uint p) rest H) as Hs.
    destruct (Pos.to_uint p); simpl in H; try contradiction; exact Hs.
Qed.

Lemma starts_value_encode indent level (v : json) (rest : string) :
  starts_value (encode indent level v ++ rest) = true.
Proof.
  destruct v as [ | [] | n | s | [|x l] | [|kv d] ]; try reflexivity.
  apply starts_value_encode_int.
Qed.

(** What comes between and after the items of an array or a dict ends a
    number. *)
Lemma number_end_separator indent level (s : string) :
  number_end ((item_separator indent ++ newline_indent indent level) ++ s)
  = true.
Proof. destruct indent; reflexivity. Qed.

Lemma number_end_close indent level (c : ascii) (s : string) :
  digit_of c = None -> starts_fraction (String c s) = false ->
  number_end (newline_indent indent level ++ String c s) = true.
Proof.
  intros Hd Hf. destruct indent; simpl; [reflexivity|].
  rewrite Hd. simpl in Hf. now rewrite Hf.
Qed.

(** *** Arrays and dicts *)

Lemma join_cons2 (sep a b : string) (r : list string) :
  join sep (a :: b :: r) = a ++ sep ++ join sep (b :: r).
Proof. reflexivity. Qed.

Lemma parse_array_S (f : nat) (s : string) :
  parse_array (S f) s =
  match scan_once f s with
  | Some (value, r) =>
      match skip_ws r with
      | String "]" rest => Some ([value], rest)
      | String "," r' =>
          match parse_array f (skip_ws r') with
          | Some (values, rest) => Some (value :: values, rest)
          | None => None
          end
      | _ => None
      end
  | None => None
  end.
Proof. reflexivity. Qed.

Lemma starts_value_join_encode indent level sep (x : json) (l : list json)
    (rest : string) :
  starts_value (join sep (map (encode indent level) (x :: l)) ++ rest) = true.
Proof.
  destruct l as [|y l]; simpl map.
  - apply starts_value_encode.
  - rewrite join_cons2, append_assoc. apply starts_value_encode.
Qed.

(** After a separator the decoder is at the next item. *)
Lemma skip_separator indent level (s : string) :
  starts_value s = true ->
  exists r', (item_separator indent ++ newline_indent indent level) ++ s
             = String "," r' /\ skip_ws r' = s.
Proof.
  intros Hs. destruct indent as [w|]; simpl.
  - eexists; split; [reflexivity|]. simpl.
    rewrite skip_ws_spaces. now apply skip_ws_starts_value.
  - eexists; split; [reflexivity|]. simpl. now apply skip_ws_starts_value.
Qed.

Lemma skip_ws_close indent level (c : ascii) (s : string) :
  is_ws c = false ->
  skip_ws (newline_indent indent level ++ String c s) = String c s.
Proof.
  intros Hc. rewrite skip_ws_newline_indent. simpl. now rewrite Hc.
Qed.

Lemma parse_array_encode indent level level0 (rest : string) (l : list json) :
  Forall decodes l -> forallb unique_keys l = true -> l <> [] ->
  forall fuel, items_need l <= fuel ->
  parse_array fuel
    (join (item_separator indent ++ newline_indent indent level)
       (map (encode indent level) l)
     ++ newline_indent indent level0 ++ String "]" rest)
  = Some (l, rest).
Proof.
  intros Hall. induction Hall as [|x l Hx Hl IH]; intros Hu Hne fuel Hfuel.
  - contradiction.
  - simpl in Hu. apply andb_prop in Hu as [Hux Hul].
    unfold items_need in Hfuel. simpl in Hfuel. fold (items_need l) in Hfuel.
    destruct fuel as [|f]; [lia|]. rewrite parse_array_S.
    destruct l as [|y l'].
    + simpl map. simpl join.
      rewrite (Hx Hux indent level _ f); [| now apply number_end_close | lia].
      rewrite skip_ws_close by reflexivity. reflexivity.
    + simpl map. rewrite join_cons2, !append_assoc.
      rewrite <- (append_assoc (item_separator indent)).
      rewrite (Hx Hux indent level _ f);
        [| apply number_end_separator | lia].
      destruct (skip_separator indent level
                  (join (item_separator indent ++ newline_indent indent level)
                     (map (encode indent level) (y :: l'))
                   ++ newline_indent indent level0 ++ String "]" rest))
        as [r' [Er Hr]].
      { apply starts_value_join_encode. }
      simpl map in Er, Hr. rewrite Er.
      change (skip_ws (String "," r')) with (String "," r'). cbv beta iota.
      rewrite Hr.
      rewrite (IH Hul); [reflexivity | discriminate | lia].
Qed.

Lemma parse_object_S (f : nat) (s : string) :
  parse_object (S f) s =
  match scanstring s with
  | Some (key, r) =>
      match skip_ws r with
      | String ":" r1 =>
          match scan_once f (skip_ws r1) with
          | Some (value, r2) =>
              match skip_ws r2 with
              | String "}" rest => Some ([(key, value)], rest)
              | String "," r3 =>
                  match skip_ws r3 with
                  | String "034"%char r4 =>
                      match parse_object f r4 with
                      | Some (pairs, rest) => Some ((key, value) :: pairs, rest)
                      | None => None
                      end
                  | _ => None
                  end
              | _ => None
              end
          | None => None
          end
      | _ => None
      end
  | None => None
  end.
Proof. reflexivity. Qed.

Lemma encode_item_eq indent level (k : string) (w : json) (R : string) :
  encode_item indent level (k, w) ++ R
  = String DQUOTE
      (escape_body k
       ++ String DQUOTE (String ":" (String " " (encode indent level w ++ R)))).
Proof.
  unfold encode_item, key_separator.
  rewrite append_assoc, encode_string_eq. reflexivity.
Qed.

Lemma join_single (sep a : string) : join sep [a] = a.
Proof. reflexivity. Qed.

Lemma map_cons_eq {A B : Type} (f : A -> B) (x : A) (l : list A) :
  map f (x :: l) = f x :: map f l.
Proof. reflexivity. Qed.

Lemma join_cons_map {A : Type} (sep a : string) (f : A -> string) (y : A)
    (l : list A) :
  join sep (a :: map f (y :: l)) = a ++ sep ++ join sep (map f (y :: l)).
Proof. reflexivity. Qed.

Lemma join_items_head indent level sep (kv : string * json) (d : dict)
    (rest : string) :
  exists r, join sep (map (encode_item indent level) (kv :: d)) ++ rest
            = String DQUOTE r.
Proof.
  destruct kv as [k w]. destruct d as [|kv' d]; rewrite !map_cons_eq.
  - rewrite join_single, encode_item_eq. eauto.
  - rewrite join_cons2, append_assoc, encode_item_eq. eauto.
Qed.

Lemma parse_object_encode indent level level0 (rest : string) (d : dict) :
  Forall (fun kv => decodes (snd kv)) d ->
  forallb (fun kv => match kv with (_, w) => unique_keys w end) d = true ->
  d <> [] ->
  forall fuel r, pairs_need d <= fuel ->
  String DQUOTE r
  = join (item_separator indent ++ newline_indent indent level)
      (map (encode_item indent level) d)
    ++ newline_indent indent level0 ++ String "}" rest ->
  parse_object fuel r = Some (d, rest).
Proof.
  intros Hall.
  induction Hall as [|[k w] d Hw Hd IH]; intros Hu Hne fuel r Hfuel Er.
  - contradiction.
  - simpl in Hu. apply andb_prop in Hu as [Huw Hud]. simpl in Hw.
    unfold pairs_need in Hfuel. simpl in Hfuel. fold (pairs_need d) in Hfuel.
    destruct fuel as [|f]; [lia|]. rewrite parse_object_S.
    destruct d as [|kv' d'].
    + rewrite map_cons_eq in Er. simpl map in Er.
      rewrite join_single, encode_item_eq in Er.
      injection Er as ->. rewrite scanstring_escape_body.
      change (skip_ws (String ":" ?x)) with (String ":" x). cbv beta iota.
      change (skip_ws (String " " ?x)) with (skip_ws x).
      rewrite skip_ws_starts_value by apply starts_value_encode.
      rewrite (Hw Huw indent level _ f); [| now apply number_end_close | lia].
      rewrite skip_ws_close by reflexivity. reflexivity.
    + destruct (join_items_head indent level
                  (item_separator indent ++ newline_indent indent level)
                  kv' d' (newline_indent indent level0 ++ String "}" rest))
        as [r4 E4].
      rewrite map_cons_eq, (join_cons_map _ _ _ kv' d'), !append_assoc in Er.
      rewrite E4 in Er. rewrite encode_item_eq in Er. injection Er as ->.
      rewrite scanstring_escape_body.
      change (skip_ws (String ":" ?x)) with (String ":" x). cbv beta iota.
      change (skip_ws (String " " ?x)) with (skip_ws x).
      rewrite skip_ws_starts_value by apply starts_value_encode.
      rewrite <- (append_assoc (item_separator indent)).
      rewrite (Hw Huw indent level _ f);
        [| apply number_end_separator | lia].
      destruct (skip_separator indent level (String DQUOTE r4))
        as [r3 [E3 H3]]; [reflexivity|].
      rewrite E3.
      change (skip_ws (String "," r3)) with (String "," r3). cbv beta iota.
      rewrite H3. change DQUOTE with "034"%char. cbv beta iota.
      rewrite (IH Hud); [reflexivity | discriminate | lia |].
      rewrite <- E4. reflexivity.
Qed.

(** *** [dict(pairs)] on pairs with distinct keys *)

Lemma lookup_none_set (d : dict) (k : string) (v : json) :
  existsb (String.eqb k) (map fst d) = false ->
  Dict.set d k v = (d ++ [(k, v)])%list.
Proof.
  induction d as [|[k' w] d IH]; simpl; intros H; [reflexivity|].
  apply orb_false_elim in H as [Hk Hd].
  rewrite String.eqb_sym, Hk. now rewrite IH.
Qed.

Lemma distinct_app_single (keys : list string) (k : string) :
  distinct (keys ++ [k]) = distinct keys && negb (existsb (String.eqb k) keys).
Proof.
  induction keys as [|x keys IH]; simpl.
  - reflexivity.
  - rewrite IH, existsb_app. simpl. rewrite (String.eqb_sym k x).
    destruct (String.eqb x k), (existsb (String.eqb x) keys),
      (distinct keys), (existsb (String.eqb k) keys); reflexivity.
Qed.

Lemma dict_of_pairs_from (pairs acc : dict) :
  distinct (map fst (acc ++ pairs)) = true ->
  fold_left (fun d kv => Dict.set d (fst kv) (snd kv)) pairs acc
  = (acc ++ pairs)%list.
Proof.
  revert acc. induction pairs as [|[k v] pairs IH]; intros acc H; simpl.
  - now rewrite app_nil_r.
  - assert (E : (acc ++ (k, v) :: pairs = (acc ++ [(k, v)]) ++ pairs)%list)
      by now rewrite <- app_assoc.
    rewrite E in H |- *.
    assert (Hacc : existsb (String.eqb k) (map fst acc) = false).
    { rewrite map_app in H.
      assert (Hd : distinct (map fst (acc ++ [(k, v)])) = true).
      { clear - H. induction (map fst (acc ++ [(k, v)])) as [|x l IHl];
          simpl in *; [reflexivity|].
        apply andb_prop in H as [H1 H2]. rewrite existsb_app in H1.
        apply negb_true_iff, orb_false_elim in H1 as [H1 _].
        rewrite H1. simpl. now apply IHl. }
      rewrite map_app in Hd. simpl in Hd. rewrite distinct_app_single in Hd.
      apply andb_prop in Hd as [_ Hd]. now apply negb_true_iff in Hd. }
    rewrite lookup_none_set by assumption. now apply IH.
Qed.

Lemma dict_of_pairs_distinct (d : dict) :
  distinct (map fst d) = true -> dict_of_pairs d = d.
Proof. intros H. unfold dict_of_pairs. now rewrite dict_of_pairs_from. Qed.

(** *** Every value *)

Lemma encode_array_eq indent level (x : json) (l : list json) (rest : string) :
  encode indent level (JArr (x :: l)) ++ rest
  = String "["
      (newline_indent indent (S level)
       ++ join (item_separator indent ++ newline_indent indent (S level))
            (map (encode indent (S level)) (x :: l))
       ++ newline_indent indent level ++ String "]" rest).
Proof.
  change (encode indent level (JArr (x :: l)))
    with ("[" ++ newline_indent indent (S level)
          ++ join (item_separator indent ++ newline_indent indent (S level))
               (map (encode indent (S level)) (x :: l))
          ++ newline_indent indent level ++ "]").
  rewrite !append_assoc. reflexivity.
Qed.

Lemma encode_dict_eq indent level (kv : string * json) (d : dict)
    (rest : string) :
  encode indent level (JObj (kv :: d)) ++ rest
  = String "{"
      (newline_indent indent (S level)
       ++ join (item_separator indent ++ newline_indent indent (S level))
            (map (encode_item indent (S level)) (kv :: d))
       ++ newline_indent indent level ++ String "}" rest).
Proof.
  change (encode indent level (JObj (kv :: d)))
    with ("{" ++ newline_indent indent (S level)
          ++ join (item_separator indent ++ newline_indent indent (S level))
               (map (encode_item indent (S level)) (kv :: d))
          ++ newline_indent indent level ++ "}").
  rewrite !append_assoc. reflexivity.
Qed.

Lemma scan_once_S_open (f : nat) (c : ascii) (r : string) :
  Ascii.eqb c DQUOTE = false ->
  scan_once (S f) (String c r) =
  if Ascii.eqb c "{" then
    match skip_ws r with
    | String "}" rest => Some (JObj [], rest)
    | String "034"%char r' =>
        match parse_object f r' with
        | Some (pairs, rest) => Some (JObj (dict_of_pairs pairs), rest)
        | None => None
        end
    | _ => None
    end
  else if Ascii.eqb c "[" then
    match skip_ws r with
    | String "]" rest => Some (JArr [], rest)
    | r' =>
        match parse_array f r' with
        | Some (values, rest) => Some (JArr values, rest)
        | None => None
        end
    end
  else if Ascii.eqb c "n" then
    match expect "null" (String c r) with
    | Some rest => Some (JNull, rest) | None => None end
  else if Ascii.eqb c "t" then
    match expect "true" (String c r) with
    | Some rest => Some (JBool true, rest) | None => None end
  else if Ascii.eqb c "f" then
    match expect "false" (String c r) with
    | Some rest => Some (JBool false, rest) | None => None end
  else match_number (String c r).
Proof. intros H. simpl. rewrite H. reflexivity. Qed.

Lemma scan_once_number (f : nat) (s : string) :
  starts_value s = true ->
  match s with
  | String c _ => digit_of c <> None \/ c = "-"%char
  | EmptyString => False
  end ->
  scan_once (S f) s = match_number s.
Proof.
  destruct s as [|c r]; [discriminate|]. intros _ H.
  destruct c as [[] [] [] [] [] [] [] []]; try reflexivity;
    exfalso; destruct H as [H | H]; try discriminate; now apply H.
Qed.

Lemma encode_int_head (n : Z) (rest : string) :
  match encode_int n ++ rest with
  | String c _ => digit_of c <> None \/ c = "-"%char
  | EmptyString => False
  end.
Proof.
  unfold encode_int. destruct n as [|p|p]; simpl.
  - left; discriminate.
  - pose proof (to_uint_head p) as H.
    destruct (Pos.to_uint p); simpl in *; try contradiction; left; discriminate.
  - now right.
Qed.

Theorem scan_once_encode (v : json) : decodes v.
Proof.
  induction v as [ | b | n | s | l IH | d IH ] using json_nested_ind;
    intros Hu indent level rest fuel Hend Hfuel;
    (destruct fuel as [|f]; [simpl in Hfuel; lia|]).
  - reflexivity.
  - destruct b; reflexivity.
  - simpl encode. rewrite scan_once_number.
    + now apply match_number_encode.
    + apply starts_value_encode_int.
    + apply encode_int_head.
  - simpl encode. rewrite encode_string_eq. simpl.
    now rewrite scanstring_escape_body.
  - destruct l as [|x l]; [reflexivity|].
    rewrite encode_array_eq, scan_once_S_open by reflexivity.
    cbv beta iota. change (Ascii.eqb "[" "{") with false.
    change (Ascii.eqb "[" "[") with true. cbv beta iota.
    rewrite skip_ws_newline_indent.
    rewrite skip_ws_starts_value by apply starts_value_join_encode.
    pose proof (starts_value_not_close _
                  (starts_value_join_encode indent (S level)
                     (item_separator indent ++ newline_indent indent (S level))
                     x l (newline_indent indent level ++ String "]" rest)))
      as Hhead.
    simpl in Hu. simpl in Hfuel.
    set (T := join _ _ ++ _) in *.
    assert (HP : parse_array f T = Some (x :: l, rest)).
    { apply parse_array_encode; try assumption; try discriminate.
      unfold items_need. simpl. lia. }
    clearbody T. destruct T as [|c r]; [contradiction|].
    destruct c as [[] [] [] [] [] [] [] []]; try contradiction;
      cbv beta iota; rewrite HP; reflexivity.
  - destruct d as [|kv d]; [reflexivity|].
    rewrite encode_dict_eq, scan_once_S_open by reflexivity.
    cbv beta iota. change (Ascii.eqb "{" "{") with true. cbv beta iota.
    rewrite skip_ws_newline_indent.
    destruct (join_items_head indent (S level)
                (item_separator indent ++ newline_indent indent (S level))
                kv d (newline_indent indent level ++ String "}" rest))
      as [r Er].
    rewrite Er. change (skip_ws (String DQUOTE r)) with (String DQUOTE r).
    change DQUOTE with "034"%char. cbv beta iota.
    simpl in Hu. apply andb_prop in Hu as [Hkeys Hvals]. simpl in Hfuel.
    rewrite (parse_object_encode indent (S level) level rest (kv :: d));
      try assumption; try discriminate.
    + now rewrite dict_of_pairs_distinct.
    + unfold pairs_need. simpl. destruct kv. lia.
    + rewrite <- Er. reflexivity.
Qed.

(** *** The text is long enough to bound the recursion *)

Lemma join_length_items indent level (sep : string) (l : list json) :
  1 <= String.length sep ->
  Forall (fun x => need x <= String.length (encode indent level x)) l ->
  items_need l <= S (String.length (join sep (map (encode indent level) l))).
Proof.
  intros Hsep Hall. induction Hall as [|x l Hx Hl IH].
  - simpl. lia.
  - destruct l as [|y l'].
    + unfold items_need. simpl. lia.
    + rewrite map_cons_eq, (join_cons_map _ _ _ y l'), !length_app.
      unfold items_need in *. simpl fold_right in *. lia.
Qed.

Lemma encode_item_length indent level (k : string) (w : json) :
  String.length (encode indent level w)
  < String.length (encode_item indent level (k, w)).
Proof.
  unfold encode_item, encode_string, key_separator.
  simpl. rewrite !length_app. simpl. lia.
Qed.

Lemma join_length_pairs indent level (sep : string) (d : dict) :
  1 <= String.length sep ->
  Forall (fun kv => need (snd kv)
                    <= String.length (encode indent level (snd kv))) d ->
  pairs_need d <= S (String.length (join sep (map (encode_item indent level) d))).
Proof.
  intros Hsep Hall. induction Hall as [|[k w] d Hx Hl IH].
  - simpl. lia.
  - pose proof (encode_item_length indent level k w) as Hk. simpl in Hx.
    destruct d as [|y d'].
    + unfold pairs_need. simpl fold_right. rewrite map_cons_eq, join_single. lia.
    + rewrite map_cons_eq, (join_cons_map _ _ _ y d'), !length_app.
      unfold pairs_need in *. simpl fold_right in *. lia.
Qed.

Lemma separator_length indent level :
  1 <= String.length (item_separator indent ++ newline_indent indent level).
Proof. rewrite length_app. destruct indent; simpl; lia. Qed.

Lemma need_le_length (v : json) :
  forall indent level, need v <= String.length (encode indent level v).
Proof.
  induction v as [ | b | n | s | l IH | d IH ] using json_nested_ind;
    intros indent level.
  - simpl. lia.
  - destruct b; simpl; lia.
  - pose proof (encode_int_head n EmptyString) as H.
    simpl encode. rewrite append_nil_r in H.
    destruct (encode_int n); [contradiction | simpl; lia].
  - simpl. lia.
  - destruct l as [|x l]; [simpl; lia|].
    pose proof (encode_array_eq indent level x l EmptyString) as E.
    rewrite append_nil_r in E. rewrite E. clear E.
    assert (Hj := join_length_items indent (S level)
                    (item_separator indent ++ newline_indent indent (S level))
                    (x :: l) (separator_length indent (S level))).
    change (need (JArr (x :: l))) with (S (items_need (x :: l))).
    assert (Hall : Forall (fun x => need x
                      <= String.length (encode indent (S level) x)) (x :: l)).
    { eapply Forall_impl; [|exact IH]. intros a Ha. apply Ha. }
    specialize (Hj Hall).
    set (J := join _ _) in *. clearbody J.
    change (String.length (String ?c ?t)) with (S (String.length t)).
    rewrite !length_app.
    change (String.length (String ?c EmptyString)) with 1. lia.
  - destruct d as [|kv d]; [simpl; lia|].
    pose proof (encode_dict_eq indent level kv d EmptyString) as E.
    rewrite append_nil_r in E. rewrite E. clear E.
    assert (Hj := join_length_pairs indent (S level)
                    (item_separator indent ++ newline_indent indent (S level))
                    (kv :: d) (separator_length indent (S level))).
    change (need (JObj (kv :: d))) with (S (pairs_need (kv :: d))).
    assert (Hall : Forall (fun kv => need (snd kv)
                      <= String.length (encode indent (S level) (snd kv)))
                     (kv :: d)).
    { eapply Forall_impl; [|exact IH]. intros a Ha. apply Ha. }
    specialize (Hj Hall).
    set (J := join _ _) in *. clearbody J.
    change (String.length (String ?c ?t)) with (S (String.length t)).
    rewrite !length_app.
    change (String.length (String ?c EmptyString)) with 1. lia.
Qed.

(** [loads] gives back what [encode] wrote, with or without white space
    after it. *)
Lemma loads_encode indent (v : json) (trail : string) :
  unique_keys v = true -> skip_ws trail = EmptyString ->
  loads (encode indent 0 v ++ trail) = Ret v.
Proof.
  intros Hu Htrail. unfold loads.
  rewrite skip_ws_starts_value by apply starts_value_encode.
  rewrite (scan_once_encode v Hu).
  - now rewrite Htrail.
  - destruct trail as [|c r]; [reflexivity|].
    simpl in Htrail. destruct (is_ws c) eqn:Ec; [|discriminate].
    destruct c as [[] [] [] [] [] [] [] []]; try discriminate; reflexivity.
  - rewrite length_app. pose proof (need_le_length v indent 0). lia.
Qed.

(** *** Sorting the keys *)

Lemma distinct_NoDup (l : list string) : distinct l = true <-> NoDup l.
Proof.
  induction l as [|x l IH]; simpl.
  - split; [constructor | reflexivity].
  - rewrite andb_true_iff, negb_true_iff, IH. split.
    + intros [Hx Hl]. constructor; [|exact Hl].
      intros Hin. assert (existsb (String.eqb x) l = true).
      { apply existsb_exists. exists x. split; [exact Hin|].
        apply String.eqb_refl. }
      congruence.
    + intros H. inversion H as [|? ? Hx Hl]; subst. split; [|exact Hl].
      destruct (existsb (String.eqb x) l) eqn:E; [|reflexivity].
      apply existsb_exists in E as [y [Hy Exy]].
      apply String.eqb_eq in Exy. subst y. contradiction.
Qed.

Lemma insert_item_perm (kv : string * json) (d : dict) :
  Permutation (insert_item kv d) (kv :: d).
Proof.
  induction d as [|kw d IH]; simpl; [reflexivity|].
  destruct (String.leb (fst kv) (fst kw)); [reflexivity|].
  rewrite IH. apply perm_swap.
Qed.

Lemma sort_items_perm (d : dict) : Permutation (sort_items d) d.
Proof.
  induction d as [|kv d IH]; simpl; [reflexivity|].
  rewrite insert_item_perm. now constructor.
Qed.

Lemma map_fst_sorted (d : dict) :
  map fst (map (fun kv => match kv with (k, w) => (k, sort_keys w) end) d)
  = map fst d.
Proof.
  induction d as [|[k w] d IH]; simpl; [reflexivity | now rewrite IH].
Qed.

Lemma unique_keys_sort_keys (v : json) :
  unique_keys v = true -> unique_keys (sort_keys v) = true.
Proof.
  induction v as [ | b | n | s | l IH | d IH ] using json_nested_ind;
    simpl; auto.
  - rewrite !forallb_forall. intros H y Hy.
    apply in_map_iff in Hy as [x [<- Hx]].
    rewrite Forall_forall in IH. auto.
  - rewrite !andb_true_iff. intros [Hk Hv]. split.
    + apply distinct_NoDup.
      eapply Permutation_NoDup.
      * apply Permutation_map. symmetry. apply sort_items_perm.
      * rewrite map_fst_sorted. now apply distinct_NoDup.
    + rewrite forallb_forall in *. intros [k w] Hin.
      eapply Permutation_in in Hin; [|apply sort_items_perm].
      apply in_map_iff in Hin as [[k' w'] [E Hin]]. injection E as <- <-.
      rewrite Forall_forall in IH. apply (IH _ Hin). apply (Hv _ Hin).
Qed.

Lemma lookup_In_NoDup (d : dict) (k : string) (v : json) :
  NoDup (map fst d) -> In (k, v) d -> Dict.lookup k d = Some v.
Proof.
  induction d as [|[k' w] d IH]; simpl; intros Hnd Hin; [contradiction|].
  inversion Hnd as [|? ? Hk Hd]; subst.
  destruct Hin as [E | Hin].
  - injection E as -> ->. now rewrite String.eqb_refl.
  - destruct (String.eqb k' k) eqn:Ek.
    + apply String.eqb_eq in Ek. subst k'. exfalso. apply Hk.
      apply in_map_iff. now exists (k, v).
    + now apply IH.
Qed.

Lemma identical_sort_keys (v : json) :
  unique_keys v = true -> identical v (sort_keys v) = true.
Proof.
  induction v as [ | b | n | s | l IH | d IH ] using json_nested_ind;
    simpl; intros Hu.
  - reflexivity.
  - now destruct b.
  - apply Z.eqb_refl.
  - apply String.eqb_refl.
  - induction IH as [|x l Hx Hl IHl]; simpl in *; [reflexivity|].
    apply andb_prop in Hu as [Hux Hul]. now rewrite Hx, IHl.
  - apply andb_prop in Hu as [Hk Hv]. apply andb_true_intro. split.
    + apply Nat.eqb_eq. rewrite (Permutation_length (sort_items_perm _)).
      now rewrite length_map.
    + rewrite forallb_forall in *. intros [k w] Hin.
      rewrite (lookup_In_NoDup _ k (sort_keys w)).
      * rewrite Forall_forall in IH. apply (IH _ Hin). apply (Hv _ Hin).
      * eapply Permutation_NoDup.
        -- apply Permutation_map. symmetry. apply sort_items_perm.
        -- rewrite map_fst_sorted. now apply distinct_NoDup.
      * eapply Permutation_in; [symmetry; apply sort_items_perm|].
        apply in_map_iff. now exists (k, w).
Qed.

(** What the build step writes is read back as the value with its keys
    sorted. *)
Lemma loads_dumps (sorted : bool) indent (v : json) (trail : string) :
  unique_keys v = true -> skip_ws trail = EmptyString ->
  loads (dumps sorted indent v ++ trail)
  = Ret (if sorted then sort_keys v else v).
Proof.
  intros Hu Ht. unfold dumps. apply loads_encode; [|exact Ht].
  destruct sorted; [now apply unique_keys_sort_keys | exact Hu].
Qed.


(** *** What [loads] returns is a value Python can hold *)

Lemma distinct_fold_set (pairs acc : dict) :
  distinct (map fst acc) = true ->
  distinct (map fst (fold_left (fun d kv => Dict.set d (fst kv) (snd kv))
                       pairs acc)) = true.
Proof.
  revert acc. induction pairs as [|[k v] pairs IH]; intros acc H; simpl.
  - exact H.
  - apply IH. destruct (existsb (String.eqb k) (map fst acc)) eqn:E.
    + assert (Hk : map fst (Dict.set acc k v) = map fst acc).
      { clear H. induction acc as [|[k' w] acc IHa]; simpl in *;
          [discriminate|].
        destruct (String.eqb k' k) eqn:Ek; simpl; [reflexivity|].
        rewrite String.eqb_sym, Ek in E. simpl in E. now rewrite IHa. }
      now rewrite Hk.
    + rewrite lookup_none_set by exact E. rewrite map_app. simpl.
      now rewrite distinct_app_single, H, E.
Qed.

Lemma values_fold_set (pairs acc : dict) :
  forallb (fun kv => match kv with (_, w) => unique_keys w end) acc = true ->
  forallb (fun kv => match kv with (_, w) => unique_keys w end) pairs = true ->
  forallb (fun kv => match kv with (_, w) => unique_keys w end)
    (fold_left (fun d kv => Dict.set d (fst kv) (snd kv)) pairs acc) = true.
Proof.
  revert acc. induction pairs as [|[k v] pairs IH]; intros acc Ha Hp; simpl.
  - exact Ha.
  - simpl in Hp. apply andb_prop in Hp as [Hv Hp]. apply IH; [|exact Hp].
    clear IH Hp. induction acc as [|[k' w] acc IHa]; simpl in *.
    + now rewrite Hv.
    + apply andb_prop in Ha as [Hw Ha].
      destruct (String.eqb k' k); simpl.
      * now rewrite Hv, Ha.
      * now rewrite Hw, IHa.
Qed.

Lemma unique_keys_dict_of_pairs (pairs : dict) :
  forallb (fun kv => match kv with (_, w) => unique_keys w end) pairs = true ->
  unique_keys (JObj (dict_of_pairs pairs)) = true.
Proof.
  intros H. simpl. unfold dict_of_pairs.
  rewrite distinct_fold_set by reflexivity.
  now rewrite values_fold_set.
Qed.

Lemma scan_once_unique_keys (fuel : nat) :
  (forall s v r, scan_once fuel s = Some (v, r) -> unique_keys v = true)
  /\ (forall s l r, parse_array fuel s = Some (l, r) ->
                    forallb unique_keys l = true)
  /\ (forall s ps r, parse_object fuel s = Some (ps, r) ->
        forallb (fun kv => match kv with (_, w) => unique_keys w end) ps
        = true).
Proof.
  induction fuel as [|f [IHv [IHa IHo]]].
  - repeat split; intros; discriminate.
  - split; [|split].
    + intros s v r H. destruct s as [|c s]; [discriminate|].
      destruct (Ascii.eqb c DQUOTE) eqn:Eq.
      { simpl in H. rewrite Eq in H.
        destruct (scanstring s) as [[body rest]|]; [|discriminate].
        now injection H as <- _. }
      rewrite scan_once_S_open in H by exact Eq.
      destruct (Ascii.eqb c "{").
      { destruct (skip_ws s) as [|c' s']; [discriminate|].
        destruct c' as [[] [] [] [] [] [] [] []]; try discriminate.
        - now injection H as <- _.
        - destruct (parse_object f s') as [[pairs rest]|] eqn:Ep;
            [|discriminate].
          injection H as <- _. apply unique_keys_dict_of_pairs.
          now apply (IHo s' pairs rest). }
      destruct (Ascii.eqb c "[").
      { assert (Harr : forall t, match parse_array f t with
                                 | Some (values, rest) => Some (JArr values, rest)
                                 | None => None
                                 end = Some (v, r) -> unique_keys v = true).
        { intros t Ht.
          destruct (parse_array f t) as [[values rest]|] eqn:Ep;
            [|discriminate].
          injection Ht as <- _. simpl. now apply (IHa t values rest). }
        destruct (skip_ws s) as [|c' s']; [now apply (Harr EmptyString)|].
        destruct c' as [[] [] [] [] [] [] [] []];
          try (eapply Harr; exact H).
        now injection H as <- _. }
      destruct (Ascii.eqb c "n").
      { destruct (expect "null" (String c s)); [|discriminate].
        now injection H as <- _. }
      destruct (Ascii.eqb c "t").
      { destruct (expect "true" (String c s)); [|discriminate].
        now injection H as <- _. }
      destruct (Ascii.eqb c "f").
      { destruct (expect "false" (String c s)); [|discriminate].
        now injection H as <- _. }
      unfold match_number in H.
      destruct (scan_integer (String c s)) as [[n rest]|]; [|discriminate].
      destruct (starts_fraction rest); [discriminate|].
      now injection H as <- _.
    + intros s l r H. rewrite parse_array_S in H.
      destruct (scan_once f s) as [[value r1]|] eqn:Ev; [|discriminate].
      apply IHv in Ev.
      destruct (skip_ws r1) as [|c' s']; [discriminate|].
      destruct c' as [[] [] [] [] [] [] [] []]; try discriminate.
      * injection H as <- _. simpl. now rewrite Ev.
      * destruct (parse_array f (skip_ws s')) as [[values rest]|] eqn:Ea;
          [|discriminate].
        injection H as <- _. simpl. rewrite Ev. now apply IHa in Ea.
    + intros s ps r H. rewrite parse_object_S in H.
      destruct (scanstring s) as [[key r0]|]; [|discriminate].
      destruct (skip_ws r0) as [|c0 r1]; [discriminate|].
      destruct c0 as [[] [] [] [] [] [] [] []]; try discriminate.
      destruct (scan_once f (skip_ws r1)) as [[value r2]|] eqn:Ev;
        [|discriminate].
      apply IHv in Ev.
      destruct (skip_ws r2) as [|c' s']; [discriminate|].
      destruct c' as [[] [] [] [] [] [] [] []]; try discriminate.
      * injection H as <- _. simpl. now rewrite Ev.
      * destruct (skip_ws s') as [|c4 r4]; [discriminate|].
        destruct c4 as [[] [] [] [] [] [] [] []]; try discriminate.
        destruct (parse_object f r4) as [[pairs rest]|] eqn:Eo;
          [|discriminate].
        injection H as <- _. simpl. rewrite Ev. now apply IHo in Eo.
Qed.

Lemma loads_unique_keys (s : string) (v : json) :
  loads s = Ret v -> unique_keys v = true.
Proof.
  unfold loads. intros H.
  destruct (scan_once _ (skip_ws s)) as [[v' rest]|] eqn:E; [|discriminate].
  destruct (skip_ws rest); [|discriminate].
  injection H as <-.
  now apply (proj1 (scan_once_unique_keys _) _ _ _ E).
Qed.

End JsonFacts.

(** ** The harness *)

Module HarnessFacts.

Import Compat Contract Subprocess JsonSpec JsonFacts.

Lemma append_inv_head (a b c : string) : a ++ b = a ++ c -> b = c.
Proof.
  induction a as [|x a IH]; simpl; intros H; [exact H|].
  injection H as H. now apply IH.
Qed.

Lemma try_report_ret (body : M State unit) (s s' : State) (u : unit) :
  body s = (Ret u, s') ->
  try_report body s = (Ret tt, append_out (append_out s' OK) (Json.chr Json.LF)).
Proof. intros H. unfold try_report. rewrite H. reflexivity. Qed.

Lemma try_report_raise (body : M State unit) (s s' : State) (e : exn) :
  body s = (Raise e, s') ->
  try_report body s
  = (Ret tt, append_out (append_out s' FAILED) (Json.chr Json.LF)).
Proof. intros H. unfold try_report. rewrite H. reflexivity. Qed.

Lemma try_report_hang (body : M State unit) (s s' : State) :
  body s = (Hang, s') -> try_report body s = (Hang, s').
Proof. intros H. unfold try_report. rewrite H. reflexivity. Qed.

(** [test] leaves the state alone: it runs the child and compares. *)
Lemma test_dict (w : World) (cmd : list string) (cwd : string) (s : State)
    (d : dict) :
  config s = JObj d ->
  test w cmd cwd s
  = (r <- run w cmd cwd (Dict.get d "stdin") (timeoutSeconds d) ;;
     assert_result r (JObj d), s).
Proof.
  intros Hd. unfold test, St.bind, config_get, config_get_default, St.lift,
    St.gets, timeoutSeconds, expected_get.
  rewrite Hd. simpl. rewrite !Hd.
  destruct (run w cmd cwd _ _) as [p|e|]; reflexivity.
Qed.

Lemma ok_line_not_failed_line : ok_line <> failed_line.
Proof. discriminate. Qed.

Lemma assert_result_typed (p : CompletedProcess) (d : dict)
    (so se : string) (ec : Z) :
  expectedStdout d = JStr so -> expectedStderr d = JStr se ->
  expectedExitCode d = JInt ec ->
  assert_result p (JObj d)
  = if String.eqb (stdout p) so && String.eqb (stderr p) se
       && Z.eqb (returncode p) ec
    then Ret tt else Raise AssertionError.
Proof.
  unfold expectedStdout, expectedStderr, expectedExitCode, assert_result.
  simpl. intros -> -> ->. simpl.
  destruct (String.eqb (stdout p) so); [|reflexivity].
  destruct (String.eqb (stderr p) se); [|reflexivity].
  destruct (Z.eqb (returncode p) ec); reflexivity.
Qed.

(** C1.  Grading, for a record whose expected output and status are
    strings and an integer, and an execution that completed or timed out:
    the cell is reported ok exactly when the run completed (did not time
    out) and its stdout, stderr and exit code equal [expectedStdout]
    (default empty), [expectedStderr] (default empty) and
    [expectedExitCode] (default 0); in every other case, a mismatch or a
    timeout, it is reported FAILED. *)
Theorem grading_pass_iff_all_match (w : World) (cmd : list string)
    (cwd : string) (s : State) (d : dict) (so se : string) (ec : Z)
    (result : res CompletedProcess) :
  config s = JObj d ->
  expectedStdout d = JStr so ->
  expectedStderr d = JStr se ->
  expectedExitCode d = JInt ec ->
  run w cmd cwd (Dict.get d "stdin") (timeoutSeconds d) = result ->
  (result = Raise TimeoutExpired \/ exists p, result = Ret p) ->
  let pass := exists p, result = Ret p /\ stdout p = so /\ stderr p = se
                        /\ returncode p = ec in
  (reports (test w cmd cwd) s ok_line <-> pass)
  /\ (reports (test w cmd cwd) s failed_line <-> ~ pass).
Proof.
  intros Hd Hso Hse Hec Hrun Hres pass.
  pose proof (test_dict w cmd cwd s d Hd) as Ht. rewrite Hrun in Ht.
  assert (Hok : forall s', out (append_out (append_out s' OK) (Json.chr Json.LF))
                           = out s' ++ ok_line).
  { intros s'. unfold ok_line. simpl. now rewrite append_assoc. }
  assert (Hko : forall s', out (append_out (append_out s' FAILED)
                                  (Json.chr Json.LF))
                           = out s' ++ failed_line).
  { intros s'. unfold failed_line. simpl. now rewrite append_assoc. }
  destruct Hres as [-> | [p ->]].
  - (* timed out *)
    simpl in Ht.
    assert (Hnp : ~ pass) by (intros [p [E _]]; discriminate).
    split; split.
    + intros [s' [Hr Ho]]. rewrite (try_report_raise _ _ _ _ Ht) in Hr.
      injection Hr as <-. rewrite Hko in Ho.
      apply append_inv_head in Ho. now destruct ok_line_not_failed_line.
    + intros Hp. contradiction.
    + intros _. exact Hnp.
    + intros _. eexists. split; [apply (try_report_raise _ _ _ _ Ht)|].
      apply Hko.
  - (* completed *)
    simpl in Ht. rewrite (assert_result_typed p d so se ec Hso Hse Hec) in Ht.
    destruct (String.eqb (stdout p) so && String.eqb (stderr p) se
              && Z.eqb (returncode p) ec) eqn:E.
    + apply andb_prop in E as [E Erc]. apply andb_prop in E as [Eso Ese].
      apply String.eqb_eq in Eso, Ese. apply Z.eqb_eq in Erc.
      assert (Hp : pass) by (exists p; auto).
      split; split.
      * intros _. exact Hp.
      * intros _. eexists. split; [apply (try_report_ret _ _ _ _ Ht)|].
        apply Hok.
      * intros [s' [Hr Ho]]. rewrite (try_report_ret _ _ _ _ Ht) in Hr.
        injection Hr as <-. rewrite Hok in Ho.
        apply append_inv_head in Ho. now destruct ok_line_not_failed_line.
      * intros Hnp. contradiction.
    + assert (Hnp : ~ pass).
      { intros [p' [Ep [Eso [Ese Erc]]]]. injection Ep as <-.
        rewrite <- Eso, <- Ese, <- Erc in E.
        now rewrite !String.eqb_refl, Z.eqb_refl in E. }
      split; split.
      * intros [s' [Hr Ho]]. rewrite (try_report_raise _ _ _ _ Ht) in Hr.
        injection Hr as <-. rewrite Hko in Ho.
        apply append_inv_head in Ho. now destruct ok_line_not_failed_line.
      * intros Hp. contradiction.
      * intros _. exact Hnp.
      * intros _. eexists. split; [apply (try_report_raise _ _ _ _ Ht)|].
        apply Hko.
Qed.

Lemma grading_sample :
  let w := Sample.world Sample.hi_text (Sample.prints "hi") in
  let s := Sample.with_config Sample.hi_record in
  let result := Ret {| stdout := "hi"; stderr := EmptyString;
                       returncode := 0 |} in
  let pass := exists p, result = Ret p /\ stdout p = "hi"
                        /\ stderr p = EmptyString /\ returncode p = 0%Z in
  (reports (test w ["wasmer"; "run"; "/repo/hello.wasm"] "/tmp/tmp0") s ok_line
   <-> pass)
  /\ (reports (test w ["wasmer"; "run"; "/repo/hello.wasm"] "/tmp/tmp0") s
        failed_line <-> ~ pass).
Proof.
  apply (grading_pass_iff_all_match
           (Sample.world Sample.hi_text (Sample.prints "hi"))
           ["wasmer"; "run"; "/repo/hello.wasm"] "/tmp/tmp0"
           (Sample.with_config Sample.hi_record) Sample.hi_record
           "hi" EmptyString 0%Z);
    try reflexivity.
  right. eexists. reflexivity.
Defined.

(** *** The inner loop *)

Lemma cell_eq (w : World) (filepath workdir : string) (a : adapter)
    (s : State) :
  cell w filepath workdir a s
  = try_report (run_adapter a w (OsPath.abspath (getcwd w) filepath) workdir)
      (cell_start w a s).
Proof. reflexivity. Qed.

(** C2, as the code has it.  A cell has two reports, not three: when the
    adapter returns the line ends in ok, and when it raises, whatever the
    exception (a failed comparison, a timeout, a command that could not
    be started), the line ends in the same FAILED. *)
Theorem cell_reports_ok_or_failed (w : World) (filepath workdir : string)
    (a : adapter) (s : State) :
  match run_adapter a w (OsPath.abspath (getcwd w) filepath) workdir
          (cell_start w a s) with
  | (Ret _, s') =>
      cell w filepath workdir a s = (Ret tt, append_out s' ok_line)
  | (Raise _, s') =>
      cell w filepath workdir a s = (Ret tt, append_out s' failed_line)
  | (Hang, s') => cell w filepath workdir a s = (Hang, s')
  end.
Proof.
  rewrite cell_eq. unfold try_report.
  destruct (run_adapter a w _ workdir (cell_start w a s)) as [[u|e|] s'];
    unfold St.bind, write, St.modify, append_out, ok_line, failed_line;
    simpl; rewrite ?append_assoc; reflexivity.
Qed.

(** C2 fails as stated: an expectation mismatch and a runtime that cannot
    be started are different exceptions, and their cells are reported
    with the same text. *)
Lemma mismatch_reported_like_launch_failure :
  let mismatch := Sample.world Sample.hi_text (Sample.prints "bye") in
  let broken := Sample.world Sample.hi_text Sample.missing in
  let s := Sample.with_config Sample.hi_record in
  fst (run_adapter Wasmer mismatch "/repo/hello.wasm" "/tmp/tmp0" s)
    = Raise AssertionError
  /\ fst (run_adapter Wasmer broken "/repo/hello.wasm" "/tmp/tmp0" s)
    = Raise OSError
  /\ out (snd (cell mismatch Sample.ARTIFACT "/tmp/tmp0" Wasmer s))
     = out (snd (cell broken Sample.ARTIFACT "/tmp/tmp0" Wasmer s)).
Proof. vm_compute. repeat split. Qed.

(** *** The outer loop *)

Lemma for_each_app {S A : Type} (l1 l2 : list A) (body : A -> M S unit)
    (s : S) :
  St.for_each (l1 ++ l2)%list body s
  = match St.for_each l1 body s with
    | (Ret _, s1) => St.for_each l2 body s1
    | (Raise e, s1) => (Raise e, s1)
    | (Hang, s1) => (Hang, s1)
    end.
Proof.
  revert s. induction l1 as [|x l1 IH]; intros s; simpl.
  - reflexivity.
  - unfold St.bind. destruct (body x s) as [[u|e|] s']; auto.
Qed.

Lemma case_unresolved (w : World) (filepath : string) (s : State) (e : exn) :
  resolve w filepath = Raise e -> case w filepath s = (Raise e, s).
Proof.
  intros H. unfold case, St.bind at 1, St.lift. now rewrite H.
Qed.

(** C3, as the code has it.  The record of an artifact is the first match
    of its pattern, however many more there are.  With no match the index
    error is raised outside every handler and ends the run: the report
    holds the rows of the artifacts sorted before this one, and none for
    it or for any after it. *)
Theorem resolution_takes_first_match_or_ends_run (w : World)
    (before after : list string) (filepath : string) (s1 : State) :
  inputs w = (before ++ filepath :: after)%list ->
  St.for_each before (case w) initial = (Ret tt, s1) ->
  match glob w (record_pattern filepath) with
  | [] => main w initial = (Raise IndexError, s1)
  | m :: _ => resolve w filepath = load_config w m
  end.
Proof.
  intros Hin Hbefore.
  destruct (glob w (record_pattern filepath)) as [|m ms] eqn:Eg.
  - unfold main. rewrite Hin, for_each_app, Hbefore. simpl.
    unfold St.bind at 1. rewrite case_unresolved with (e := IndexError).
    + reflexivity.
    + unfold resolve. now rewrite Eg.
  - unfold resolve. now rewrite Eg.
Qed.

Lemma resolution_sample :
  match glob (TwoArtifacts.world []) (record_pattern TwoArtifacts.FIRST) with
  | [] => main (TwoArtifacts.world []) initial = (Raise IndexError, initial)
  | m :: _ => resolve (TwoArtifacts.world []) TwoArtifacts.FIRST
              = load_config (TwoArtifacts.world []) m
  end.
Proof.
  apply (resolution_takes_first_match_or_ends_run (TwoArtifacts.world [])
           [] [TwoArtifacts.SECOND] TwoArtifacts.FIRST initial); reflexivity.
Defined.

(** C3 fails as stated, twice.  An artifact with two records is resolved,
    to the first of them, and gets its rows; and an artifact with no
    record ends the run before the resolvable artifact after it gets a
    row. *)
Lemma ambiguous_resolved_and_missing_ends_run :
  (List.length (glob (TwoArtifacts.world []) (record_pattern TwoArtifacts.SECOND)) = 2
   /\ resolve (TwoArtifacts.world []) TwoArtifacts.SECOND = Ret (JObj Sample.hi_record))
  /\ (glob (TwoArtifacts.world []) (record_pattern TwoArtifacts.FIRST) = []
      /\ returns (resolve (TwoArtifacts.world []) TwoArtifacts.SECOND) = true
      /\ fst (main (TwoArtifacts.world []) initial) = Raise IndexError
      /\ out (snd (main (TwoArtifacts.world []) initial)) = EmptyString).
Proof. vm_compute. repeat split. Qed.

(** *** What an adapter does before it starts the guest *)

Lemma default_in_place_dict (key : string) (v : json) (d : dict)
    (tr : list event) (o : string) (n : nat) :
  default_in_place key v {| config := JObj d; trace := tr; out := o; temps := n |}
  = (Ret tt, {| config := JObj (defaulted d key v); trace := tr; out := o;
                temps := n |}).
Proof.
  unfold default_in_place, St.bind, config_get, config_set, defaulted. simpl.
  destruct (is_None (Dict.get d key)); reflexivity.
Qed.

Lemma run_adapter_dict (a : adapter) (w : World) (filepath cwd : string)
    (s : State) (d : dict) :
  config s = JObj d ->
  run_adapter a w filepath cwd s
  = match guest_cmd a w filepath d with
    | Ret cmd => test w cmd cwd (before_test a w d s)
    | Raise e => (Raise e, before_test a w d s)
    | Hang => (Hang, before_test a w d s)
    end.
Proof.
  destruct s as [c tr o n]. simpl. intros ->.
  destruct a; unfold before_test; simpl.
  - unfold test_deno, St.bind at 1, write_file, St.modify, log. simpl.
    unfold St.bind at 1. rewrite default_in_place_dict.
    unfold St.bind at 1. rewrite default_in_place_dict.
    reflexivity.
  - unfold test_node, St.bind at 1, write_file, St.modify, log. simpl.
    unfold St.bind at 1. rewrite default_in_place_dict.
    unfold St.bind at 1. rewrite default_in_place_dict.
    reflexivity.
  - unfold test_wasmer, St.bind at 1, build_cmd. simpl. rewrite app_nil_r.
    destruct (wasmer_cmd filepath d); reflexivity.
  - unfold test_wasmtime, St.bind at 1, build_cmd. simpl. rewrite app_nil_r.
    destruct (wasmtime_cmd filepath d); reflexivity.
  - unfold test_wasmedge, St.bind at 1, St.lift. rewrite app_nil_r.
    destruct (check_call w (wasmedgec_cmd filepath)); reflexivity.
Qed.

(** An adapter handed something that is not a dict fails at its first
    [config.get]; the wasmedge adapter has compiled by then. *)
Lemma run_adapter_not_dict (a : adapter) (w : World) (filepath cwd : string)
    (s : State) :
  (forall d, config s <> JObj d) ->
  exists r, run_adapter a w filepath cwd s
            = (r, {| config := config s;
                     trace := (trace s ++ written a w)%list;
                     out := out s; temps := temps s |}).
Proof.
  destruct s as [c tr o n]. simpl. intros Hc.
  assert (Hget : forall key tr',
    config_get key {| config := c; trace := tr'; out := o; temps := n |}
    = (Raise AttributeError,
       {| config := c; trace := tr'; out := o; temps := n |})).
  { intros key tr'. unfold config_get. simpl.
    destruct c; try reflexivity. now destruct (Hc d). }
  assert (Hbuild : forall f,
    build_cmd f {| config := c; trace := tr; out := o; temps := n |}
    = (Raise AttributeError,
       {| config := c; trace := tr; out := o; temps := n |})).
  { intros f. unfold build_cmd. simpl.
    destruct c; try reflexivity. now destruct (Hc d). }
  destruct a; simpl; rewrite ?app_nil_r.
  - exists (Raise AttributeError).
    unfold test_deno, St.bind at 1, write_file, St.modify, log. simpl.
    unfold St.bind at 1, default_in_place, St.bind at 1. now rewrite Hget.
  - exists (Raise AttributeError).
    unfold test_node, St.bind at 1, write_file, St.modify, log. simpl.
    unfold St.bind at 1, default_in_place, St.bind at 1. now rewrite Hget.
  - exists (Raise AttributeError).
    unfold test_wasmer, St.bind at 1. now rewrite Hbuild.
  - exists (Raise AttributeError).
    unfold test_wasmtime, St.bind at 1. now rewrite Hbuild.
  - unfold test_wasmedge, St.bind at 1, St.lift.
    destruct (check_call w (wasmedgec_cmd filepath)); eauto.
    unfold St.bind at 1. rewrite Hbuild. eauto.
Qed.

(** *** Fields the glue adapters leave alone *)

Lemma lookup_set_other (d : dict) (k key : string) (v : json) :
  String.eqb k key = false ->
  Dict.lookup key (Dict.set d k v) = Dict.lookup key d.
Proof.
  intros Hk. induction d as [|[k' w] d IH]; simpl.
  - now rewrite Hk.
  - destruct (String.eqb k' k) eqn:E; simpl.
    + apply String.eqb_eq in E. subst k'. now rewrite Hk.
    + now rewrite IH.
Qed.

Lemma lookup_set_same (d : dict) (k : string) (v : json) :
  Dict.lookup k (Dict.set d k v) = Some v.
Proof.
  induction d as [|[k' w] d IH]; simpl.
  - now rewrite String.eqb_refl.
  - destruct (String.eqb k' k) eqn:E; simpl; rewrite E; [reflexivity | exact IH].
Qed.

Lemma lookup_defaulted_other (d : dict) (k key : string) (v : json) :
  String.eqb k key = false ->
  Dict.lookup key (defaulted d k v) = Dict.lookup key d.
Proof.
  intros Hk. unfold defaulted.
  destruct (is_None (Dict.get d k)); [now apply lookup_set_other | reflexivity].
Qed.

Lemma lookup_config_after (a : adapter) (d : dict) (key : string) :
  String.eqb "env" key = false -> String.eqb "args" key = false ->
  Dict.lookup key (config_after a d) = Dict.lookup key d.
Proof.
  intros He Ha. destruct a; try reflexivity;
    unfold config_after, normalized;
    now rewrite !lookup_defaulted_other.
Qed.

(** *** The time limit *)

Lemma run_overrun (w : World) (cmd : list string) (cwd : string) (d : dict)
    (t : Z) :
  (Dict.get d "stdin" = JNull \/ exists x, Dict.get d "stdin" = JStr x) ->
  overruns (behaviour_of w cmd cwd (stdin_of d)) t ->
  run w cmd cwd (Dict.get d "stdin") (JInt t) = Raise TimeoutExpired.
Proof.
  unfold stdin_of, run. intros Hin Hover.
  assert (Hq : forall q, (inject_Z t < q)%Q -> Qle_bool q (inject_Z t) = false).
  { intros q Hq. destruct (Qle_bool q (inject_Z t)) eqn:E; [|reflexivity].
    apply Qle_bool_iff in E. now apply Qlt_not_le in Hq. }
  destruct Hin as [E | [x E]]; rewrite E in *;
    cbv beta iota delta [timeout_arg input_arg bind communicate overruns]
      in *;
    destruct (behaviour_of w cmd cwd _) as [q o e rc| |];
    try contradiction; try reflexivity; now rewrite Hq.
Qed.

(** Building a command ends: only a child can keep a call from
    returning. *)
Lemma bind_hang {A B : Type} (m : res A) (k : A -> res B) :
  bind m k = Hang -> m = Hang \/ exists x, m = Ret x /\ k x = Hang.
Proof. destruct m as [x|e|]; simpl; intros H; eauto; discriminate. Qed.

Lemma flags_of_keys_ends (flag sep : string) (d : dict) (keys : list string) :
  flags_of_keys flag sep d keys <> Hang.
Proof.
  induction keys as [|key keys IH]; simpl; [discriminate|].
  destruct (Dict.lookup key d) as [[ | | |x| | ]|]; try discriminate.
  destruct (flags_of_keys flag sep d keys); simpl;
    [discriminate | discriminate | contradiction].
Qed.

Lemma optional_flags_ends (flag sep : string) (v : json) :
  optional_flags flag sep v <> Hang.
Proof.
  destruct v as [ | | |x|l|d]; simpl; try discriminate.
  - destruct x; discriminate.
  - destruct l; discriminate.
  - apply flags_of_keys_ends.
Qed.

Lemma command_items_ends (l : list json) : command_items l <> Hang.
Proof.
  induction l as [|v l IH]; simpl; [discriminate|].
  destruct v; try discriminate.
  destruct (command_items l); simpl;
    [discriminate | discriminate | contradiction].
Qed.

Lemma optional_args_ends (separator : list string) (v : json) :
  optional_args separator v <> Hang.
Proof.
  unfold optional_args. destruct v as [ | | |x|l|d]; try discriminate;
    simpl; intros H;
    (apply bind_hang in H as [H | [args [_ H]]];
     [now apply command_items_ends in H | discriminate]).
Qed.

Ltac command_ends :=
  intros H;
  apply bind_hang in H as [H | [envs [_ H]]];
    [now apply optional_flags_ends in H|];
  apply bind_hang in H as [H | [dirs [_ H]]];
    [now apply optional_flags_ends in H|];
  apply bind_hang in H as [H | [args [_ H]]];
    [now apply optional_args_ends in H | discriminate].

Lemma wasmer_cmd_ends (filepath : string) (d : dict) :
  wasmer_cmd filepath d <> Hang.
Proof. unfold wasmer_cmd. command_ends. Qed.

Lemma wasmtime_cmd_ends (filepath : string) (d : dict) :
  wasmtime_cmd filepath d <> Hang.
Proof. unfold wasmtime_cmd. command_ends. Qed.

Lemma wasmedge_cmd_ends (filepath : string) (d : dict) :
  wasmedge_cmd filepath d <> Hang.
Proof. unfold wasmedge_cmd. command_ends. Qed.

(** No command is obtained only while the wasmedge compiler runs. *)
Lemma guest_cmd_hang (a : adapter) (w : World) (filepath : string) (d : dict) :
  guest_cmd a w filepath d = Hang
  <-> a = Wasmedge /\ check_call w (wasmedgec_cmd filepath) = Hang.
Proof.
  split.
  - destruct a; simpl; intros H; try discriminate.
    + now apply wasmer_cmd_ends in H.
    + now apply wasmtime_cmd_ends in H.
    + split; [reflexivity|].
      destruct (check_call w (wasmedgec_cmd filepath)); simpl in H;
        [now apply wasmedge_cmd_ends in H | discriminate | reflexivity].
  - intros [-> H]. simpl. now rewrite H.
Qed.

Lemma assert_result_ends (p : CompletedProcess) (v : json) :
  assert_result p v <> Hang.
Proof.
  unfold assert_result, expected_get, py_assert.
  destruct v; try discriminate. simpl.
  destruct (str_eq _ _); simpl; [|discriminate].
  destruct (str_eq _ _); simpl; [|discriminate].
  destruct (int_eq _ _); discriminate.
Qed.

(** With a number of seconds as its limit, a started child is waited for
    no longer than that. *)
Lemma run_ends (w : World) (cmd : list string) (cwd : string) (input : json)
    (t : Z) :
  run w cmd cwd input (JInt t) <> Hang.
Proof.
  assert (Hc : forall b, communicate b (Some t) <> Hang).
  { intros [q o e rc| |]; simpl; try discriminate.
    destruct (Qle_bool q (inject_Z t)); discriminate. }
  unfold run.
  destruct input; destruct (behaviour_of w cmd cwd _) eqn:E;
    cbv beta iota delta [timeout_arg input_arg bind];
    try discriminate; apply Hc.
Qed.

Lemma test_ends (w : World) (cmd : list string) (cwd : string) (s : State)
    (d : dict) (t : Z) :
  config s = JObj d -> timeoutSeconds d = JInt t ->
  fst (test w cmd cwd s) <> Hang.
Proof.
  intros Hd Ht. rewrite (test_dict w cmd cwd s d Hd), Ht. cbn [fst].
  intros H. apply bind_hang in H as [H | [p [_ H]]].
  - now apply run_ends in H.
  - now apply assert_result_ends in H.
Qed.

(** C4, as the code has it.  The time limit of a record (5 seconds when
    it has none) is the limit of the guest process, and of nothing else.
    For every adapter and every record whose limit is a number of
    seconds: a guest that is still running after that many seconds is
    killed ([TimeoutExpired]), the adapter call returns and the cell is
    reported FAILED; and the cell fails to end in exactly one case, the
    wasmedge adapter whose compiler, which is waited for without a limit
    before the guest is started, never exits. *)
Theorem time_limit_covers_guest_only (a : adapter) (w : World)
    (filepath cwd : string) (s : State) (d : dict) (t : Z) :
  config s = JObj d ->
  timeoutSeconds d = JInt t ->
  (Dict.get d "stdin" = JNull \/ exists x, Dict.get d "stdin" = JStr x) ->
  (forall cmd,
     guest_cmd a w filepath d = Ret cmd ->
     overruns (behaviour_of w cmd cwd (stdin_of d)) t ->
     fst (run_adapter a w filepath cwd s) = Raise TimeoutExpired
     /\ reports (run_adapter a w filepath cwd) s failed_line)
  /\ (fst (try_report (run_adapter a w filepath cwd) s) = Hang
      <-> a = Wasmedge /\ check_call w (wasmedgec_cmd filepath) = Hang).
Proof.
  intros Hd Ht Hin.
  assert (Hstdin : Dict.get (config_after a d) "stdin" = Dict.get d "stdin").
  { unfold Dict.get. now rewrite lookup_config_after. }
  assert (Htime : timeoutSeconds (config_after a d) = JInt t).
  { rewrite <- Ht. unfold timeoutSeconds, Dict.get_default.
    now rewrite lookup_config_after. }
  split.
  - intros cmd Hcmd Hover.
    assert (E : run_adapter a w filepath cwd s
                = (Raise TimeoutExpired, before_test a w d s)).
    { rewrite (run_adapter_dict a w filepath cwd s d Hd), Hcmd.
      rewrite (test_dict w cmd cwd _ (config_after a d)) by reflexivity.
      rewrite Htime, Hstdin, run_overrun; auto. }
    split.
    + now rewrite E.
    + eexists. split; [apply (try_report_raise _ _ _ _ E)|].
      unfold failed_line. simpl. now rewrite append_assoc.
  - rewrite <- guest_cmd_hang with (d := d).
    unfold try_report.
    rewrite (run_adapter_dict a w filepath cwd s d Hd).
    destruct (guest_cmd a w filepath d) as [cmd|e|] eqn:Hcmd.
    + pose proof (test_ends w cmd cwd (before_test a w d s)
                    (config_after a d) t eq_refl Htime) as Hends.
      destruct (test w cmd cwd (before_test a w d s)) as [[u|e|] s'];
        cbn [fst] in *; split; intros H; try discriminate.
      now destruct Hends.
    + split; discriminate.
    + split; reflexivity.
Qed.

Lemma time_limit_sample :
  (fst (run_adapter Wasmtime SlowGuest.world "/repo/hello.wasm" "/tmp/tmp0"
          (Sample.with_config Sample.hi_record)) = Raise TimeoutExpired
   /\ reports (run_adapter Wasmtime SlowGuest.world "/repo/hello.wasm"
                 "/tmp/tmp0")
        (Sample.with_config Sample.hi_record) failed_line)
  /\ (fst (try_report (run_adapter Wasmtime SlowGuest.world "/repo/hello.wasm"
                         "/tmp/tmp0") (Sample.with_config Sample.hi_record))
      = Hang
      <-> Wasmtime = Wasmedge
          /\ check_call SlowGuest.world (wasmedgec_cmd "/repo/hello.wasm")
             = Hang).
Proof.
  destruct (time_limit_covers_guest_only Wasmtime SlowGuest.world
              "/repo/hello.wasm" "/tmp/tmp0"
              (Sample.with_config Sample.hi_record) Sample.hi_record 5%Z)
    as [Hguest Hcell].
  - reflexivity.
  - reflexivity.
  - left; reflexivity.
  - split; [|exact Hcell].
    apply (Hguest ["wasmtime"; "run"; "/repo/hello.wasm"]); reflexivity.
Defined.

(** C4 fails as stated: a record that gives its guest one second does not
    bound the wasmedge adapter.  With a compiler that never exits, no
    command is obtained, the cell never gets its verdict and the run of
    the matrix never ends. *)
Lemma stuck_compiler_hangs_matrix :
  let w := Sample.world (Build.persist (JObj Edges.one_second))
             Edges.stuck_compiler in
  let s := Sample.with_config Edges.one_second in
  timeoutSeconds Edges.one_second = JInt 1
  /\ guest_cmd Wasmedge w "/repo/hello.wasm" Edges.one_second = Hang
  /\ try_report (run_adapter Wasmedge w "/repo/hello.wasm" "/tmp/tmp0") s
     = (Hang, s)
  /\ fst (main w initial) = Hang.
Proof. vm_compute. repeat split. Qed.

(** *** Persisting and loading *)

(** C5.  A record written by the build step (keys sorted, indent 2, a
    newline at the end) and loaded by the harness is, field for field,
    the record that was written; this holds for every value Python can
    hold, empty dicts and lists included. *)
Theorem persisted_record_loads_identical (w : World) (path : string)
    (record : json) :
  unique_keys record = true ->
  read_text w path = Some (Build.persist record) ->
  exists loaded,
    load_config w path = Ret loaded /\ identical record loaded = true.
Proof.
  intros Hu Hread. exists (Json.sort_keys record). split.
  - unfold load_config. rewrite Hread. unfold Build.persist.
    apply (loads_dumps true (Some 2)); [exact Hu | reflexivity].
  - now apply identical_sort_keys.
Qed.

Lemma persisted_record_sample :
  exists loaded,
    load_config (Sample.world (Build.persist (JObj Sample.bare_record))
                   (Sample.prints "a")) Sample.RECORD = Ret loaded
    /\ identical (JObj Sample.bare_record) loaded = true.
Proof.
  apply (persisted_record_loads_identical
           (Sample.world (Build.persist (JObj Sample.bare_record))
              (Sample.prints "a")) Sample.RECORD (JObj Sample.bare_record));
    reflexivity.
Defined.

(** The record the build step writes for a source file is one the
    harness loads back unchanged: whatever [json.loads] made of the
    prelude has distinct keys. *)
Lemma built_record_loads_identical (w : World) (path prelude : string)
    (record : json) :
  Json.loads prelude = Ret record ->
  read_text w path = Some (Build.persist record) ->
  load_config w path = Ret (Json.sort_keys record)
  /\ identical record (Json.sort_keys record) = true.
Proof.
  intros Hl Hread. pose proof (loads_unique_keys _ _ Hl) as Hu. split.
  - unfold load_config. rewrite Hread. unfold Build.persist.
    apply (loads_dumps true (Some 2)); [exact Hu | reflexivity].
  - now apply identical_sort_keys.
Qed.

(** *** The guest's arguments *)

Lemma set_keys_present (d : dict) (k : string) (v : json) :
  existsb (String.eqb k) (map fst d) = true ->
  map fst (Dict.set d k v) = map fst d.
Proof.
  induction d as [|[k' w] d IH]; simpl; intros E; [discriminate|].
  destruct (String.eqb k' k) eqn:Ek; simpl; [reflexivity|].
  rewrite String.eqb_sym, Ek in E. simpl in E. now rewrite IH.
Qed.

Lemma distinct_set_keys (d : dict) (k : string) (v : json) :
  distinct (map fst d) = true -> distinct (map fst (Dict.set d k v)) = true.
Proof.
  intros Hd.
  destruct (existsb (String.eqb k) (map fst d)) eqn:E.
  - now rewrite set_keys_present.
  - rewrite lookup_none_set by exact E. rewrite map_app. simpl.
    rewrite distinct_app_single, Hd, E. reflexivity.
Qed.

Lemma values_set (P : json -> bool) (d : dict) (k : string) (v : json) :
  P v = true ->
  forallb (fun kv => match kv with (_, w) => P w end) d = true ->
  forallb (fun kv => match kv with (_, w) => P w end) (Dict.set d k v) = true.
Proof.
  intros Hv. induction d as [|[k' w] d IH]; simpl; intros H.
  - now rewrite Hv.
  - apply andb_prop in H as [Hw Hd].
    destruct (String.eqb k' k); simpl.
    + now rewrite Hv, Hd.
    + now rewrite Hw, IH.
Qed.

Lemma unique_keys_defaulted (d : dict) (k : string) (v : json) :
  unique_keys v = true ->
  unique_keys (JObj d) = true -> unique_keys (JObj (defaulted d k v)) = true.
Proof.
  intros Hv Hd. unfold defaulted.
  destruct (is_None (Dict.get d k)); [|exact Hd].
  simpl in *. apply andb_prop in Hd as [Hk Hw].
  rewrite distinct_set_keys by exact Hk. simpl.
  now apply values_set.
Qed.

Lemma unique_keys_normalized (d : dict) :
  unique_keys (JObj d) = true -> unique_keys (JObj (normalized d)) = true.
Proof.
  intros H. unfold normalized.
  apply unique_keys_defaulted; [reflexivity|].
  now apply unique_keys_defaulted.
Qed.

Lemma get_defaulted_same (d : dict) (k : string) (v : json) :
  Dict.get (defaulted d k v) k
  = if is_None (Dict.get d k) then v else Dict.get d k.
Proof.
  unfold defaulted. destruct (is_None (Dict.get d k)); [|reflexivity].
  unfold Dict.get. now rewrite lookup_set_same.
Qed.

Lemma args_normalized (d : dict) :
  Dict.get (normalized d) "args"
  = if is_None (Dict.get d "args") then JArr [] else Dict.get d "args".
Proof.
  unfold normalized. rewrite get_defaulted_same.
  assert (E : Dict.get (defaulted d "env" (JObj [])) "args" = Dict.get d "args").
  { unfold Dict.get. now rewrite lookup_defaulted_other. }
  now rewrite E.
Qed.

Lemma command_items_strs (l : list string) :
  command_items (map JStr l) = Ret l.
Proof. induction l as [|x l IH]; simpl; [reflexivity | now rewrite IH]. Qed.

Lemma optional_args_record (sep : list string) (d : dict)
    (extra : list string) :
  record_args d extra ->
  optional_args sep (Dict.get d "args")
  = Ret ((if is_None (Dict.get d "args") then [] else sep) ++ extra)%list.
Proof.
  intros [[-> ->] | ->]; simpl; [reflexivity|].
  now rewrite command_items_strs.
Qed.

(** The options a glue program builds from what its adapter passes. *)
Lemma glue_options (d : dict) (filepath : string) (extra : list string) :
  unique_keys (JObj d) = true -> record_args d extra ->
  exists opts,
    Glue.wasi_options [Json.dumps false None (JObj (normalized d)); filepath]
    = Some opts
    /\ Glue.args opts = JStr filepath :: map JStr extra.
Proof.
  intros Hu Hargs. unfold Glue.wasi_options.
  pose proof (loads_dumps false None (JObj (normalized d)) EmptyString
                (unique_keys_normalized d Hu) eq_refl) as Hl.
  rewrite append_nil_r in Hl. rewrite Hl, args_normalized.
  destruct Hargs as [[-> ->] | ->]; simpl; eexists; split; reflexivity.
Qed.

(** C6, as the code has it.  In every command the extra arguments come
    last, after the program the adapter names.  That program is the
    artifact for deno, node, wasmer and wasmtime, and for wasmedge the
    object compiled from it.  The guest of a glue program gets the
    artifact's path followed by the extra arguments as its argv. *)
Theorem args_follow_named_program (a : adapter) (w : World)
    (filepath : string) (d : dict) (extra cmd : list string) :
  unique_keys (JObj d) = true ->
  record_args d extra ->
  guest_cmd a w filepath d = Ret cmd ->
  match a with
  | Deno =>
      exists script text opts,
        cmd = deno_cmd script text (named_program a filepath)
        /\ Glue.wasi_options [text; named_program a filepath] = Some opts
        /\ Glue.args opts = JStr filepath :: map JStr extra
  | Node =>
      exists script text opts,
        cmd = node_cmd script text (named_program a filepath)
        /\ Glue.wasi_options [text; named_program a filepath] = Some opts
        /\ Glue.args opts = JStr filepath :: map JStr extra
  | _ =>
      exists envs dirs,
        optional_flags "--env" "=" (Dict.get d "env") = Ret envs
        /\ optional_flags (dir_flag a) (dir_sep a) (Dict.get d "preopens")
           = Ret dirs
        /\ cmd = (direct_prefix a filepath envs dirs
                  ++ args_separator a d ++ extra)%list
  end.
Proof.
  intros Hu Hargs Hcmd.
  destruct a; simpl in Hcmd; cbn [dir_flag dir_sep].
  - injection Hcmd as <-.
    destruct (glue_options d filepath extra Hu Hargs) as [opts [Ho Ha]].
    eauto 6.
  - injection Hcmd as <-.
    destruct (glue_options d filepath extra Hu Hargs) as [opts [Ho Ha]].
    eauto 6.
  - unfold wasmer_cmd in Hcmd.
    rewrite (optional_args_record _ d extra Hargs) in Hcmd.
    destruct (optional_flags "--env" "=" _) as [envs| |]; try discriminate.
    destruct (optional_flags "--mapdir" ":" _) as [dirs| |]; try discriminate.
    simpl in Hcmd. injection Hcmd as <-.
    exists envs, dirs. repeat split.
    unfold direct_prefix, args_separator, named_program.
    now rewrite <- ?app_assoc.
  - unfold wasmtime_cmd in Hcmd.
    rewrite (optional_args_record _ d extra Hargs) in Hcmd.
    destruct (optional_flags "--env" "=" _) as [envs| |]; try discriminate.
    destruct (optional_flags "--mapdir" "::" _) as [dirs| |]; try discriminate.
    simpl in Hcmd. injection Hcmd as <-.
    exists envs, dirs. repeat split.
    unfold direct_prefix, args_separator, named_program.
    now rewrite <- ?app_assoc.
  - destruct (check_call w (wasmedgec_cmd filepath)); try discriminate.
    simpl in Hcmd. unfold wasmedge_cmd in Hcmd.
    rewrite (optional_args_record _ d extra Hargs) in Hcmd.
    destruct (optional_flags "--env" "=" _) as [envs| |]; try discriminate.
    destruct (optional_flags "--dir" ":" _) as [dirs| |]; try discriminate.
    simpl in Hcmd. injection Hcmd as <-.
    exists envs, dirs. repeat split.
    unfold direct_prefix, args_separator, named_program.
    destruct (is_None (Dict.get d "args")); now rewrite <- ?app_assoc.
Qed.

Lemma args_follow_named_program_sample :
  exists envs dirs,
    optional_flags "--env" "=" (Dict.get Sample.bare_record "env") = Ret envs
    /\ optional_flags "--dir" ":" (Dict.get Sample.bare_record "preopens")
       = Ret dirs
    /\ ["wasmedge"; "/repo/target/hello.so"; "a"]
       = (direct_prefix Wasmedge "/repo/target/hello.wasm" envs dirs
          ++ args_separator Wasmedge Sample.bare_record ++ ["a"])%list.
Proof.
  apply (args_follow_named_program Wasmedge
           (Sample.world Sample.hi_text (Sample.prints "a"))
           "/repo/target/hello.wasm" Sample.bare_record ["a"]
           ["wasmedge"; "/repo/target/hello.so"; "a"]).
  - reflexivity.
  - right; reflexivity.
  - reflexivity.
Defined.

(** C6 fails as stated for wasmedge: the artifact is handed to the
    compiler, and the command that starts the guest does not name it. *)
Lemma wasmedge_names_compiled_object :
  guest_cmd Wasmedge (Sample.world Sample.hi_text (Sample.prints "a"))
    "/repo/target/hello.wasm" Sample.bare_record
  = Ret ["wasmedge"; "/repo/target/hello.so"; "a"]
  /\ ~ In "/repo/target/hello.wasm" ["wasmedge"; "/repo/target/hello.so"; "a"].
Proof.
  split; [reflexivity|].
  intros [H | [H | [H | []]]]; discriminate.
Qed.

(** *** Directory mappings *)

Lemma adjacent_cons (x y z : string) (l : list string) :
  adjacent x y l -> adjacent x y (z :: l).
Proof. intros [l1 [l2 ->]]. now exists (z :: l1), l2. Qed.

Lemma adjacent_app (x y : string) (a l b : list string) :
  adjacent x y l -> adjacent x y (a ++ l ++ b)%list.
Proof.
  intros [l1 [l2 ->]]. exists (a ++ l1)%list, (l2 ++ b)%list.
  now rewrite <- !app_assoc.
Qed.

Lemma flags_of_keys_adjacent (flag sep : string) (d : dict) (g h : string)
    (keys flags : list string) :
  In g keys -> Dict.lookup g d = Some (JStr h) ->
  flags_of_keys flag sep d keys = Ret flags ->
  adjacent flag (g ++ sep ++ h) flags.
Proof.
  intros Hin Hg. revert flags.
  induction keys as [|k keys IH]; intros flags Hf; [contradiction|].
  simpl in Hf.
  destruct (Dict.lookup k d) as [[ | | |x| | ]|] eqn:Ek; try discriminate.
  destruct (flags_of_keys flag sep d keys) as [rest| |]; try discriminate.
  simpl in Hf. injection Hf as <-.
  destruct Hin as [-> | Hin].
  - rewrite Hg in Ek. injection Ek as ->. now exists [], rest.
  - apply adjacent_cons, adjacent_cons. now apply IH.
Qed.

Lemma lookup_in_keys (d : dict) (k : string) (v : json) :
  Dict.lookup k d = Some v -> In k (Dict.keys d).
Proof.
  induction d as [|[k' w] d IH]; simpl; [discriminate|].
  destruct (String.eqb k' k) eqn:E.
  - apply String.eqb_eq in E. now left.
  - intros H. right. now apply IH.
Qed.

Lemma separators_differ (g h : string) : g ++ ":" ++ h <> g ++ "::" ++ h.
Proof.
  intros H. apply append_inv_head in H. simpl in H. injection H as H.
  assert (L : String.length h = String.length (String ":" h)) by now rewrite <- H.
  simpl in L. lia.
Qed.

(** C7.  For every entry of [preopens] that maps the guest path [g] to
    the host path [h], the wasmer command holds the flag [--mapdir]
    followed by [g], one colon and [h], and the wasmtime command holds
    it followed by [g], two colons and [h]; the two arguments differ. *)
Theorem mapdir_one_colon_wasmer_two_wasmtime (filepath : string) (d pre : dict)
    (g h : string) (wasmer wasmtime : list string) :
  Dict.get d "preopens" = JObj pre ->
  Dict.lookup g pre = Some (JStr h) ->
  wasmer_cmd filepath d = Ret wasmer ->
  wasmtime_cmd filepath d = Ret wasmtime ->
  adjacent "--mapdir" (g ++ ":" ++ h) wasmer
  /\ adjacent "--mapdir" (g ++ "::" ++ h) wasmtime
  /\ g ++ ":" ++ h <> g ++ "::" ++ h.
Proof.
  intros Hpre Hg Ha Hb. unfold wasmer_cmd in Ha. unfold wasmtime_cmd in Hb.
  rewrite Hpre in Ha, Hb.
  destruct (optional_flags "--env" "=" _) as [envs| |]; try discriminate.
  simpl in Ha, Hb.
  destruct (flags_of_keys "--mapdir" ":" pre (Dict.keys pre))
    as [dirs1| |] eqn:E1; try discriminate.
  destruct (flags_of_keys "--mapdir" "::" pre (Dict.keys pre))
    as [dirs2| |] eqn:E2; try discriminate.
  destruct (optional_args ["--"] _) as [args| |]; try discriminate.
  simpl in Ha, Hb. injection Ha as <-. injection Hb as <-.
  pose proof (lookup_in_keys pre g _ Hg) as Hin.
  repeat split.
  - apply (adjacent_app _ _ ("wasmer" :: "run" :: filepath :: envs) dirs1 args).
    eapply flags_of_keys_adjacent; eauto.
  - apply (adjacent_app _ _ ("wasmtime" :: "run" :: envs) dirs2
             (filepath :: args)).
    eapply flags_of_keys_adjacent; eauto.
  - apply separators_differ.
Qed.

Lemma mapdir_sample :
  adjacent "--mapdir" ("/data" ++ ":" ++ "fixtures")
    ["wasmer"; "run"; "/repo/hello.wasm"; "--mapdir"; "/data:fixtures";
     "--"; "a"]
  /\ adjacent "--mapdir" ("/data" ++ "::" ++ "fixtures")
       ["wasmtime"; "run"; "--mapdir"; "/data::fixtures"; "/repo/hello.wasm";
        "--"; "a"]
  /\ "/data" ++ ":" ++ "fixtures" <> "/data" ++ "::" ++ "fixtures".
Proof.
  apply (mapdir_one_colon_wasmer_two_wasmtime "/repo/hello.wasm"
           Sample.mapped_record [("/data", JStr "fixtures")]
           "/data" "fixtures"); reflexivity.
Defined.

(** *** The annotation header *)

Lemma prefix_marker (s : string) :
  prefix "//" s = true -> exists rest, s = "//" ++ rest.
Proof.
  intros H. apply prefix_correct in H.
  destruct s as [|c1 [|c2 rest]]; simpl in H; try discriminate.
  injection H as -> -> _. now exists rest.
Qed.

Lemma no_marker_tail (c : ascii) (r : string) :
  no_marker (String c r) -> no_marker r.
Proof. intros H a b E. apply (H (String c a) b). simpl. now rewrite E. Qed.

Lemma split_no_marker (r : string) :
  no_marker r -> Str.split r "//" = [r].
Proof.
  unfold Str.split. induction r as [|c r IH]; intros H; [reflexivity|].
  change (Str.split_from "//" 0 (String c r))
    with (if prefix "//" (String c r)
          then EmptyString :: Str.split_from "//" (String.length "//" - 1) r
          else Str.cons_head c (Str.split_from "//" 0 r)).
  destruct (prefix "//" (String c r)) eqn:E.
  - apply prefix_marker in E as [rest E]. now destruct (H EmptyString rest).
  - rewrite IH by now apply no_marker_tail in H. reflexivity.
Qed.

Lemma split_marked_line (r : string) :
  no_marker r -> Str.split ("//" ++ r) "//" = [EmptyString; r].
Proof.
  intros H. unfold Str.split. destruct r as [|c r]; [reflexivity|].
  change (Str.split_from "//" 0 ("//" ++ String c r))
    with (EmptyString :: Str.split_from "//" 0 (String c r)).
  fold (Str.split (String c r) "//"). now rewrite split_no_marker.
Qed.

Lemma prelude_of_marked_lines (rests after : list string) (acc : string) :
  Forall no_marker rests ->
  (after = [] \/ exists tl, after = Json.chr Json.LF :: tl) ->
  Build.prelude_of_lines (map (append "//") rests ++ after)%list acc
  = Ret (acc ++ Str.concat rests).
Proof.
  intros Hall Hafter. revert acc.
  induction Hall as [|r rests Hr Hall IH]; intros acc.
  - simpl. rewrite append_nil_r.
    destruct Hafter as [-> | [tl ->]]; reflexivity.
  - change (Build.prelude_of_lines
              (map (append "//") (r :: rests) ++ after)%list acc)
      with (match nth_error (Str.split ("//" ++ r) "//") 1 with
            | Some part =>
                Build.prelude_of_lines
                  (map (append "//") rests ++ after)%list (acc ++ part)
            | None => Raise IndexError
            end).
    rewrite split_marked_line by exact Hr. simpl nth_error. cbv beta iota.
    rewrite IH. simpl Str.concat. now rewrite append_assoc.
Qed.

(** C8, as the code has it.  When each line of the header starts with the
    marker and has no second marker in it, the prelude is what follows
    the marker on each of these lines, joined; the header ends at the
    first line holding nothing but a newline, or, when there is no such
    line, at the end of the file, and the extraction succeeds in both
    cases. *)
Theorem prelude_of_header_up_to_blank_line_or_eof (w : World)
    (filepath text : string) (rests after : list string) :
  read_text w filepath = Some text ->
  Str.readlines text = (map (append "//") rests ++ after)%list ->
  (after = [] \/ exists tl, after = Json.chr Json.LF :: tl) ->
  Forall no_marker rests ->
  Build.extract_prelude w filepath = Ret (Str.concat rests).
Proof.
  intros Hread Hlines Hafter Hall. unfold Build.extract_prelude.
  rewrite Hread, Hlines. now rewrite prelude_of_marked_lines.
Qed.

Lemma no_marker_sample : no_marker (" {}" ++ Json.chr Json.LF).
Proof.
  intros a b E.
  destruct a as [|a1 [|a2 [|a3 [|a4 [|a5 a]]]]]; simpl in E;
    try discriminate;
    repeat (injection E as E; subst);
    try discriminate.
Qed.

Lemma prelude_sample :
  Build.extract_prelude (Headers.world Headers.no_sentinel) "integration/t.c"
  = Ret (Str.concat [" {}" ++ Json.chr Json.LF]).
Proof.
  apply (prelude_of_header_up_to_blank_line_or_eof
           (Headers.world Headers.no_sentinel) "integration/t.c"
           Headers.no_sentinel [" {}" ++ Json.chr Json.LF] []).
  - reflexivity.
  - reflexivity.
  - left; reflexivity.
  - constructor; [apply no_marker_sample | constructor].
Defined.

(** C8 fails as stated: a file whose header runs to the end of the file,
    with no empty line after it, is extracted without an error, and the
    build step goes on to write its record. *)
Lemma header_without_sentinel_succeeds :
  ~ In (Json.chr Json.LF) (Str.readlines Headers.no_sentinel)
  /\ Build.extract_prelude (Headers.world Headers.no_sentinel) "integration/t.c"
     = Ret (" {}" ++ Json.chr Json.LF)
  /\ Build.build_test (Headers.world Headers.no_sentinel) "integration/t.c"
       "build" []
     = (Ret tt, [MakeDirs "build/integration";
                 WriteFile "build/integration/t.json"
                   ("{}" ++ Json.chr Json.LF)]).
Proof.
  split; [|split; reflexivity].
  intros [H | []]. discriminate.
Qed.

(** The marker inside the content of a line: what follows the second
    marker, and the newline with it, is dropped. *)
Lemma second_marker_cuts_line :
  Build.extract_prelude (Headers.world Headers.two_markers) "integration/t.c"
  = Ret " [1] ".
Proof. reflexivity. Qed.

(** *** The record across adapter calls *)

Lemma test_keeps_state (w : World) (cmd : list string) (cwd : string)
    (s : State) :
  snd (test w cmd cwd s) = s.
Proof.
  destruct (config s) as [ | | | | |d] eqn:E;
    try (unfold test, St.bind at 1, config_get; rewrite E; reflexivity).
  now rewrite (test_dict w cmd cwd s d E).
Qed.

Lemma run_adapter_state (a : adapter) (w : World) (filepath cwd : string)
    (s : State) (d : dict) :
  config s = JObj d ->
  snd (run_adapter a w filepath cwd s) = before_test a w d s.
Proof.
  intros Hd. rewrite (run_adapter_dict a w filepath cwd s d Hd).
  destruct (guest_cmd a w filepath d); try reflexivity.
  apply test_keeps_state.
Qed.

Lemma get_config_after (a : adapter) (d : dict) (key : string) (v : json) :
  (key = "env" /\ v = JObj []) \/ (key = "args" /\ v = JArr []) ->
  Dict.get (config_after a d) key = filled a d key v.
Proof.
  unfold filled.
  destruct a; simpl; try (intros _; reflexivity);
    intros [[-> ->] | [-> ->]]; unfold normalized;
    try apply args_normalized.
  - unfold Dict.get at 1. rewrite lookup_defaulted_other by reflexivity.
    apply get_defaulted_same.
  - unfold Dict.get at 1. rewrite lookup_defaulted_other by reflexivity.
    apply get_defaulted_same.
Qed.

(** C9, as the code has it.  An adapter call leaves every field of the
    record as it was, with one exception: the deno and node adapters put
    an empty dict where [env] is absent or null and an empty list where
    [args] is absent or null, in the dict that the adapters after them
    are handed as well. *)
Theorem adapter_changes_only_absent_env_and_args (a : adapter) (w : World)
    (filepath cwd : string) (s : State) (d : dict) :
  config s = JObj d ->
  exists d',
    config (snd (run_adapter a w filepath cwd s)) = JObj d'
    /\ Dict.get d' "env" = filled a d "env" (JObj [])
    /\ Dict.get d' "args" = filled a d "args" (JArr [])
    /\ (forall key, String.eqb "env" key = false ->
                    String.eqb "args" key = false ->
                    Dict.lookup key d' = Dict.lookup key d)
    /\ (glue a = false -> d' = d).
Proof.
  intros Hd. exists (config_after a d).
  rewrite (run_adapter_state a w filepath cwd s d Hd).
  split; [reflexivity|]. split; [apply get_config_after; auto|].
  split; [apply get_config_after; auto|]. split.
  - intros key He Ha. now apply lookup_config_after.
  - destruct a; simpl; intros H; try discriminate; reflexivity.
Qed.

Lemma adapter_changes_sample :
  exists d',
    config (snd (run_adapter Deno (Sample.world Sample.hi_text (Sample.prints "hi"))
                   "/repo/hello.wasm" "/tmp/tmp0"
                   (Sample.with_config Sample.hi_record))) = JObj d'
    /\ Dict.get d' "env" = filled Deno Sample.hi_record "env" (JObj [])
    /\ Dict.get d' "args" = filled Deno Sample.hi_record "args" (JArr [])
    /\ (forall key, String.eqb "env" key = false ->
                    String.eqb "args" key = false ->
                    Dict.lookup key d' = Dict.lookup key Sample.hi_record)
    /\ (glue Deno = false -> d' = Sample.hi_record).
Proof.
  apply (adapter_changes_only_absent_env_and_args Deno
           (Sample.world Sample.hi_text (Sample.prints "hi"))
           "/repo/hello.wasm" "/tmp/tmp0"
           (Sample.with_config Sample.hi_record) Sample.hi_record).
  reflexivity.
Defined.

(** C9 fails as stated: the deno adapter adds two fields to the record,
    and the wasmer adapter, which is handed the same dict afterwards,
    builds another command than it would have built from the record as
    loaded. *)
Lemma deno_adds_env_and_args :
  let w := Sample.world Sample.hi_text (Sample.prints "hi") in
  let s := Sample.with_config Sample.hi_record in
  let s' := snd (run_adapter Deno w "/repo/hello.wasm" "/tmp/tmp0" s) in
  config s = JObj [("stdout", JStr "hi")]
  /\ config s' = JObj [("stdout", JStr "hi"); ("env", JObj []);
                       ("args", JArr [])]
  /\ fst (build_cmd (wasmer_cmd "/repo/hello.wasm") s)
     = Ret ["wasmer"; "run"; "/repo/hello.wasm"]
  /\ fst (build_cmd (wasmer_cmd "/repo/hello.wasm") s')
     = Ret ["wasmer"; "run"; "/repo/hello.wasm"; "--"].
Proof. repeat split. Qed.

(** *** The files of an adapter *)

Lemma run_adapter_trace (a : adapter) (w : World) (filepath cwd : string)
    (s : State) :
  trace (snd (run_adapter a w filepath cwd s)) = (trace s ++ written a w)%list.
Proof.
  destruct (config s) as [ | | | | |d] eqn:E;
    try (destruct (run_adapter_not_dict a w filepath cwd s) as [r ->];
         [intros d; rewrite E; discriminate | reflexivity]).
  now rewrite (run_adapter_state a w filepath cwd s d E).
Qed.

Lemma split_last_sep_none (s : string) :
  mentions OsPath.SEP s = false -> OsPath.split_last_sep s = None.
Proof.
  induction s as [|c s IH]; simpl; [reflexivity|].
  intros H. apply orb_false_elim in H as [Hc Hs].
  now rewrite IH, Hc.
Qed.

Lemma split_last_sep_dir (dir name : string) :
  mentions OsPath.SEP name = false ->
  OsPath.split_last_sep (dir ++ "/" ++ name) = Some (dir ++ "/", name).
Proof.
  intros H. induction dir as [|c dir IH]; simpl.
  - now rewrite split_last_sep_none.
  - simpl in IH. now rewrite IH.
Qed.

Lemma split_last_dot_wasm (name : string) :
  OsPath.split_last_dot (name ++ ".wasm") = Some (name, ".wasm").
Proof.
  induction name as [|c name IH]; simpl; [reflexivity | now rewrite IH].
Qed.

Lemma mentions_app (c : ascii) (a b : string) :
  mentions c (a ++ b) = mentions c a || mentions c b.
Proof.
  induction a as [|x a IH]; simpl; [reflexivity|].
  now rewrite IH, orb_assoc.
Qed.

(** The object of an artifact lies next to it. *)
Lemma wasmedge_so_next_to_artifact (dir name : string) :
  mentions OsPath.SEP name = false -> OsPath.only_dots name = false ->
  wasmedge_so (dir ++ "/" ++ name ++ ".wasm") = dir ++ "/" ++ name ++ ".so".
Proof.
  intros Hsep Hdots. unfold wasmedge_so, OsPath.splitext.
  rewrite split_last_sep_dir.
  - rewrite split_last_dot_wasm, Hdots. simpl. now rewrite !append_assoc.
  - rewrite mentions_app, Hsep. reflexivity.
Qed.

(** A directory with its separator is a prefix of a path only up to the
    last separator of the path. *)
Lemma prefix_cons (a b : ascii) (p s : string) :
  prefix (String a p) (String b s)
  = if ascii_dec a b then prefix p s else false.
Proof. reflexivity. Qed.

Lemma prefix_nil (s : string) : prefix EmptyString s = true.
Proof. now destruct s. Qed.

Lemma prefix_cut (name : string) :
  mentions OsPath.SEP name = false ->
  forall base dir,
    prefix (dir ++ "/") (base ++ name) = true ->
    prefix (dir ++ "/") base = true.
Proof.
  intros Hname. induction base as [|c base IH]; intros dir.
  - intros H. exfalso. revert dir H.
    induction name as [|x name IHn]; intros dir.
    + destruct dir; discriminate.
    + cbn [mentions] in Hname. apply orb_false_elim in Hname as [Hx Hn].
      destruct dir as [|y dir]; cbn [append]; rewrite prefix_cons.
      * destruct (ascii_dec "/" x) as [<-|]; [|discriminate].
        vm_compute in Hx. discriminate.
      * destruct (ascii_dec y x); [|discriminate]. apply (IHn Hn dir).
  - destruct dir as [|y dir]; cbn [append]; rewrite !prefix_cons.
    + destruct (ascii_dec "/" c); [|discriminate].
      intros _. apply prefix_nil.
    + destruct (ascii_dec y c); [|discriminate]. apply IH.
Qed.

Lemma prefix_app (p s x : string) :
  prefix p s = true -> prefix p (s ++ x) = true.
Proof.
  revert s. induction p as [|a p IH]; intros s;
    [intros _; apply prefix_nil|].
  destruct s as [|b s]; [discriminate|].
  cbn [append]. rewrite !prefix_cons.
  destruct (ascii_dec a b); [apply IH | discriminate].
Qed.

(** A file put into a directory that is not under [workdir] is not under
    [workdir]. *)
Lemma join_outside (workdir dir name : string) :
  mentions OsPath.SEP name = false ->
  inside workdir (dir ++ "/") = false ->
  inside workdir (OsPath.join dir name) = false.
Proof.
  intros Hname Hdir. unfold inside in *.
  destruct (prefix (workdir ++ "/") (OsPath.join dir name)) eqn:E;
    [|reflexivity].
  rewrite <- Hdir. symmetry. unfold OsPath.join in E.
  assert (Habs : OsPath.isabs name = false).
  { destruct name as [|x name]; [reflexivity|]. cbn [mentions] in Hname.
    apply orb_false_elim in Hname as [Hx _]. unfold OsPath.isabs.
    rewrite prefix_cons.
    destruct (ascii_dec "/" x) as [<-|];
      [vm_compute in Hx; discriminate | reflexivity]. }
  rewrite Habs in E. destruct dir as [|c dir].
  - apply (prefix_cut name Hname EmptyString) in E. now apply prefix_app.
  - destruct (OsPath.ends_with_sep (String c dir)).
    + apply (prefix_cut name Hname) in E. now apply prefix_app.
    + rewrite <- append_assoc in E. now apply (prefix_cut name Hname) in E.
Qed.

(** An adapter handed something that is not a dict, in full. *)
Lemma run_adapter_not_dict_eq (a : adapter) (w : World) (filepath cwd : string)
    (s : State) :
  (forall d, config s <> JObj d) ->
  run_adapter a w filepath cwd s
  = (match a with
     | Wasmedge => check_call w (wasmedgec_cmd filepath) ;;;
                   Raise AttributeError
     | _ => Raise AttributeError
     end,
     {| config := config s; trace := (trace s ++ written a w)%list;
        out := out s; temps := temps s |}).
Proof.
  destruct s as [c tr o n]. simpl. intros Hc.
  assert (Hget : forall key tr',
    config_get key {| config := c; trace := tr'; out := o; temps := n |}
    = (Raise AttributeError,
       {| config := c; trace := tr'; out := o; temps := n |})).
  { intros key tr'. unfold config_get. simpl.
    destruct c; try reflexivity. now destruct (Hc d). }
  assert (Hbuild : forall f,
    build_cmd f {| config := c; trace := tr; out := o; temps := n |}
    = (Raise AttributeError,
       {| config := c; trace := tr; out := o; temps := n |})).
  { intros f. unfold build_cmd. simpl.
    destruct c; try reflexivity. now destruct (Hc d). }
  destruct a; simpl; rewrite ?app_nil_r.
  - unfold test_deno, St.bind at 1, write_file, St.modify, log. simpl.
    unfold St.bind at 1, default_in_place, St.bind at 1. now rewrite Hget.
  - unfold test_node, St.bind at 1, write_file, St.modify, log. simpl.
    unfold St.bind at 1, default_in_place, St.bind at 1. now rewrite Hget.
  - unfold test_wasmer, St.bind at 1. now rewrite Hbuild.
  - unfold test_wasmtime, St.bind at 1. now rewrite Hbuild.
  - unfold test_wasmedge, St.bind at 1, St.lift.
    destruct (check_call w (wasmedgec_cmd filepath)); try reflexivity.
    unfold St.bind at 1. now rewrite Hbuild.
Qed.

(** The children of an adapter: its guest, started in [cwd], and for
    wasmedge the compiler, started where the script is. *)
Lemma run_adapter_same_children (a : adapter) (w w' : World)
    (filepath cwd : string) (s : State) :
  same_children w w' cwd (wasmedgec_cmd filepath) ->
  run_adapter a w' filepath cwd s = run_adapter a w filepath cwd s.
Proof.
  intros [Hcwd [Hrun Hcc]].
  assert (Hcall : check_call w' (wasmedgec_cmd filepath)
                  = check_call w (wasmedgec_cmd filepath)).
  { unfold check_call. now rewrite Hcwd, Hcc. }
  assert (Hwritten : written a w' = written a w).
  { unfold written. now rewrite Hcwd. }
  destruct (config s) as [ | | | | |d] eqn:E;
    try (rewrite !run_adapter_not_dict_eq
           by (intros d; rewrite E; discriminate);
         now rewrite Hcall, Hwritten).
  rewrite !(run_adapter_dict a _ filepath cwd s d E).
  assert (Hcmd : guest_cmd a w' filepath d = guest_cmd a w filepath d).
  { destruct a; simpl; now rewrite ?Hcwd, ?Hcall. }
  assert (Hstate : before_test a w' d s = before_test a w d s).
  { unfold before_test. now rewrite Hwritten. }
  rewrite Hcmd, Hstate.
  destruct (guest_cmd a w filepath d) as [cmd| |]; try reflexivity.
  rewrite !(test_dict _ cmd cwd _ (config_after a d)) by reflexivity.
  unfold run.
  destruct (Dict.get (config_after a d) "stdin"); now rewrite Hrun.
Qed.

(** C10, as the code has it.  The workspace of a case is the directory
    its guests are started in, and nothing else: no file made for an
    adapter is put there.  With the script directory and the directory
    of the artifact not under the workspace:
    - all an adapter call does to the file tree is that the deno and the
      node adapter write their glue program, under a fixed name in the
      script directory; nothing is removed by any adapter;
    - these two files are not under the workspace;
    - the wasmedge adapter has its compiler put the object next to the
      artifact, which is not under the workspace either;
    - the workspace is where the guest runs: what the children of the
      adapter would do when started anywhere but in the workspace (and,
      for the compiler, in the script directory) has no bearing on the
      adapter call. *)
Theorem adapter_writes_glue_outside_workspace (a : adapter) (w : World)
    (dir name workdir : string) (s : State) :
  mentions OsPath.SEP name = false -> OsPath.only_dots name = false ->
  inside workdir (getcwd w ++ "/") = false ->
  inside workdir (dir ++ "/") = false ->
  trace (snd (run_adapter a w (dir ++ "/" ++ name ++ ".wasm") workdir s))
  = (trace s
     ++ match a with
        | Deno => [WriteFile (OsPath.join (getcwd w) ".deno.ts") DENO_GLUE]
        | Node => [WriteFile (OsPath.join (getcwd w) ".node.js") NODE_GLUE]
        | _ => []
        end)%list
  /\ inside workdir (OsPath.join (getcwd w) ".deno.ts") = false
  /\ inside workdir (OsPath.join (getcwd w) ".node.js") = false
  /\ wasmedgec_cmd (dir ++ "/" ++ name ++ ".wasm")
     = ["wasmedgec"; dir ++ "/" ++ name ++ ".wasm"; dir ++ "/" ++ name ++ ".so"]
  /\ inside workdir (dir ++ "/" ++ name ++ ".so") = false
  /\ (forall w',
        same_children w w' workdir
          (wasmedgec_cmd (dir ++ "/" ++ name ++ ".wasm")) ->
        run_adapter a w' (dir ++ "/" ++ name ++ ".wasm") workdir s
        = run_adapter a w (dir ++ "/" ++ name ++ ".wasm") workdir s).
Proof.
  intros Hsep Hdots Hcwd Hdir.
  split; [apply run_adapter_trace|].
  split; [now apply join_outside|].
  split; [now apply join_outside|].
  split; [unfold wasmedgec_cmd; now rewrite wasmedge_so_next_to_artifact|].
  split.
  - unfold inside in *.
    destruct (prefix (workdir ++ "/") (dir ++ "/" ++ name ++ ".so")) eqn:E;
      [|reflexivity].
    rewrite <- Hdir. symmetry.
    rewrite <- append_assoc in E.
    apply (prefix_cut (name ++ ".so")) in E; [exact E|].
    now rewrite mentions_app, Hsep.
  - intros w'. apply run_adapter_same_children.
Qed.

Lemma adapter_writes_sample :
  let w := Sample.world Sample.hi_text (Sample.prints "hi") in
  let s := Sample.with_config Sample.hi_record in
  trace (snd (run_adapter Deno w ("/repo/target" ++ "/" ++ "hello" ++ ".wasm")
                "/tmp/tmp0" s))
  = (trace s ++ [WriteFile (OsPath.join (getcwd w) ".deno.ts") DENO_GLUE])%list
  /\ inside "/tmp/tmp0" (OsPath.join (getcwd w) ".deno.ts") = false
  /\ inside "/tmp/tmp0" (OsPath.join (getcwd w) ".node.js") = false
  /\ wasmedgec_cmd ("/repo/target" ++ "/" ++ "hello" ++ ".wasm")
     = ["wasmedgec"; "/repo/target" ++ "/" ++ "hello" ++ ".wasm";
        "/repo/target" ++ "/" ++ "hello" ++ ".so"]
  /\ inside "/tmp/tmp0" ("/repo/target" ++ "/" ++ "hello" ++ ".so") = false
  /\ (forall w',
        same_children w w' "/tmp/tmp0"
          (wasmedgec_cmd ("/repo/target" ++ "/" ++ "hello" ++ ".wasm")) ->
        run_adapter Deno w' ("/repo/target" ++ "/" ++ "hello" ++ ".wasm")
          "/tmp/tmp0" s
        = run_adapter Deno w ("/repo/target" ++ "/" ++ "hello" ++ ".wasm")
            "/tmp/tmp0" s).
Proof.
  apply (adapter_writes_glue_outside_workspace Deno
           (Sample.world Sample.hi_text (Sample.prints "hi"))
           "/repo/target" "hello" "/tmp/tmp0"
           (Sample.with_config Sample.hi_record)); reflexivity.
Defined.

(** C10 fails as stated: the glue program of the deno adapter is written
    where the harness was started, which lies neither in the workspace of
    the case nor in the scratch directory, and it is still there when the
    run of the whole matrix is over. *)
Lemma glue_program_outside_workspace :
  let w := Sample.world Sample.hi_text (Sample.prints "hi") in
  let s := Sample.with_config Sample.hi_record in
  let s' := snd (cell w Sample.ARTIFACT "/tmp/tmp0" Deno s) in
  In (WriteFile "/repo/.deno.ts" DENO_GLUE) (trace s')
  /\ inside "/tmp/tmp0" "/repo/.deno.ts" = false
  /\ inside (OsPath.abspath (getcwd w) "scratch") "/repo/.deno.ts" = false
  /\ confined "/tmp/tmp0" (written Deno w) = false
  /\ In (WriteFile "/repo/.deno.ts" DENO_GLUE) (trace (snd (main w initial)))
  /\ ~ In (RmTree "/repo/.deno.ts") (trace (snd (main w initial))).
Proof.
  vm_compute. repeat split; auto.
  intros H. repeat (destruct H as [H | H]; [discriminate|]). exact H.
Qed.

End HarnessFacts.

(** ** The build step *)

Module BuildFacts.

Import More JsonSpec JsonFacts HarnessFacts.

Lemma writes_app (a b : list event) :
  writes (a ++ b)%list = (writes a ++ writes b)%list.
Proof. unfold writes. apply filter_app. Qed.

Lemma ensure_dir_writes (w : World) (dirpath : string) (tr : list event) :
  fst (Build.ensure_dir w dirpath tr) = Ret tt
  /\ writes (snd (Build.ensure_dir w dirpath tr)) = writes tr.
Proof.
  unfold Build.ensure_dir.
  destruct (path_exists w dirpath || _); simpl; [auto|].
  split; [reflexivity|]. rewrite writes_app. simpl. apply app_nil_r.
Qed.

(** [build_test] as its three steps: the directory, the compiler, the
    record. *)
Lemma build_test_steps (w : World) (filepath outdir : string)
    (tr : list event) :
  Build.build_test w filepath outdir tr
  = let tr1 := snd (Build.ensure_dir w
                      (OsPath.join outdir (OsPath.dirname filepath)) tr) in
    match compiler_cmd filepath outdir with
    | None => (Raise ValueError, tr1)
    | Some cmd =>
        match Subprocess.check_call w cmd with
        | Ret _ =>
            match (prelude <- Build.extract_prelude w filepath ;;
                   Json.loads prelude) with
            | Ret config =>
                (Ret tt, (tr1 ++ [WriteFile (record_path filepath outdir)
                                    (Build.persist config)])%list)
            | Raise e => (Raise e, tr1)
            | Hang => (Hang, tr1)
            end
        | Raise e => (Raise e, tr1)
        | Hang => (Hang, tr1)
        end
    end.
Proof.
  assert (Hdir : forall p, Build.ensure_dir w p tr
                           = (Ret tt, snd (Build.ensure_dir w p tr))).
  { intros p. unfold Build.ensure_dir.
    destruct (path_exists w p || _); reflexivity. }
  unfold Build.build_test, compiler_cmd, record_path, St.bind at 1.
  rewrite Hdir. cbv zeta.
  destruct (OsPath.splitext filepath) as [basename ext]. simpl fst.
  unfold St.bind, St.lift, St.raise, St.modify.
  destruct (String.eqb ext ".c").
  - destruct (Subprocess.check_call w _); reflexivity.
  - destruct (String.eqb ext ".rs"); [|reflexivity].
    destruct (Subprocess.check_call w _); reflexivity.
Qed.

Lemma build_test_dir_writes (w : World) (p : string) (tr : list event) :
  writes (snd (Build.ensure_dir w p tr)) = writes tr.
Proof. apply ensure_dir_writes. Qed.

(** X1.  A source whose extension is neither [.c] nor [.rs] is refused
    with [ValueError]: no compiler is asked, the header is not read and no
    record is written, whatever the file holds. *)
Theorem build_refuses_other_extensions (w : World) (filepath outdir : string)
    (tr : list event) :
  snd (OsPath.splitext filepath) <> ".c" ->
  snd (OsPath.splitext filepath) <> ".rs" ->
  fst (Build.build_test w filepath outdir tr) = Raise ValueError
  /\ writes (snd (Build.build_test w filepath outdir tr)) = writes tr.
Proof.
  intros Hc Hrs. rewrite build_test_steps. cbv zeta.
  assert (E : compiler_cmd filepath outdir = None).
  { unfold compiler_cmd. destruct (OsPath.splitext filepath) as [b ext].
    simpl in Hc, Hrs.
    destruct (String.eqb ext ".c") eqn:E1;
      [apply String.eqb_eq in E1; contradiction|].
    destruct (String.eqb ext ".rs") eqn:E2;
      [apply String.eqb_eq in E2; contradiction|]. reflexivity. }
  rewrite E. split; [reflexivity | apply build_test_dir_writes].
Qed.

Lemma build_refuses_sample :
  fst (Build.build_test (Builds.world "integration/t.py" Builds.source
                           Builds.compiled) "integration/t.py" "build" [])
  = Raise ValueError
  /\ writes (snd (Build.build_test
                    (Builds.world "integration/t.py" Builds.source
                       Builds.compiled) "integration/t.py" "build" []))
     = writes [].
Proof.
  apply (build_refuses_other_extensions
           (Builds.world "integration/t.py" Builds.source Builds.compiled)
           "integration/t.py" "build" []); discriminate.
Defined.

(** X2.  When the compiler does not return normally (it exits with another
    status than 0, cannot be started, or never exits), [build_test] ends
    the same way and writes no record. *)
Theorem failed_compile_writes_no_record (w : World) (filepath outdir : string)
    (tr : list event) (cmd : list string) (r : res unit) :
  compiler_cmd filepath outdir = Some cmd ->
  Subprocess.check_call w cmd = r ->
  returns r = false ->
  fst (Build.build_test w filepath outdir tr) = r
  /\ writes (snd (Build.build_test w filepath outdir tr)) = writes tr.
Proof.
  intros Hcmd Hcall Hr. rewrite build_test_steps. cbv zeta.
  rewrite Hcmd, Hcall.
  destruct r as [u|e|]; [discriminate| |];
    (split; [reflexivity | apply build_test_dir_writes]).
Qed.

Lemma failed_compile_sample :
  fst (Build.build_test (Builds.world "integration/t.c" Builds.source
                           Builds.rejected) "integration/t.c" "build" [])
  = Raise CalledProcessError
  /\ writes (snd (Build.build_test
                    (Builds.world "integration/t.c" Builds.source
                       Builds.rejected) "integration/t.c" "build" []))
     = writes [].
Proof.
  apply (failed_compile_writes_no_record
           (Builds.world "integration/t.c" Builds.source Builds.rejected)
           "integration/t.c" "build" []
           ["clang"; "-target"; "wasm32-wasi"; "-o";
            "build/integration/t.wasm"; "integration/t.c"]);
    reflexivity.
Defined.

(** X3.  When the compiler returns and the header is JSON, [build_test]
    writes one file, the record, beside the compiled module
    ([outdir/stem.json]), and the harness loads from that text the value
    the header held, with the keys of every dict sorted. *)
Theorem build_writes_record_that_loads_back (w : World)
    (filepath outdir : string) (tr : list event) (cmd : list string)
    (prelude : string) (record : json) :
  compiler_cmd filepath outdir = Some cmd ->
  Subprocess.check_call w cmd = Ret tt ->
  Build.extract_prelude w filepath = Ret prelude ->
  Json.loads prelude = Ret record ->
  fst (Build.build_test w filepath outdir tr) = Ret tt
  /\ writes (snd (Build.build_test w filepath outdir tr))
     = (writes tr ++ [WriteFile (record_path filepath outdir)
                        (Build.persist record)])%list
  /\ (forall w' path, read_text w' path = Some (Build.persist record) ->
        Compat.load_config w' path = Ret (Json.sort_keys record)).
Proof.
  intros Hcmd Hcall Hpre Hload. rewrite build_test_steps. cbv zeta.
  rewrite Hcmd, Hcall, Hpre. simpl bind. rewrite Hload.
  split; [reflexivity|]. split.
  - simpl snd. rewrite writes_app, build_test_dir_writes. reflexivity.
  - intros w' path Hread. unfold Compat.load_config. rewrite Hread.
    apply (loads_dumps true (Some 2)); [|reflexivity].
    now apply (loads_unique_keys prelude).
Qed.

Lemma build_writes_record_sample :
  let w := Builds.world "integration/t.c" Builds.source Builds.compiled in
  fst (Build.build_test w "integration/t.c" "build" []) = Ret tt
  /\ writes (snd (Build.build_test w "integration/t.c" "build" []))
     = (writes [] ++ [WriteFile (record_path "integration/t.c" "build")
                        (Build.persist (JArr [JInt 7]))])%list
  /\ (forall w' path,
        read_text w' path = Some (Build.persist (JArr [JInt 7])) ->
        Compat.load_config w' path = Ret (Json.sort_keys (JArr [JInt 7]))).
Proof.
  apply (build_writes_record_that_loads_back
           (Builds.world "integration/t.c" Builds.source Builds.compiled)
           "integration/t.c" "build" []
           ["clang"; "-target"; "wasm32-wasi"; "-o";
            "build/integration/t.wasm"; "integration/t.c"]
           (" [7]" ++ Json.chr Json.LF)); reflexivity.
Defined.

(** X4.  A header that is empty (the file is empty, or its first line is
    the empty line) is not JSON: after a compilation that went well,
    [build_test] raises [JSONDecodeError] and writes no record. *)
Theorem empty_header_is_no_record (w : World) (filepath outdir text : string)
    (tr : list event) (cmd : list string) :
  read_text w filepath = Some text ->
  (Str.readlines text = []
   \/ exists tl, Str.readlines text = Json.chr Json.LF :: tl) ->
  compiler_cmd filepath outdir = Some cmd ->
  Subprocess.check_call w cmd = Ret tt ->
  Build.extract_prelude w filepath = Ret EmptyString
  /\ fst (Build.build_test w filepath outdir tr) = Raise JSONDecodeError
  /\ writes (snd (Build.build_test w filepath outdir tr)) = writes tr.
Proof.
  intros Hread Hlines Hcmd Hcall.
  assert (Hpre : Build.extract_prelude w filepath = Ret EmptyString).
  { unfold Build.extract_prelude. rewrite Hread.
    destruct Hlines as [-> | [tl ->]]; reflexivity. }
  split; [exact Hpre|]. rewrite build_test_steps. cbv zeta.
  rewrite Hcmd, Hcall, Hpre.
  split; [reflexivity | apply build_test_dir_writes].
Qed.

Lemma empty_header_sample :
  let w := Builds.world "integration/t.c" (Json.chr Json.LF ++ "int main;")
             Builds.compiled in
  Build.extract_prelude w "integration/t.c" = Ret EmptyString
  /\ fst (Build.build_test w "integration/t.c" "build" [])
     = Raise JSONDecodeError
  /\ writes (snd (Build.build_test w "integration/t.c" "build" []))
     = writes [].
Proof.
  apply (empty_header_is_no_record
           (Builds.world "integration/t.c" (Json.chr Json.LF ++ "int main;")
              Builds.compiled)
           "integration/t.c" "build" (Json.chr Json.LF ++ "int main;") []
           ["clang"; "-target"; "wasm32-wasi"; "-o";
            "build/integration/t.wasm"; "integration/t.c"]).
  - reflexivity.
  - right. eexists. reflexivity.
  - reflexivity.
  - reflexivity.
Defined.

(** X5.  The build step has no handler: the first source that fails to
    build ends the run, with the records of the sources before it written
    and the sources after it not looked at. *)
Theorem build_stops_at_first_failure (w : World) (before after : list string)
    (filepath : string) (tr1 : list event) :
  glob w "integration/*.*" = (before ++ filepath :: after)%list ->
  St.for_each before (fun f => Build.build_test w f "build") []
  = (Ret tt, tr1) ->
  returns (fst (Build.build_test w filepath "build" tr1)) = false ->
  Build.main w [] = Build.build_test w filepath "build" tr1.
Proof.
  intros Hglob Hbefore Hfail. unfold Build.main.
  rewrite Hglob, for_each_app, Hbefore. simpl St.for_each.
  unfold St.bind.
  destruct (Build.build_test w filepath "build" tr1) as [[u|e|] tr2];
    [discriminate | reflexivity | reflexivity].
Qed.

Lemma build_stops_sample :
  Build.main (Builds.world "integration/t.c" Builds.source Builds.rejected) []
  = Build.build_test
      (Builds.world "integration/t.c" Builds.source Builds.rejected)
      "integration/t.c" "build" [].
Proof.
  apply (build_stops_at_first_failure
           (Builds.world "integration/t.c" Builds.source Builds.rejected)
           [] [] "integration/t.c" []); reflexivity.
Defined.

End BuildFacts.

(** ** The header of a source file *)

Module HeaderFacts.

Import More JsonFacts HarnessFacts Contract.

Lemma split_from_nonempty (sep : string) (s : string) :
  forall skip, exists x xs, Str.split_from sep skip s = x :: xs.
Proof.
  induction s as [|c s IH]; intros skip.
  - simpl. now exists EmptyString, [].
  - destruct skip as [|k]; [|apply IH].
    change (Str.split_from sep 0 (String c s))
      with (if prefix sep (String c s)
            then EmptyString :: Str.split_from sep (String.length sep - 1) s
            else Str.cons_head c (Str.split_from sep 0 s)).
    destruct (prefix sep (String c s)).
    + eexists. eexists. reflexivity.
    + destruct (IH 0) as [x [xs ->]]. eexists. eexists. reflexivity.
Qed.

Lemma prefix_marker_true (t : string) : prefix "//" ("//" ++ t) = true.
Proof. destruct t; reflexivity. Qed.

Lemma no_marker_prefix_false (c : ascii) (a t : string) :
  no_marker (String c a ++ "/") ->
  prefix "//" (String c a ++ "//" ++ t) = false.
Proof.
  intros H. destruct (prefix "//" (String c a ++ "//" ++ t)) eqn:E;
    [|reflexivity].
  apply prefix_marker in E as [rest E]. simpl in E. injection E as -> E.
  destruct a as [|c2 a]; simpl in E.
  - now destruct (H EmptyString EmptyString).
  - injection E as -> _. now destruct (H EmptyString (a ++ "/")).
Qed.

Lemma split_marker_unfold (t : string) :
  Str.split ("//" ++ t) "//" = EmptyString :: Str.split t "//".
Proof. unfold Str.split. destruct t; reflexivity. Qed.

(** The first piece of a split is what stands before the first marker. *)
Lemma split_first_piece (a t : string) :
  no_marker (a ++ "/") ->
  Str.split (a ++ "//" ++ t) "//" = a :: Str.split t "//".
Proof.
  induction a as [|c a IH]; intros H.
  - apply split_marker_unfold.
  - unfold Str.split in *.
    change (Str.split_from "//" 0 (String c a ++ "//" ++ t))
      with (if prefix "//" (String c a ++ "//" ++ t)
            then EmptyString
                 :: Str.split_from "//" (String.length "//" - 1)
                      (a ++ "//" ++ t)
            else Str.cons_head c (Str.split_from "//" 0 (a ++ "//" ++ t))).
    rewrite no_marker_prefix_false by exact H.
    rewrite IH by now apply no_marker_tail in H. reflexivity.
Qed.

Lemma no_marker_without_slash (b : string) :
  no_marker (b ++ "/") -> no_marker b.
Proof.
  intros H x y E. apply (H x (y ++ "/")). rewrite E.
  now rewrite !append_assoc.
Qed.

Lemma marker_line_not_blank (line : string) :
  has_marker line -> String.eqb line (Json.chr Json.LF) = false.
Proof.
  intros [a [b ->]].
  destruct a as [|c [|c2 a]]; simpl; try reflexivity;
    destruct (Ascii.eqb c Json.LF); reflexivity.
Qed.

Lemma has_marker_tail (c : ascii) (r : string) :
  has_marker (String c r) -> prefix "//" (String c r) = false -> has_marker r.
Proof.
  intros [a [b E]] Hp. destruct a as [|c' a].
  - pose proof (prefix_marker_true b) as T.
    change ("//" ++ b) with (EmptyString ++ "//" ++ b) in T.
    rewrite <- E in T. congruence.
  - simpl in E. injection E as _ ->. now exists a, b.
Qed.

Lemma split_second_piece (line : string) :
  has_marker line ->
  exists p q rest, Str.split line "//" = p :: q :: rest.
Proof.
  unfold Str.split. induction line as [|c r IH]; intros H.
  - destruct H as [a [b E]]. destruct a; discriminate.
  - change (Str.split_from "//" 0 (String c r))
      with (if prefix "//" (String c r)
            then EmptyString :: Str.split_from "//" (String.length "//" - 1) r
            else Str.cons_head c (Str.split_from "//" 0 r)).
    destruct (prefix "//" (String c r)) eqn:E.
    + destruct (split_from_nonempty "//" r (String.length "//" - 1))
        as [x [xs ->]]. eauto.
    + destruct (IH (has_marker_tail c r H E)) as [p [q [rest ->]]].
      simpl. eauto.
Qed.

(** X6.  A header line that has no marker in it (and is not the empty
    line) makes [extract_prelude] raise [IndexError], whatever the lines
    before it held. *)
Theorem header_line_without_marker_raises (w : World) (filepath text : string)
    (before : list string) (line : string) (after : list string) :
  read_text w filepath = Some text ->
  Str.readlines text = (before ++ line :: after)%list ->
  Forall has_marker before ->
  no_marker line ->
  line <> Json.chr Json.LF ->
  Build.extract_prelude w filepath = Raise IndexError.
Proof.
  intros Hread Hlines Hbefore Hline Hblank.
  unfold Build.extract_prelude. rewrite Hread, Hlines.
  clear Hread Hlines.
  assert (Hloop : forall acc,
            Build.prelude_of_lines (before ++ line :: after)%list acc
            = Raise IndexError); [|apply Hloop].
  induction Hbefore as [|l before Hl Hbefore IH]; intros acc.
  - change ([] ++ line :: after)%list with (line :: after).
    change (Build.prelude_of_lines (line :: after) acc)
      with (if String.eqb line (Json.chr Json.LF) then Ret acc
            else match nth_error (Str.split line "//") 1 with
                 | Some part => Build.prelude_of_lines after (acc ++ part)
                 | None => Raise IndexError
                 end).
    destruct (String.eqb line (Json.chr Json.LF)) eqn:E;
      [apply String.eqb_eq in E; contradiction|].
    now rewrite split_no_marker.
  - change (Build.prelude_of_lines ((l :: before) ++ line :: after)%list acc)
      with (if String.eqb l (Json.chr Json.LF) then Ret acc
            else match nth_error (Str.split l "//") 1 with
                 | Some part =>
                     Build.prelude_of_lines (before ++ line :: after)%list
                       (acc ++ part)
                 | None => Raise IndexError
                 end).
    rewrite marker_line_not_blank by exact Hl.
    destruct (split_second_piece l Hl) as [p [q [rest ->]]].
    simpl nth_error. cbv beta iota. apply IH.
Qed.

Lemma no_marker_code : no_marker "int main;".
Proof.
  intros a b E.
  repeat (destruct a as [|? a]; simpl in E; [discriminate|];
          injection E as _ E).
  destruct a; discriminate.
Qed.

Lemma header_line_without_marker_sample :
  Build.extract_prelude
    (Headers.world ("// [7]" ++ Json.chr Json.LF ++ "int main;"))
    "integration/t.c"
  = Raise IndexError.
Proof.
  apply (header_line_without_marker_raises
           (Headers.world ("// [7]" ++ Json.chr Json.LF ++ "int main;"))
           "integration/t.c" ("// [7]" ++ Json.chr Json.LF ++ "int main;")
           ["// [7]" ++ Json.chr Json.LF] "int main;" []).
  - reflexivity.
  - reflexivity.
  - constructor; [|constructor]. now exists EmptyString, (" [7]" ++ Json.chr Json.LF).
  - apply no_marker_code.
  - discriminate.
Defined.

Lemma line_of_has_marker (p : marked_line) : has_marker (line_of p).
Proof. now exists (before_marker p), (kept p ++ cut_off p). Qed.

Lemma split_line_of (p : marked_line) :
  cut_at_markers p ->
  exists rest, Str.split (line_of p) "//" = before_marker p :: kept p :: rest.
Proof.
  intros [Ha [Hb Ht]]. unfold line_of.
  rewrite split_first_piece by exact Ha.
  destruct Ht as [-> | [u ->]].
  - rewrite append_nil_r, split_no_marker; [eauto|].
    now apply no_marker_without_slash.
  - rewrite split_first_piece by exact Hb. eauto.
Qed.

Lemma prelude_of_cut_lines (pieces : list marked_line) (after : list string)
    (acc : string) :
  Forall cut_at_markers pieces ->
  (after = [] \/ exists tl, after = Json.chr Json.LF :: tl) ->
  Build.prelude_of_lines (map line_of pieces ++ after)%list acc
  = Ret (acc ++ Str.concat (map kept pieces)).
Proof.
  intros Hall Hafter. revert acc.
  induction Hall as [|p pieces Hp Hall IH]; intros acc.
  - simpl. rewrite append_nil_r.
    destruct Hafter as [-> | [tl ->]]; reflexivity.
  - change (Build.prelude_of_lines (map line_of (p :: pieces) ++ after)%list acc)
      with (if String.eqb (line_of p) (Json.chr Json.LF) then Ret acc
            else match nth_error (Str.split (line_of p) "//") 1 with
                 | Some part =>
                     Build.prelude_of_lines (map line_of pieces ++ after)%list
                       (acc ++ part)
                 | None => Raise IndexError
                 end).
    rewrite marker_line_not_blank by apply line_of_has_marker.
    destruct (split_line_of p Hp) as [rest ->].
    simpl nth_error. cbv beta iota. rewrite IH.
    simpl Str.concat. simpl map. now rewrite append_assoc.
Qed.

(** X7.  Of each header line [extract_prelude] keeps the text between the
    first marker and the second one, or the end of the line when there is
    no second: what stands before the first marker is dropped, and so is
    everything from a second marker on, the newline included. *)
Theorem prelude_keeps_text_between_markers (w : World) (filepath text : string)
    (pieces : list marked_line) (after : list string) :
  read_text w filepath = Some text ->
  Str.readlines text = (map line_of pieces ++ after)%list ->
  (after = [] \/ exists tl, after = Json.chr Json.LF :: tl) ->
  Forall cut_at_markers pieces ->
  Build.extract_prelude w filepath = Ret (Str.concat (map kept pieces)).
Proof.
  intros Hread Hlines Hafter Hall. unfold Build.extract_prelude.
  rewrite Hread, Hlines. now rewrite prelude_of_cut_lines.
Qed.

(** A text given in full has no marker: no split of it has one. *)
Ltac no_marker_in_literal :=
  let a := fresh "a" in
  let b := fresh "b" in
  let E := fresh "E" in
  intros a b E;
  repeat (destruct a as [|? a]; simpl in E; [discriminate|];
          injection E as _ E);
  destruct a; discriminate.

Lemma prelude_keeps_sample :
  Build.extract_prelude (Headers.world Headers.two_markers) "integration/t.c"
  = Ret (Str.concat
           (map kept [ {| before_marker := EmptyString; kept := " [1] ";
                          cut_off := "// [2]" ++ Json.chr Json.LF |} ])).
Proof.
  apply (prelude_keeps_text_between_markers
           (Headers.world Headers.two_markers) "integration/t.c"
           Headers.two_markers
           [ {| before_marker := EmptyString; kept := " [1] ";
                cut_off := "// [2]" ++ Json.chr Json.LF |} ]
           [Json.chr Json.LF]).
  - reflexivity.
  - reflexivity.
  - right. now exists [].
  - constructor; [|constructor]. repeat split.
    + simpl. no_marker_in_literal.
    + simpl. no_marker_in_literal.
    + right. now exists (" [2]" ++ Json.chr Json.LF).
Defined.

End HeaderFacts.

(** ** The matrix *)

Module MatrixFacts.

Import Compat Contract More Subprocess JsonSpec JsonFacts HarnessFacts.

(** *** Resetting the scratch directory *)

Lemma made_after_mkdir (path : string) (tr : list event) :
  made path (tr ++ [MkDir path]) = true.
Proof.
  unfold made. rewrite existsb_app. simpl.
  now rewrite String.eqb_refl, orb_true_r.
Qed.

Lemma ensure_empty_dir_eq (w : World) (path : string) (s : State) :
  ensure_empty_dir w path s
  = (Ret tt,
     {| config := config s;
        trace := (trace s
                  ++ (if path_exists w path || made path (trace s)
                      then wipe path else [MkDir path]))%list;
        out := out s; temps := temps s |}).
Proof.
  unfold ensure_empty_dir. fold (made path (trace s)).
  destruct (path_exists w path || made path (trace s)); unfold log; simpl.
  - now rewrite <- app_assoc.
  - reflexivity.
Qed.

(** X8.  [ensure_empty_dir] never raises, keeps the report and the record,
    and leaves the directory new: it removes it first when it was there.
    A second reset therefore always removes what the first made and makes
    it again. *)
Theorem second_reset_wipes_first (w : World) (path : string) (s : State) :
  let s1 := snd (ensure_empty_dir w path s) in
  let s2 := snd (ensure_empty_dir w path s1) in
  fst (ensure_empty_dir w path s) = Ret tt
  /\ fst (ensure_empty_dir w path s1) = Ret tt
  /\ trace s1 = (trace s ++ (if path_exists w path || made path (trace s)
                             then wipe path else [MkDir path]))%list
  /\ trace s2 = (trace s1 ++ wipe path)%list
  /\ (config s2, out s2) = (config s, out s).
Proof.
  cbv zeta. rewrite (ensure_empty_dir_eq w path s).
  cbn [fst snd].
  rewrite (ensure_empty_dir_eq w path _).
  cbn [fst snd config trace out temps].
  assert (Hmade : made path
                    (trace s ++ (if path_exists w path || made path (trace s)
                                 then wipe path else [MkDir path])) = true).
  { destruct (path_exists w path || made path (trace s)).
    - change (wipe path) with ([RmTree path] ++ [MkDir path])%list.
      rewrite app_assoc. apply made_after_mkdir.
    - apply made_after_mkdir. }
  rewrite Hmade, orb_true_r. repeat split.
Qed.

(** *** One cell, one case *)

Lemma run_adapter_frame (a : adapter) (w : World) (filepath cwd : string)
    (s : State) :
  snd (run_adapter a w filepath cwd s) = after_adapter a w s.
Proof.
  unfold after_adapter, record_after.
  destruct (config s) as [ | | | | |d] eqn:E;
    try (destruct (run_adapter_not_dict a w filepath cwd s) as [r ->];
         [intros d; rewrite E; discriminate | now rewrite E]).
  now rewrite (run_adapter_state a w filepath cwd s d E).
Qed.

Lemma cell_start_eq (w : World) (a : adapter) (s : State) :
  cell_start w a s
  = {| config := config s;
       trace := (trace s ++ reset_events w s)%list;
       out := out s ++ "  " ++ adapter_name a ++ " ... ";
       temps := temps s |}.
Proof.
  unfold cell_start, St.bind at 1. rewrite ensure_empty_dir_eq.
  unfold St.bind, write, St.modify, reset_events. simpl.
  now rewrite !append_assoc.
Qed.

(** A cell hangs or returns; when it returns, it has added its row. *)
Lemma cell_result (w : World) (filepath workdir : string) (a : adapter)
    (s : State) :
  (exists s', cell w filepath workdir a s = (Hang, s'))
  \/ (exists v, is_verdict v
                /\ cell w filepath workdir a s = (Ret tt, cell_end w a v s)).
Proof.
  rewrite cell_eq.
  pose proof (run_adapter_frame a w (OsPath.abspath (getcwd w) filepath)
                workdir (cell_start w a s)) as Hs.
  destruct (run_adapter a w (OsPath.abspath (getcwd w) filepath) workdir
              (cell_start w a s)) as [r s0] eqn:E.
  simpl in Hs. subst s0.
  assert (Hend : forall v,
    append_out (append_out (after_adapter a w (cell_start w a s)) v)
      (Json.chr Json.LF) = cell_end w a v s).
  { intros v. rewrite cell_start_eq.
    unfold append_out, after_adapter, cell_end, row. simpl.
    rewrite ?append_assoc, <- ?app_assoc. f_equal. f_equal.
    simpl. do 2 f_equal. now rewrite append_assoc. }
  destruct r as [u|e|].
  - right. exists OK. split; [now left|].
    rewrite (try_report_ret _ _ _ _ E). now rewrite Hend.
  - right. exists FAILED. split; [now right|].
    rewrite (try_report_raise _ _ _ _ E). now rewrite Hend.
  - left. rewrite (try_report_hang _ _ _ E). eauto.
Qed.

Lemma cells_result (w : World) (filepath workdir : string) (l : list adapter) :
  forall s,
  (exists s', St.for_each l (cell w filepath workdir) s = (Hang, s'))
  \/ (exists vs, List.length vs = List.length l /\ Forall is_verdict vs
                 /\ St.for_each l (cell w filepath workdir) s
                    = (Ret tt, cells_end w l vs s)).
Proof.
  induction l as [|a l IH]; intros s.
  - right. exists []. repeat split. constructor.
  - simpl St.for_each. unfold St.bind.
    destruct (cell_result w filepath workdir a s) as [[s' ->] | [v [Hv ->]]].
    + left. eauto.
    + destruct (IH (cell_end w a v s)) as [[s' ->] | [vs [Hl [Hvs ->]]]].
      * left. eauto.
      * right. exists (v :: vs). simpl. repeat split; auto.
Qed.

Lemma case_resolved (w : World) (filepath workdir : string) (c : json)
    (s : State) :
  resolve w filepath = Ret c ->
  mkdtemp w (temps s) = Some workdir ->
  path_exists w "fixtures" = true ->
  case w filepath s
  = St.for_each tests (cell w filepath workdir)
      (case_start filepath workdir c s).
Proof.
  intros H Hd Hf. unfold case, St.bind at 1, St.lift. rewrite H.
  unfold St.bind at 1, St.modify, set_config.
  unfold St.bind at 1, make_workdir. cbn [config trace out temps].
  rewrite Hd.
  unfold St.bind at 1, copytree, log. rewrite Hf.
  cbn [config trace out temps].
  unfold St.bind at 1, write, St.modify. cbn [config trace out temps].
  unfold St.bind at 1. cbn [config trace out temps].
  unfold St.bind at 1. cbn [config trace out temps].
  unfold St.bind at 1. cbn [config trace out temps].
  unfold case_start, case_header.
  now rewrite !append_assoc, <- !app_assoc.
Qed.

(** No temporary directory: the case stops with the record loaded. *)
Lemma case_no_workdir (w : World) (filepath : string) (c : json) (s : State) :
  resolve w filepath = Ret c ->
  mkdtemp w (temps s) = None ->
  case w filepath s = (Raise OSError, set_config c s).
Proof.
  intros H Hd. unfold case, St.bind at 1, St.lift. rewrite H.
  unfold St.bind at 1, St.modify.
  unfold St.bind at 1, make_workdir. cbn [fst snd].
  replace (temps (set_config c s)) with (temps s) by reflexivity.
  now rewrite Hd.
Qed.

(** No fixtures: the case stops with the temporary directory made. *)
Lemma case_no_fixtures (w : World) (filepath workdir : string) (c : json)
    (s : State) :
  resolve w filepath = Ret c ->
  mkdtemp w (temps s) = Some workdir ->
  path_exists w "fixtures" = false ->
  case w filepath s = (Raise OSError, setup_stopped workdir c s).
Proof.
  intros H Hd Hf. unfold case, St.bind at 1, St.lift. rewrite H.
  unfold St.bind at 1, St.modify, set_config.
  unfold St.bind at 1, make_workdir. cbn [config trace out temps].
  rewrite Hd.
  unfold St.bind at 1, copytree. now rewrite Hf.
Qed.

(** A case whose record is loaded hangs in an adapter, stops with
    [OSError] before its header is written, or returns with its rows. *)
Lemma case_result (w : World) (filepath : string) (c : json) (s : State) :
  resolve w filepath = Ret c ->
  (exists s', case w filepath s = (Hang, s'))
  \/ (exists s', case w filepath s = (Raise OSError, s') /\ out s' = out s)
  \/ (exists workdir vs,
        mkdtemp w (temps s) = Some workdir
        /\ List.length vs = 5 /\ Forall is_verdict vs
        /\ case w filepath s
           = (Ret tt, cells_end w tests vs
                        (case_start filepath workdir c s))).
Proof.
  intros H.
  destruct (mkdtemp w (temps s)) as [workdir|] eqn:Hd.
  - destruct (path_exists w "fixtures") eqn:Hf.
    + rewrite (case_resolved w filepath workdir c s H Hd Hf).
      destruct (cells_result w filepath workdir tests
                  (case_start filepath workdir c s))
        as [[s' E] | [vs [Hl [Hv E]]]].
      * left. eauto.
      * right. right. exists workdir, vs. auto.
    + right. left. rewrite (case_no_fixtures w filepath workdir c s H Hd Hf).
      eexists. split; reflexivity.
  - right. left. rewrite (case_no_workdir w filepath c s H Hd).
    eexists. split; reflexivity.
Qed.








(** X11.  A record that cannot be loaded ends the run then and there,
    with [OSError] when the file cannot be opened and with
    [JSONDecodeError] when its text is not JSON: the report holds the rows
    of the artifacts before, and nothing for this artifact or the ones
    after it. *)
Theorem unloadable_record_ends_run (w : World) (before after : list string)
    (filepath m : string) (ms : list string) (s1 : State) (e : exn) :
  inputs w = (before ++ filepath :: after)%list ->
  St.for_each before (case w) initial = (Ret tt, s1) ->
  glob w (record_pattern filepath) = m :: ms ->
  load_config w m = Raise e ->
  main w initial = (Raise e, s1)
  /\ e = match read_text w m with
         | None => OSError
         | Some _ => JSONDecodeError
         end.
Proof.
  intros Hin Hbefore Hglob Hload. split.
  - unfold main. rewrite Hin, for_each_app, Hbefore.
    simpl. unfold St.bind at 1.
    rewrite (case_unresolved w filepath s1 e); [reflexivity|].
    unfold resolve. rewrite Hglob. exact Hload.
  - unfold load_config in Hload. destruct (read_text w m) as [text|].
    + unfold Json.loads in Hload.
      destruct (Json.scan_once _ _) as [[v rest]|]; [|congruence].
      destruct (Json.skip_ws rest); congruence.
    + congruence.
Qed.

Lemma unloadable_record_sample :
  let w := Sample.world "{" (Sample.prints "hi") in
  main w initial = (Raise JSONDecodeError, initial)
  /\ JSONDecodeError = match read_text w Sample.RECORD with
                       | None => OSError
                       | Some _ => JSONDecodeError
                       end.
Proof.
  apply (unloadable_record_ends_run
           (Sample.world "{" (Sample.prints "hi"))
           [] [] Sample.ARTIFACT Sample.RECORD [] initial JSONDecodeError);
    reflexivity.
Defined.

(** X23.  Without the fixtures the run ends at its first artifact with
    [OSError], raised by the copy outside any handler: the record of the
    artifact is loaded and its temporary directory is made and left
    behind, and nothing is reported, not even the line naming the
    artifact. *)
Theorem missing_fixtures_ends_run (w : World) (filepath workdir : string)
    (after : list string) (c : json) :
  inputs w = filepath :: after ->
  resolve w filepath = Ret c ->
  mkdtemp w 0 = Some workdir ->
  path_exists w "fixtures" = false ->
  main w initial = (Raise OSError, setup_stopped workdir c initial)
  /\ out (snd (main w initial)) = EmptyString
  /\ trace (snd (main w initial)) = [MkDTemp workdir].
Proof.
  intros Hin Hr Hd Hf.
  assert (E : main w initial = (Raise OSError, setup_stopped workdir c initial)).
  { unfold main. rewrite Hin. simpl St.for_each. unfold St.bind at 1.
    now rewrite (case_no_fixtures w filepath workdir c initial Hr Hd Hf). }
  rewrite E. repeat split.
Qed.

Lemma missing_fixtures_sample :
  main Edges.no_fixtures initial
  = (Raise OSError,
     setup_stopped "/tmp/tmp0" (Json.sort_keys (JObj Sample.hi_record))
       initial)
  /\ out (snd (main Edges.no_fixtures initial)) = EmptyString
  /\ trace (snd (main Edges.no_fixtures initial)) = [MkDTemp "/tmp/tmp0"].
Proof.
  apply (missing_fixtures_ends_run Edges.no_fixtures Sample.ARTIFACT
           "/tmp/tmp0" [] (Json.sort_keys (JObj Sample.hi_record)));
    reflexivity.
Defined.

End MatrixFacts.

(** ** The record and the file tree over a case *)

Module CaseFacts.

Import Compat Contract More JsonSpec JsonFacts HarnessFacts MatrixFacts.

Lemma defaulted_present (d : dict) (k : string) (v : json) :
  is_None (Dict.get d k) = false -> defaulted d k v = d.
Proof. unfold defaulted. now intros ->. Qed.

Lemma defaulted_fills (d : dict) (k : string) (v : json) :
  is_None v = false -> is_None (Dict.get (defaulted d k v) k) = false.
Proof.
  intros Hv. rewrite get_defaulted_same.
  destruct (is_None (Dict.get d k)) eqn:E; [exact Hv | exact E].
Qed.

(** Filling in the defaults a second time changes nothing. *)
Lemma normalized_idem (d : dict) : normalized (normalized d) = normalized d.
Proof.
  unfold normalized at 1.
  assert (He : is_None (Dict.get (normalized d) "env") = false).
  { unfold normalized, Dict.get.
    rewrite lookup_defaulted_other by reflexivity.
    apply (defaulted_fills d "env" (JObj [])). reflexivity. }
  assert (Ha : is_None (Dict.get (normalized d) "args") = false).
  { apply (defaulted_fills _ "args" (JArr [])). reflexivity. }
  rewrite (defaulted_present (normalized d) "env") by exact He.
  now rewrite defaulted_present.
Qed.

(** X12.  When a case has run through, the record all five adapters were
    handed is the loaded one with [env] and [args] filled in: the deno
    adapter fills them, and no later adapter changes the record again. *)
Theorem record_after_case_is_normalized (w : World) (filepath : string)
    (d : dict) (s : State) :
  resolve w filepath = Ret (JObj d) ->
  fst (case w filepath s) = Ret tt ->
  config (snd (case w filepath s)) = JObj (normalized d).
Proof.
  intros H Hret.
  destruct (case_result w filepath (JObj d) s H)
    as [[s' E] | [[s' [E _]] | [workdir [vs [_ [Hl [Hv E]]]]]]];
    rewrite E in *; cbn [fst snd] in *; try discriminate.
  destruct vs as [|v1 [|v2 [|v3 [|v4 [|v5 [|v6 vs]]]]]]; try discriminate.
  cbn [tests cells_end cell_end case_start config record_after config_after].
  now rewrite normalized_idem.
Qed.

Lemma record_after_case_sample :
  config (snd (case (Sample.world Sample.hi_text (Sample.prints "hi"))
                 Sample.ARTIFACT initial))
  = JObj (normalized Sample.hi_record).
Proof.
  apply (record_after_case_is_normalized
           (Sample.world Sample.hi_text (Sample.prints "hi"))
           Sample.ARTIFACT Sample.hi_record initial).
  - reflexivity.
  - reflexivity.
Defined.

Lemma made_app (path : string) (a b : list event) :
  made path (a ++ b) = made path a || made path b.
Proof. unfold made. apply existsb_app. Qed.

Lemma reset_events_made (w : World) (s : State) :
  made "scratch" (trace s) = true -> reset_events w s = wipe "scratch".
Proof. unfold reset_events. intros ->. now rewrite orb_true_r. Qed.

Lemma made_after_reset (w : World) (s : State) (tail : list event) :
  made "scratch" (trace s ++ reset_events w s ++ tail) = true.
Proof.
  rewrite !made_app. unfold reset_events.
  destruct (path_exists w "scratch" || made "scratch" (trace s));
    simpl; now rewrite ?orb_true_r.
Qed.

(** X13.  What a case that runs through does to the file tree: it makes
    one temporary directory and copies the fixtures into it once, and
    before each of the five adapters it makes the scratch directory anew
    (the first time removing it only when it is there); the only files
    written are the two glue programs.  Every case takes the next
    temporary directory. *)
Theorem case_file_events (w : World) (filepath workdir : string) (c : json)
    (s : State) :
  resolve w filepath = Ret c ->
  mkdtemp w (temps s) = Some workdir ->
  fst (case w filepath s) = Ret tt ->
  trace (snd (case w filepath s))
  = (trace s
     ++ [MkDTemp workdir;
         CopyTree "fixtures" (OsPath.join workdir "fixtures")]
     ++ reset_events w s ++ written Deno w
     ++ wipe "scratch" ++ written Node w
     ++ wipe "scratch" ++ wipe "scratch" ++ wipe "scratch")%list
  /\ temps (snd (case w filepath s)) = S (temps s).
Proof.
  intros H Hd Hret.
  destruct (case_result w filepath c s H)
    as [[s' E] | [[s' [E _]] | [workdir' [vs [Hd' [Hl [Hv E]]]]]]];
    rewrite E in *; cbn [fst snd] in *; try discriminate.
  rewrite Hd in Hd'. injection Hd' as <-.
  - destruct vs as [|v1 [|v2 [|v3 [|v4 [|v5 [|v6 vs]]]]]]; try discriminate.
    cbn [tests cells_end]. split; [|reflexivity].
    set (s0 := case_start filepath workdir c s).
    set (s1 := cell_end w Deno v1 s0).
    set (s2 := cell_end w Node v2 s1).
    set (s3 := cell_end w Wasmer v3 s2).
    set (s4 := cell_end w Wasmtime v4 s3).
    assert (H0 : reset_events w s0 = reset_events w s).
    { unfold reset_events, s0, case_start. cbn [trace].
      rewrite made_app. simpl. now rewrite orb_false_r. }
    assert (H1 : reset_events w s1 = wipe "scratch").
    { apply reset_events_made. apply made_after_reset. }
    assert (H2 : reset_events w s2 = wipe "scratch").
    { apply reset_events_made. apply made_after_reset. }
    assert (H3 : reset_events w s3 = wipe "scratch").
    { apply reset_events_made. apply made_after_reset. }
    assert (H4 : reset_events w s4 = wipe "scratch").
    { apply reset_events_made. apply made_after_reset. }
    unfold cell_end at 1. cbn [trace]. rewrite H4.
    unfold s4, cell_end at 1. cbn [trace]. rewrite H3.
    unfold s3, cell_end at 1. cbn [trace]. rewrite H2.
    unfold s2, cell_end at 1. cbn [trace]. rewrite H1.
    unfold s1, cell_end at 1. cbn [trace]. rewrite H0.
    unfold s0, case_start. cbn [trace written].
    rewrite <- !app_assoc. reflexivity.
Qed.

Lemma case_file_events_sample :
  let w := Sample.world Sample.hi_text (Sample.prints "hi") in
  trace (snd (case w Sample.ARTIFACT initial))
  = (trace initial
     ++ [MkDTemp "/tmp/tmp0";
         CopyTree "fixtures" (OsPath.join "/tmp/tmp0" "fixtures")]
     ++ reset_events w initial ++ written Deno w
     ++ wipe "scratch" ++ written Node w
     ++ wipe "scratch" ++ wipe "scratch" ++ wipe "scratch")%list
  /\ temps (snd (case w Sample.ARTIFACT initial)) = S (temps initial).
Proof.
  apply (case_file_events
           (Sample.world Sample.hi_text (Sample.prints "hi"))
           Sample.ARTIFACT "/tmp/tmp0" (JObj Sample.hi_record) initial);
    reflexivity.
Defined.

End CaseFacts.

(** ** The commands of the adapters that start their runtime directly *)

Module CommandFacts.

Import Compat Contract More Subprocess JsonSpec JsonFacts HarnessFacts.

Lemma flags_of_items (flag sep : string) (d l : dict) :
  NoDup (map fst d) -> incl l d -> all_strings l = true ->
  flags_of_keys flag sep d (map fst l) = Ret (entry_flags flag sep l).
Proof.
  intros Hnd. induction l as [|[k v] l IH]; intros Hin Hall; [reflexivity|].
  simpl in Hall. destruct v; try discriminate.
  simpl. rewrite (lookup_In_NoDup d k (JStr s) Hnd); [|apply Hin; now left].
  rewrite IH; [reflexivity | | exact Hall].
  intros x Hx. apply Hin. now right.
Qed.

Lemma optional_flags_string_map (flag sep : string) (v : json) (m : dict) :
  string_map v m -> optional_flags flag sep v = Ret (entry_flags flag sep m).
Proof.
  intros [[-> ->] | [-> [Hall Hd]]]; [reflexivity|].
  simpl. unfold Dict.keys. apply flags_of_items.
  - now apply distinct_NoDup.
  - apply incl_refl.
  - exact Hall.
Qed.

(** X14.  For a record whose [env] and [preopens] map names to strings
    and whose [args] are strings, the wasmer, wasmtime and wasmedge
    adapters always get a command, and it is this one: the runtime, then
    one [--env NAME=VALUE] for each entry of [env] and one mapping flag
    for each entry of [preopens], both in the order of the record, with
    the program before these flags for wasmer and after them for the two
    others, and the extra arguments last. *)
Theorem direct_commands_of_typed_record (filepath : string) (d env pre : dict)
    (extra : list string) :
  string_map (Dict.get d "env") env ->
  string_map (Dict.get d "preopens") pre ->
  record_args d extra ->
  wasmer_cmd filepath d
  = Ret (["wasmer"; "run"; filepath]
         ++ entry_flags "--env" "=" env ++ entry_flags "--mapdir" ":" pre
         ++ args_separator Wasmer d ++ extra)%list
  /\ wasmtime_cmd filepath d
     = Ret (["wasmtime"; "run"]
            ++ entry_flags "--env" "=" env ++ entry_flags "--mapdir" "::" pre
            ++ [filepath] ++ args_separator Wasmtime d ++ extra)%list
  /\ wasmedge_cmd filepath d
     = Ret (["wasmedge"]
            ++ entry_flags "--env" "=" env ++ entry_flags "--dir" ":" pre
            ++ [wasmedge_so filepath] ++ extra)%list.
Proof.
  intros Henv Hpre Hargs.
  unfold wasmer_cmd, wasmtime_cmd, wasmedge_cmd.
  rewrite !(optional_flags_string_map _ _ _ env Henv).
  rewrite !(optional_flags_string_map _ _ _ pre Hpre).
  rewrite !(optional_args_record _ d extra Hargs).
  unfold args_separator. simpl. repeat split.
  now destruct (is_None (Dict.get d "args")).
Qed.

Lemma direct_commands_sample :
  wasmer_cmd "/repo/hello.wasm" Sample.mapped_record
  = Ret (["wasmer"; "run"; "/repo/hello.wasm"]
         ++ entry_flags "--env" "=" []
         ++ entry_flags "--mapdir" ":" [("/data", JStr "fixtures")]
         ++ args_separator Wasmer Sample.mapped_record ++ ["a"])%list
  /\ wasmtime_cmd "/repo/hello.wasm" Sample.mapped_record
     = Ret (["wasmtime"; "run"]
            ++ entry_flags "--env" "=" []
            ++ entry_flags "--mapdir" "::" [("/data", JStr "fixtures")]
            ++ ["/repo/hello.wasm"]
            ++ args_separator Wasmtime Sample.mapped_record ++ ["a"])%list
  /\ wasmedge_cmd "/repo/hello.wasm" Sample.mapped_record
     = Ret (["wasmedge"]
            ++ entry_flags "--env" "=" []
            ++ entry_flags "--dir" ":" [("/data", JStr "fixtures")]
            ++ [wasmedge_so "/repo/hello.wasm"] ++ ["a"])%list.
Proof.
  apply (direct_commands_of_typed_record "/repo/hello.wasm"
           Sample.mapped_record [] [("/data", JStr "fixtures")] ["a"]).
  - left. split; reflexivity.
  - right. repeat split.
  - right. reflexivity.
Defined.

End CommandFacts.

(** ** Edges of the adapters *)

Module EdgeFacts.

Import Compat Contract More Subprocess JsonSpec JsonFacts HarnessFacts.

Lemma flags_of_keys_bad_value (flag sep : string) (d : dict) (k : string)
    (v : json) (keys : list string) :
  NoDup (map fst d) -> In (k, v) d -> (forall x, v <> JStr x) ->
  incl keys (map fst d) -> In k keys ->
  flags_of_keys flag sep d keys = Raise TypeError.
Proof.
  intros Hnd Hkv Hv. induction keys as [|key keys IH]; intros Hincl Hin;
    [contradiction|].
  simpl.
  assert (Hkey : In key (map fst d)) by (apply Hincl; now left).
  apply in_map_iff in Hkey as [[key' w] [Ek Hw]]. simpl in Ek. subst key'.
  rewrite (lookup_In_NoDup d key w Hnd Hw).
  destruct w; try reflexivity.
  assert (Hk : In k keys).
  { destruct Hin as [-> | Hin]; [|exact Hin].
    pose proof (lookup_In_NoDup d k (JStr s) Hnd Hw) as E.
    rewrite (lookup_In_NoDup d k v Hnd Hkv) in E. injection E as E.
    now destruct (Hv s). }
  rewrite IH; [reflexivity | | exact Hk].
  intros x Hx. apply Hincl. now right.
Qed.

(** X15.  An [env] entry whose value is not a [str] makes the wasmer,
    wasmtime and wasmedge adapters raise [TypeError] while they build
    their command: the wasmer and wasmtime cells fail without a runtime
    being started, whatever the runtimes would have done. *)
Theorem env_value_not_str_is_type_error (w : World) (filepath cwd : string)
    (s : State) (d env : dict) (k : string) (v : json) :
  config s = JObj d ->
  Dict.get d "env" = JObj env ->
  distinct (map fst env) = true ->
  In (k, v) env ->
  (forall x, v <> JStr x) ->
  wasmer_cmd filepath d = Raise TypeError
  /\ wasmtime_cmd filepath d = Raise TypeError
  /\ wasmedge_cmd filepath d = Raise TypeError
  /\ run_adapter Wasmer w filepath cwd s = (Raise TypeError, s)
  /\ run_adapter Wasmtime w filepath cwd s = (Raise TypeError, s).
Proof.
  intros Hd Henv Hdist Hin Hv.
  assert (Hflags : optional_flags "--env" "=" (Dict.get d "env")
                   = Raise TypeError).
  { rewrite Henv. simpl.
    apply (flags_of_keys_bad_value _ _ env k v).
    - now apply distinct_NoDup.
    - exact Hin.
    - exact Hv.
    - apply incl_refl.
    - apply in_map_iff. now exists (k, v). }
  assert (Ha : wasmer_cmd filepath d = Raise TypeError)
    by (unfold wasmer_cmd; now rewrite Hflags).
  assert (Hb : wasmtime_cmd filepath d = Raise TypeError)
    by (unfold wasmtime_cmd; now rewrite Hflags).
  assert (Hc : wasmedge_cmd filepath d = Raise TypeError)
    by (unfold wasmedge_cmd; now rewrite Hflags).
  repeat split; try assumption.
  - unfold run_adapter, test_wasmer, St.bind, build_cmd.
    now rewrite Hd, Ha.
  - unfold run_adapter, test_wasmtime, St.bind, build_cmd.
    now rewrite Hd, Hb.
Qed.

Lemma env_value_not_str_sample :
  let w := Sample.world Sample.hi_text (Sample.prints "hi") in
  let s := Sample.with_config Edges.numeric_env in
  wasmer_cmd "/repo/hello.wasm" Edges.numeric_env = Raise TypeError
  /\ wasmtime_cmd "/repo/hello.wasm" Edges.numeric_env = Raise TypeError
  /\ wasmedge_cmd "/repo/hello.wasm" Edges.numeric_env = Raise TypeError
  /\ run_adapter Wasmer w "/repo/hello.wasm" "/tmp/tmp0" s
     = (Raise TypeError, s)
  /\ run_adapter Wasmtime w "/repo/hello.wasm" "/tmp/tmp0" s
     = (Raise TypeError, s).
Proof.
  apply (env_value_not_str_is_type_error
           (Sample.world Sample.hi_text (Sample.prints "hi"))
           "/repo/hello.wasm" "/tmp/tmp0"
           (Sample.with_config Edges.numeric_env) Edges.numeric_env
           [("N", JInt 1)] "N" (JInt 1)).
  - reflexivity.
  - reflexivity.
  - reflexivity.
  - now left.
  - discriminate.
Defined.

(** X16.  When the wasmedge compiler does not return normally, the guest
    is not started and the record and the file tree stay as they were: a
    compiler that fails gives a FAILED cell, and a compiler that never
    exits keeps the cell from ever ending, since the compile step is
    waited for without a time limit, whatever limit the record sets. *)
Theorem wasmedge_compile_step_is_unguarded (w : World)
    (filepath workdir : string) (s : State) (r : res unit) :
  check_call w (wasmedgec_cmd filepath) = r ->
  returns r = false ->
  run_adapter Wasmedge w filepath workdir s = (r, s)
  /\ match r with
     | Hang => try_report (run_adapter Wasmedge w filepath workdir) s
               = (Hang, s)
     | _ => reports (run_adapter Wasmedge w filepath workdir) s failed_line
     end.
Proof.
  intros Hcall Hr.
  assert (E : run_adapter Wasmedge w filepath workdir s = (r, s)).
  { unfold run_adapter, test_wasmedge, St.bind at 1, St.lift.
    rewrite Hcall. destruct r; [discriminate | reflexivity | reflexivity]. }
  split; [exact E|].
  destruct r as [u|e|]; [discriminate | |].
  - eexists. split; [apply (try_report_raise _ _ _ _ E)|].
    unfold failed_line. simpl. now rewrite append_assoc.
  - now apply try_report_hang.
Qed.

Lemma wasmedge_compile_sample :
  let w := Sample.world Sample.hi_text Edges.stuck_compiler in
  let s := Sample.with_config Sample.hi_record in
  run_adapter Wasmedge w "/repo/hello.wasm" "/tmp/tmp0" s = (Hang, s)
  /\ try_report (run_adapter Wasmedge w "/repo/hello.wasm" "/tmp/tmp0") s
     = (Hang, s).
Proof.
  apply (wasmedge_compile_step_is_unguarded
           (Sample.world Sample.hi_text Edges.stuck_compiler)
           "/repo/hello.wasm" "/tmp/tmp0"
           (Sample.with_config Sample.hi_record) Hang); reflexivity.
Defined.

(** X17.  The defaults of the expectations stand in for an absent key
    only.  A record whose [stdout] is there but is not a [str] (a null,
    say) is matched by no output at all: every comparison fails, so no
    adapter call can return. *)
Theorem expectation_not_str_never_matches (w : World) (cmd : list string)
    (cwd : string) (s : State) (d : dict) :
  config s = JObj d ->
  (forall x, expectedStdout d <> JStr x) ->
  (forall p, assert_result p (JObj d) = Raise AssertionError)
  /\ returns (fst (test w cmd cwd s)) = false.
Proof.
  intros Hd Hso.
  assert (Ha : forall p, assert_result p (JObj d) = Raise AssertionError).
  { intros p. unfold assert_result. simpl. unfold expectedStdout in Hso.
    destruct (Dict.get_default d "stdout" (JStr EmptyString)) eqn:E;
      try reflexivity.
    now destruct (Hso s0). }
  split; [exact Ha|].
  rewrite (test_dict w cmd cwd s d Hd). simpl.
  destruct (run w cmd cwd _ _) as [p|e|]; simpl; try reflexivity.
  now rewrite Ha.
Qed.

Lemma expectation_not_str_sample :
  let w := Sample.world Sample.hi_text (Sample.prints EmptyString) in
  (forall p, assert_result p (JObj Edges.nulls) = Raise AssertionError)
  /\ returns (fst (test w ["wasmer"; "run"; "/repo/hello.wasm"] "/tmp/tmp0"
                     (Sample.with_config Edges.nulls))) = false.
Proof.
  apply (expectation_not_str_never_matches
           (Sample.world Sample.hi_text (Sample.prints EmptyString))
           ["wasmer"; "run"; "/repo/hello.wasm"] "/tmp/tmp0"
           (Sample.with_config Edges.nulls) Edges.nulls).
  - reflexivity.
  - discriminate.
Defined.

(** X18.  The default limit of 5 seconds stands in for an absent key
    only.  With a [timeout] that is there and null the guest is waited
    for without a limit: when it never exits, the adapter call never
    returns and the cell never gets its verdict. *)
Theorem null_timeout_waits_forever (a : adapter) (w : World)
    (filepath cwd : string) (s : State) (d : dict) (cmd : list string) :
  config s = JObj d ->
  Dict.lookup "timeout" d = Some JNull ->
  (Dict.get d "stdin" = JNull \/ exists x, Dict.get d "stdin" = JStr x) ->
  guest_cmd a w filepath d = Ret cmd ->
  behaviour_of w cmd cwd (stdin_of d) = Runs_forever ->
  fst (run_adapter a w filepath cwd s) = Hang
  /\ fst (try_report (run_adapter a w filepath cwd) s) = Hang.
Proof.
  intros Hd Ht Hin Hcmd Hb.
  assert (Hstdin : Dict.get (config_after a d) "stdin" = Dict.get d "stdin").
  { unfold Dict.get. now rewrite lookup_config_after. }
  assert (Htime : timeoutSeconds (config_after a d) = JNull).
  { unfold timeoutSeconds, Dict.get_default.
    rewrite lookup_config_after by reflexivity. now rewrite Ht. }
  assert (Hrun : run w cmd cwd (Dict.get d "stdin") JNull = Hang).
  { unfold run, stdin_of in *.
    destruct Hin as [E | [x E]]; rewrite E in *; now rewrite Hb. }
  assert (E : run_adapter a w filepath cwd s = (Hang, before_test a w d s)).
  { rewrite (run_adapter_dict a w filepath cwd s d Hd), Hcmd.
    rewrite (test_dict w cmd cwd _ (config_after a d)) by reflexivity.
    now rewrite Htime, Hstdin, Hrun. }
  split; [now rewrite E|].
  now rewrite (try_report_hang _ _ _ E).
Qed.

Lemma null_timeout_sample :
  let w := Sample.world Sample.hi_text Edges.endless in
  let s := Sample.with_config Edges.nulls in
  fst (run_adapter Wasmtime w "/repo/hello.wasm" "/tmp/tmp0" s) = Hang
  /\ fst (try_report (run_adapter Wasmtime w "/repo/hello.wasm" "/tmp/tmp0") s)
     = Hang.
Proof.
  apply (null_timeout_waits_forever Wasmtime
           (Sample.world Sample.hi_text Edges.endless)
           "/repo/hello.wasm" "/tmp/tmp0"
           (Sample.with_config Edges.nulls) Edges.nulls
           ["wasmtime"; "run"; "/repo/hello.wasm"]).
  - reflexivity.
  - reflexivity.
  - left; reflexivity.
  - reflexivity.
  - reflexivity.
Defined.

(** X19.  What the guest of a glue program is given besides its argv: as
    environment the record's [env], or an empty mapping when the record
    has none or a null, and as preopens the record's [preopens] as they
    are (nothing when the record has none). *)
Theorem glue_guest_env_and_preopens (a : adapter) (w : World)
    (filepath : string) (d : dict) (extra cmd : list string) :
  glue a = true ->
  unique_keys (JObj d) = true ->
  record_args d extra ->
  guest_cmd a w filepath d = Ret cmd ->
  exists script text opts,
    cmd = glue_cmd a script text filepath
    /\ Glue.wasi_options [text; filepath] = Some opts
    /\ Glue.env opts = filled a d "env" (JObj [])
    /\ Glue.preopens opts = Dict.get d "preopens".
Proof.
  intros Hg Hu Hargs Hcmd.
  assert (Hopts : exists opts,
    Glue.wasi_options [Json.dumps false None (JObj (normalized d)); filepath]
    = Some opts
    /\ Glue.env opts = Dict.get (normalized d) "env"
    /\ Glue.preopens opts = Dict.get (normalized d) "preopens").
  { unfold Glue.wasi_options.
    pose proof (loads_dumps false None (JObj (normalized d)) EmptyString
                  (unique_keys_normalized d Hu) eq_refl) as Hl.
    rewrite append_nil_r in Hl. rewrite Hl, args_normalized.
    destruct Hargs as [[-> ->] | ->]; simpl; eexists; repeat split. }
  destruct Hopts as [opts [Ho [He Hp]]].
  assert (Hpre : Dict.get (normalized d) "preopens" = Dict.get d "preopens").
  { unfold Dict.get, normalized. now rewrite !lookup_defaulted_other. }
  assert (Henv : Dict.get (normalized d) "env"
                 = if is_None (Dict.get d "env") then JObj []
                   else Dict.get d "env").
  { unfold normalized, Dict.get at 1.
    rewrite lookup_defaulted_other by reflexivity.
    apply get_defaulted_same. }
  destruct a; try discriminate; simpl in Hcmd; injection Hcmd as <-;
    eexists; eexists; exists opts; unfold filled; simpl;
    (split; [reflexivity|]); (split; [exact Ho|]);
    (split; [now rewrite He, Henv | now rewrite Hp, Hpre]).
Qed.

Lemma glue_guest_sample :
  exists script text opts,
    deno_cmd (OsPath.abspath "/repo" ".deno.ts")
      (Json.dumps false None (JObj (normalized Sample.hi_record)))
      "/repo/hello.wasm"
    = glue_cmd Deno script text "/repo/hello.wasm"
    /\ Glue.wasi_options [text; "/repo/hello.wasm"] = Some opts
    /\ Glue.env opts = filled Deno Sample.hi_record "env" (JObj [])
    /\ Glue.preopens opts = Dict.get Sample.hi_record "preopens".
Proof.
  apply (glue_guest_env_and_preopens Deno
           (Sample.world Sample.hi_text (Sample.prints "hi"))
           "/repo/hello.wasm" Sample.hi_record []).
  - reflexivity.
  - reflexivity.
  - left. split; reflexivity.
  - reflexivity.
Defined.

(** *** The order of the artifacts *)

Lemma ascending_insert (x : string) (l : list string) :
  ascending l = true -> ascending (Str.insert_sorted x l) = true.
Proof.
  induction l as [|y l IH]; intros H; [reflexivity|].
  simpl Str.insert_sorted. destruct (String.leb x y) eqn:E.
  - simpl. now rewrite E.
  - assert (Hyx : String.leb y x = true).
    { destruct (String.leb_total x y) as [T | T]; congruence. }
    simpl in H. apply andb_prop in H as [Hy Hl]. specialize (IH Hl).
    destruct l as [|z l].
    + simpl. now rewrite Hyx.
    + simpl Str.insert_sorted in *. destruct (String.leb x z) eqn:Ez.
      * simpl. simpl in IH. now rewrite Hyx, Ez.
      * simpl. simpl in IH. now rewrite Hy, IH.
Qed.

Lemma insert_sorted_perm (x : string) (l : list string) :
  Permutation (Str.insert_sorted x l) (x :: l).
Proof.
  induction l as [|y l IH]; simpl; [reflexivity|].
  destruct (String.leb x y); [reflexivity|].
  rewrite IH. apply perm_swap.
Qed.

(** X20.  The artifacts are taken in ascending order of their paths,
    whatever order the search returned them in, and each path found is
    taken once for each time it was found. *)
Theorem artifacts_in_ascending_order (w : World) :
  ascending (inputs w) = true
  /\ Permutation (inputs w) (glob w "target/wasm32-wasi/**/*.wasm").
Proof.
  unfold inputs, Str.sorted.
  induction (glob w "target/wasm32-wasi/**/*.wasm") as [|x l [IHa IHp]].
  - split; [reflexivity | constructor].
  - simpl. split.
    + now apply ascending_insert.
    + rewrite insert_sorted_perm. now constructor.
Qed.

End EdgeFacts.

(** ** The persisted text is canonical *)

Module CanonFacts.

Import Contract More JsonSpec JsonFacts HarnessFacts.

Lemma ascii_compare_trans (x y z : ascii) (c : comparison) :
  Ascii.compare x y = c -> Ascii.compare y z = c -> Ascii.compare x z = c.
Proof.
  unfold Ascii.compare. destruct c; intros H1 H2.
  - apply N.compare_eq_iff in H1, H2. apply N.compare_eq_iff. congruence.
  - apply N.compare_lt_iff in H1. apply N.compare_lt_iff in H2.
    apply N.compare_lt_iff. eapply N.lt_trans; eassumption.
  - apply N.compare_gt_iff in H1. apply N.compare_gt_iff in H2.
    apply N.compare_gt_iff. eapply N.lt_trans; eassumption.
Qed.

Lemma string_leb_trans (a b c : string) :
  String.leb a b = true -> String.leb b c = true -> String.leb a c = true.
Proof.
  unfold String.leb. revert b c.
  induction a as [|x a IH]; intros b c; [destruct c; reflexivity|].
  destruct b as [|y b]; [discriminate|].
  destruct c as [|z c]; [destruct (Ascii.compare x y); discriminate|].
  simpl.
  destruct (Ascii.compare x y) eqn:Exy; destruct (Ascii.compare y z) eqn:Eyz;
    try discriminate.
  - rewrite (ascii_compare_trans x y z Eq Exy Eyz). apply IH.
  - apply Ascii.compare_eq_iff in Exy. subst y. now rewrite Eyz.
  - apply Ascii.compare_eq_iff in Eyz. subst z. now rewrite Exy.
  - now rewrite (ascii_compare_trans x y z Lt Exy Eyz).
Qed.

Lemma keys_insert_item (kv : string * json) (d : dict) :
  map fst (Json.insert_item kv d) = Str.insert_sorted (fst kv) (map fst d).
Proof.
  induction d as [|kw d IH]; simpl; [reflexivity|].
  destruct (String.leb (fst kv) (fst kw)); simpl; [reflexivity|].
  now rewrite IH.
Qed.

Lemma ordered_insert (kv : string * json) (d : dict) :
  ordered d = true -> ordered (Json.insert_item kv d) = true.
Proof.
  unfold ordered. rewrite keys_insert_item. apply EdgeFacts.ascending_insert.
Qed.

Lemma ordered_sort_items (d : dict) : ordered (Json.sort_items d) = true.
Proof.
  induction d as [|kv d IH]; [reflexivity|].
  simpl. now apply ordered_insert.
Qed.

Lemma ascending_head (x : string) (l : list string) :
  ascending (x :: l) = true -> forall y, In y l -> String.leb x y = true.
Proof.
  revert x. induction l as [|z l IH]; intros x H y Hy; [contradiction|].
  simpl in H. apply andb_prop in H as [Hxz Hl].
  destruct Hy as [<- | Hy]; [exact Hxz|].
  apply (string_leb_trans x z y Hxz). now apply IH.
Qed.

Lemma ascending_tail (x : string) (l : list string) :
  ascending (x :: l) = true -> ascending l = true.
Proof. simpl. intros H. now apply andb_prop in H as [_ H]. Qed.

(** Two ascending lists of items with distinct keys that hold the same
    items are the same list. *)
Lemma ordered_perm_eq (d e : dict) :
  ordered d = true -> ordered e = true -> NoDup (map fst d) ->
  Permutation d e -> d = e.
Proof.
  unfold ordered. revert e.
  induction d as [|x d IH]; intros e Hd He Hnd Hp.
  - now apply Permutation_nil in Hp.
  - destruct e as [|y e]; [now apply Permutation_sym, Permutation_nil in Hp|].
    assert (Hxy : x = y).
    { assert (Hx : In x (y :: e))
        by (eapply Permutation_in; [exact Hp | now left]).
      assert (Hy : In y (x :: d))
        by (eapply Permutation_in; [symmetry; exact Hp | now left]).
      destruct Hx as [-> | Hx]; [reflexivity|].
      destruct Hy as [-> | Hy]; [reflexivity|].
      exfalso.
      assert (L1 : String.leb (fst x) (fst y) = true).
      { apply (ascending_head _ _ Hd). now apply in_map. }
      assert (L2 : String.leb (fst y) (fst x) = true).
      { apply (ascending_head _ _ He). now apply in_map. }
      pose proof (String.leb_antisym _ _ L1 L2) as E.
      inversion Hnd as [|? ? Hnot _]; subst. apply Hnot.
      rewrite E. now apply in_map. }
    subst y. f_equal. apply IH.
    + now apply ascending_tail in Hd.
    + now apply ascending_tail in He.
    + now inversion Hnd.
    + now apply Permutation_cons_inv in Hp.
Qed.

Lemma sort_items_perm_eq (d e : dict) :
  NoDup (map fst d) -> Permutation d e ->
  Json.sort_items d = Json.sort_items e.
Proof.
  intros Hnd Hp. apply ordered_perm_eq.
  - apply ordered_sort_items.
  - apply ordered_sort_items.
  - eapply Permutation_NoDup; [|exact Hnd].
    apply Permutation_map. symmetry. apply sort_items_perm.
  - rewrite sort_items_perm, Hp. symmetry. apply sort_items_perm.
Qed.

Lemma lookup_In (d : dict) (k : string) (v : json) :
  Dict.lookup k d = Some v -> In (k, v) d.
Proof.
  induction d as [|[k' w] d IH]; simpl; [discriminate|].
  destruct (String.eqb k' k) eqn:E.
  - apply String.eqb_eq in E. intros H. injection H as ->. subst. now left.
  - intros H. right. now apply IH.
Qed.

(** Values that are the same field for field have the same sorted form. *)
Lemma sort_keys_identical (a : json) :
  forall b, unique_keys a = true -> unique_keys b = true ->
            identical a b = true -> Json.sort_keys a = Json.sort_keys b.
Proof.
  induction a as [ | x | n | s | l IH | d IH ] using json_nested_ind;
    intros b Ha Hb Hi; destruct b as [ | y | m | t | l' | e ];
    simpl in Hi; try discriminate.
  - reflexivity.
  - apply Bool.eqb_prop in Hi. now subst.
  - apply Z.eqb_eq in Hi. now subst.
  - apply String.eqb_eq in Hi. now subst.
  - simpl. f_equal. simpl in Ha, Hb. revert l' Hb Hi.
    induction IH as [|v l Hv Hl IHl]; intros l' Hb Hi;
      destruct l' as [|v' l']; try discriminate; [reflexivity|].
    simpl in Ha, Hb. apply andb_prop in Ha as [Hav Hal].
    apply andb_prop in Hb as [Hbv Hbl]. apply andb_prop in Hi as [Hiv Hil].
    simpl. rewrite (Hv v' Hav Hbv Hiv). f_equal. now apply IHl.
  - simpl. f_equal. simpl in Ha, Hb.
    apply andb_prop in Ha as [Hka Hva]. apply andb_prop in Hb as [Hkb Hvb].
    apply andb_prop in Hi as [Hlen Hall]. apply Nat.eqb_eq in Hlen.
    apply distinct_NoDup in Hka, Hkb.
    apply sort_items_perm_eq; [now rewrite map_fst_sorted|].
    apply NoDup_Permutation_bis.
    + apply (NoDup_map_inv fst). now rewrite map_fst_sorted.
    + rewrite !length_map. lia.
    + intros x Hx. apply in_map_iff in Hx as [[k w] [<- Hin]].
      rewrite forallb_forall in Hall, Hva, Hvb.
      specialize (Hall _ Hin). simpl in Hall.
      destruct (Dict.lookup k e) as [w'|] eqn:El; [|discriminate].
      apply lookup_In in El.
      rewrite Forall_forall in IH.
      pose proof (IH _ Hin w' (Hva _ Hin) (Hvb _ El) Hall) as E.
      cbn [snd] in E. rewrite E.
      apply in_map_iff. now exists (k, w').
Qed.

(** X21.  The text of a record does not depend on the order its keys
    were written in: two records that are the same field for field are
    persisted as the same text. *)
Theorem persisted_text_ignores_key_order (a b : json) :
  unique_keys a = true -> unique_keys b = true ->
  identical a b = true ->
  Build.persist a = Build.persist b.
Proof.
  intros Ha Hb Hi. unfold Build.persist, Json.dumps.
  now rewrite (sort_keys_identical a b Ha Hb Hi).
Qed.

Lemma persisted_text_sample :
  Build.persist (JObj [("stdout", JStr "hi"); ("args", JArr [])])
  = Build.persist (JObj [("args", JArr []); ("stdout", JStr "hi")]).
Proof.
  apply (persisted_text_ignores_key_order
           (JObj [("stdout", JStr "hi"); ("args", JArr [])])
           (JObj [("args", JArr []); ("stdout", JStr "hi")]));
    reflexivity.
Defined.

(** X22.  Persisting what was loaded from a persisted record gives the
    same text again: a record file is a fixed point of loading and
    persisting. *)
Theorem persisted_text_is_stable (w : World) (path : string) (record : json) :
  unique_keys record = true ->
  read_text w path = Some (Build.persist record) ->
  exists loaded,
    Compat.load_config w path = Ret loaded
    /\ Build.persist loaded = Build.persist record.
Proof.
  intros Hu Hread. exists (Json.sort_keys record). split.
  - unfold Compat.load_config. rewrite Hread.
    apply (loads_dumps true (Some 2)); [exact Hu | reflexivity].
  - assert (E : Json.sort_keys record = Json.sort_keys (Json.sort_keys record)).
    { apply sort_keys_identical.
      - exact Hu.
      - now apply unique_keys_sort_keys.
      - now apply identical_sort_keys. }
    unfold Build.persist, Json.dumps. now rewrite <- E.
Qed.

Lemma persisted_text_stable_sample :
  exists loaded,
    Compat.load_config (Sample.world (Build.persist (JObj Sample.bare_record))
                          (Sample.prints "a")) Sample.RECORD = Ret loaded
    /\ Build.persist loaded = Build.persist (JObj Sample.bare_record).
Proof.
  apply (persisted_text_is_stable
           (Sample.world (Build.persist (JObj Sample.bare_record))
              (Sample.prints "a")) Sample.RECORD (JObj Sample.bare_record));
    reflexivity.
Defined.

End CanonFacts.
